(** * Menu-item resolution engine: a shallow embedding of
      [backend_server/models/resturant_calories.py]

    The development follows the Python module function by function.

    - Text is a Rocq [string]; a character is read as a code point below 256
      (Latin-1), and the character classes ([\w], [\s], [\d], the white
      space of [strip], case mapping) are Python's on those code points.
    - A regular expression of the source is written with a small
      list-of-successes matcher ([Rx]) that tries alternatives in the order
      of Python's backtracking engine; [re.search] takes the first success of
      the leftmost start position.
    - The catalog service is an oracle [net] giving, for the n-th outbound
      call and its request, the reply (or a raised transport error); every
      call is appended to a log.  The wall clock of the seed loop is an
      oracle as well.
    - The result cache is a [gmap string Result] threaded through the
      resolver together with the call log.
    - The worker pool is run as one of its schedules: the tasks of a batch
      run to their end one after the other, in submission order.  The pool
      fixes neither the interleaving nor the order in which results are
      gathered, so the statements about a batch speak of membership, length,
      the call log and the cache, never of the position of a result.
    - A reply of the catalog is a transport error, a body that does not
      decode, a JSON value that is not an object, or a JSON object whose
      fields have the documented types.
    - The HTTP session is taken as configured ([_get_nutritionix_session]
      returns); JSON numbers are rationals.

    The file has three parts: the embedding of the module, the vocabulary of
    the statements (predicates and closed inputs), and the facts, grouped by
    component: scorer, composer, cache, batches, refinement, brand lock. *)

From Stdlib Require Import QArith Ascii String.
From stdpp Require Import gmap strings list.

Open Scope Z_scope.

(* ===================================================================== *)
(** ** Text primitives (Python [str] methods used by the module)         *)
(* ===================================================================== *)

Module Text.

Definition code (c : ascii) : N := Ascii.N_of_ascii c.

Definition between (lo hi : N) (c : ascii) : bool :=
  ((lo <=? code c) && (code c <=? hi))%N.

Definition is_digit (c : ascii) : bool := between 48 57 c.
Definition is_upper (c : ascii) : bool := between 65 90 c.
Definition is_lower (c : ascii) : bool := between 97 122 c.
Definition is_alpha (c : ascii) : bool := is_upper c || is_lower c.

(** [[a-z0-9]] *)
Definition is_lower_alnum (c : ascii) : bool := is_lower c || is_digit c.

(** [\w] of a [str] pattern: letters, digits and the underscore, with the
    letters and numeric characters of Latin-1. *)
Definition is_word (c : ascii) : bool :=
  is_alpha c || is_digit c || (code c =? 95)%N
  || (code c =? 170)%N || between 178 179 c || (code c =? 181)%N
  || between 185 186 c || between 188 190 c
  || between 192 214 c || between 216 246 c || between 248 255 c.

(** [\s] and the characters removed by [str.strip()]: the ASCII white
    space, the separators U+001C to U+001F, U+0085 and U+00A0. *)
Definition is_space (c : ascii) : bool :=
  between 9 13 c || between 28 32 c || (code c =? 133)%N || (code c =? 160)%N.

(** [str.lower()] on one character: A-Z and the capitals U+00C0 to U+00DE
    (without the sign U+00D7). *)
Definition lower_char (c : ascii) : ascii :=
  if is_upper c || between 192 214 c || between 216 222 c
  then Ascii.ascii_of_N (code c + 32) else c.

(** The one-character cases of [str.upper()]: a-z and the small letters
    U+00E0 to U+00FE (without the sign U+00F7). *)
Definition upper_char (c : ascii) : ascii :=
  if is_lower c || between 224 246 c || between 248 254 c
  then Ascii.ascii_of_N (code c - 32) else c.

Fixpoint map_str (f : ascii -> ascii) (s : string) : string :=
  match s with
  | EmptyString => EmptyString
  | String c s' => String (f c) (map_str f s')
  end.

Fixpoint filter_str (p : ascii -> bool) (s : string) : string :=
  match s with
  | EmptyString => EmptyString
  | String c s' => if p c then String c (filter_str p s') else filter_str p s'
  end.

Fixpoint forall_str (p : ascii -> bool) (s : string) : bool :=
  match s with
  | EmptyString => true
  | String c s' => p c && forall_str p s'
  end.

(** [s.lower()] *)
Definition lower (s : string) : string := map_str lower_char s.

(** [s.upper()].  The sharp s (U+00DF) becomes "SS".  The capitals of the
    micro sign and of y with diaeresis (U+039C, U+0178) lie above code point
    255; the two characters are kept, which like their capitals differ from
    every character below 256 that [upper] produces otherwise. *)
Fixpoint upper (s : string) : string :=
  match s with
  | EmptyString => EmptyString
  | String c s' =>
      if (code c =? 223)%N then String "S" (String "S" (upper s'))
      else String (upper_char c) (upper s')
  end.

(** [s.title()] for a text of ASCII letters (the module applies it to a
    matched size word only): a letter is upper-cased after a non-letter,
    lower-cased after a letter. *)
Fixpoint title_from (prev_cased : bool) (s : string) : string :=
  match s with
  | EmptyString => EmptyString
  | String c s' =>
      String (if prev_cased then lower_char c else upper_char c)
             (title_from (is_alpha c) s')
  end.
Definition title (s : string) : string := title_from false s.

(** [s.startswith(p)] *)
Fixpoint prefix (p s : string) : bool :=
  match p, s with
  | EmptyString, _ => true
  | String _ _, EmptyString => false
  | String a p', String b s' => Ascii.eqb a b && prefix p' s'
  end.

(** [sub in s] *)
Fixpoint contains (sub s : string) : bool :=
  prefix sub s ||
  match s with
  | EmptyString => false
  | String _ s' => contains sub s'
  end.

Fixpoint lstrip (s : string) : string :=
  match s with
  | EmptyString => EmptyString
  | String c s' => if is_space c then lstrip s' else s
  end.

Fixpoint rstrip (s : string) : string :=
  match s with
  | EmptyString => EmptyString
  | String c s' =>
      match rstrip s' with
      | EmptyString => if is_space c then EmptyString else String c EmptyString
      | r => String c r
      end
  end.

(** [s.strip()] *)
Definition strip (s : string) : string := lstrip (rstrip s).

Definition nonempty (s : string) : bool :=
  match s with EmptyString => false | _ => true end.

(** Truthiness of an [Optional[str]]. *)
Definition truthy (o : option string) : bool :=
  match o with Some s => nonempty s | None => false end.

(** [o or ''] *)
Definition or_empty (o : option string) : string := default EmptyString o.

(** [any(k in s for k in ks)] *)
Definition any_in (ks : list string) (s : string) : bool :=
  existsb (fun k => contains k s) ks.

(** [w in l] for a list of strings *)
Definition mem (w : string) (l : list string) : bool :=
  existsb (String.eqb w) l.

End Text.
Import Text.

(* ===================================================================== *)
(** ** Regular expressions of the source                                 *)
(* ===================================================================== *)

Module Regex.

(** A matcher state: the character just before the cursor (for [\b]) and
    the text still ahead. *)
Definition St : Type := option ascii * string.

(** All ways to match at the cursor, in the order the backtracking engine
    tries them. *)
Definition Rx (A : Type) : Type := St -> list (A * St).

Definition ret {A} (a : A) : Rx A := fun st => [(a, st)].

Definition bind {A B} (m : Rx A) (f : A -> Rx B) : Rx B :=
  fun st => flat_map (fun r => f (fst r) (snd r)) (m st).

Definition alt {A} (m1 m2 : Rx A) : Rx A := fun st => m1 st ++ m2 st.

Definition fail {A} : Rx A := fun _ => [].

Notation "x <- m ;; k" := (bind m (fun x => k))
  (at level 100, m at next level, right associativity).
Notation "m ;;; k" := (bind m (fun _ => k))
  (at level 100, right associativity).

(** A literal string; the match value is the literal. *)
Fixpoint lit_from (p : string) (prev : option ascii) (s : string) : option St :=
  match p with
  | EmptyString => Some (prev, s)
  | String a p' =>
      match s with
      | EmptyString => None
      | String b s' =>
          if Ascii.eqb a b then lit_from p' (Some b) s' else None
      end
  end.

Definition lit (p : string) : Rx string :=
  fun st => match lit_from p (fst st) (snd st) with
            | Some st' => [(p, st')]
            | None => []
            end.

(** [p1|p2|...] over literals *)
Definition alts (ps : list string) : Rx string :=
  fun st => flat_map (fun p => lit p st) ps.

(** [\b] *)
Definition at_word_boundary (st : St) : bool :=
  xorb (match fst st with Some c => is_word c | None => false end)
       (match snd st with String c _ => is_word c | EmptyString => false end).

Definition wordb : Rx unit :=
  fun st => if at_word_boundary st then [(tt, st)] else [].

(** [\s*], greedy *)
Fixpoint spaces_from (prev : option ascii) (s : string) : list (unit * St) :=
  match s with
  | String c s' =>
      if is_space c then spaces_from (Some c) s' ++ [(tt, (prev, s))]
      else [(tt, (prev, s))]
  | EmptyString => [(tt, (prev, s))]
  end.

Definition spaces : Rx unit := fun st => spaces_from (fst st) (snd st).

(** One character of a class. *)
Definition char (p : ascii -> bool) : Rx ascii :=
  fun st => match snd st with
            | String c s' => if p c then [(c, (Some c, s'))] else []
            | EmptyString => []
            end.

(** [(\d{1,3})], greedy: three digits, else two, else one. *)
Definition digits_1_3 : Rx string :=
  d1 <- char is_digit ;;
  alt (d2 <- char is_digit ;;
       alt (d3 <- char is_digit ;; ret (String d1 (String d2 (String d3 EmptyString))))
           (ret (String d1 (String d2 EmptyString))))
      (ret (String d1 EmptyString)).

(** [re.search(p, s)] reduced to the value computed by [p]. *)
Fixpoint search_from {A} (p : Rx A) (prev : option ascii) (s : string) : option A :=
  match p (prev, s) with
  | r :: _ => Some (fst r)
  | [] =>
      match s with
      | EmptyString => None
      | String c s' => search_from p (Some c) s'
      end
  end.

Definition search {A} (p : Rx A) (s : string) : option A := search_from p None s.

(** [re.findall(r"[a-z0-9]+", s)] *)
Fixpoint findall_runs (p : ascii -> bool) (cur : string) (s : string) : list string :=
  match s with
  | EmptyString => if nonempty cur then [cur] else []
  | String c s' =>
      if p c then findall_runs p (cur +:+ String c EmptyString) s'
      else (if nonempty cur then [cur] else []) ++ findall_runs p EmptyString s'
  end.

Definition findall_lower_alnum (s : string) : list string :=
  findall_runs is_lower_alnum EmptyString s.

(** [\b(\d{1,3})\s*(?:pc|piece|pieces|ct)\b] *)
Definition re_count : Rx string :=
  wordb ;;; d <- digits_1_3 ;; spaces ;;;
  alts ["pc"; "piece"; "pieces"; "ct"] ;;; wordb ;;; ret d.

(** [\((\d{1,3})\s*pc\)] *)
Definition re_count_paren : Rx string :=
  lit "(" ;;; d <- digits_1_3 ;; spaces ;;; lit "pc" ;;; lit ")" ;;; ret d.

(** [\b(kids|small|medium|large)\b] *)
Definition re_size : Rx string :=
  wordb ;;; w <- alts ["kids"; "small"; "medium"; "large"] ;; wordb ;;; ret w.

(** [\b(\d{1,3})\s*fl\s*oz\b] *)
Definition re_ounces : Rx string :=
  wordb ;;; d <- digits_1_3 ;; spaces ;;; lit "fl" ;;; spaces ;;;
  lit "oz" ;;; wordb ;;; ret d.

(** [\b(\d{1,3})\s*(?:pc|pcs|pieces)\b] *)
Definition re_visible_count : Rx string :=
  wordb ;;; d <- digits_1_3 ;; spaces ;;;
  alts ["pc"; "pcs"; "pieces"] ;;; wordb ;;; ret d.

End Regex.

(* ===================================================================== *)
(** ** Normalisation                                                     *)
(* ===================================================================== *)

(** [_norm_raw]: lower-case, then drop every character outside [a-z0-9]. *)
Definition _norm_raw (s : option string) : string :=
  if truthy s then filter_str is_lower_alnum (lower (or_empty s)) else "".

Definition brand_aliases : list (string * string) :=
  [ ("mcdonald", "mcdonalds"); ("mcdonalds", "mcdonalds");
    ("chickfila", "chickfila"); ("chickfilamenu", "chickfila");
    ("chickfilachicken", "chickfila");
    ("wendys", "wendys"); ("wendy", "wendys");
    ("dominos", "dominos"); ("domino", "dominos");
    ("papajohns", "papajohns"); ("papajohn", "papajohns");
    ("burgerking", "burgerking"); ("bk", "burgerking");
    ("kfc", "kfc"); ("kentuckyfriedchicken", "kfc");
    ("arbys", "arbys"); ("arby", "arbys");
    ("tacobell", "tacobell"); ("pandaexpress", "pandaexpress");
    ("popeyes", "popeyes"); ("popeyeslouisianakitchen", "popeyes");
    ("subway", "subway");
    ("jackinthebox", "jackinthebox"); ("jackbox", "jackinthebox");
    ("chipotle", "chipotle"); ("chipotlemexicangrill", "chipotle") ].

Fixpoint assoc_get (k : string) (l : list (string * string)) : option string :=
  match l with
  | [] => None
  | (k', v) :: l' => if String.eqb k k' then Some v else assoc_get k l'
  end.

(** [_norm_brand]: [aliases.get(n, n)] *)
Definition _norm_brand (s : option string) : string :=
  let n := _norm_raw s in
  default n (assoc_get n brand_aliases).

(** [_is_generic_brand] *)
Definition _is_generic_brand (brand_name : option string) : bool :=
  mem (_norm_raw brand_name)
      [""; "home"; "casualdining"; "upscalerestaurant"; "restaurant"].

(* ===================================================================== *)
(** ** Data model                                                        *)
(* ===================================================================== *)

(** A search hit of the catalog (a JSON object of the Instant endpoint),
    restricted to the keys the module reads. *)
Record Cand := mkCand {
  c_food_name : option string;
  c_brand_name : option string;
  c_nix_item_id : option string;
  c_food_name_input : option string;
  c_food_name_common : option string;
  c_food_name_raw : option string
}.

(** An element of ["foods"] in a nutrient reply, restricted to the keys the
    module reads. *)
Record Food := mkFood {
  f_food_name : option string;
  f_brand_name : option string;
  nf_calories : option Q;
  nf_protein : option Q;
  nf_total_carbohydrate : option Q;
  nf_total_fat : option Q;
  f_serving_qty : option Q;
  f_serving_unit : option string;
  f_serving_weight_grams : option Q
}.

(** The dictionary built by [_extract_macro_fields]. *)
Record Macros := mkMacros {
  m_calories : option Q;
  m_protein_g : option Q;
  m_carbs_g : option Q;
  m_fat_g : option Q;
  m_serving_qty : option Q;
  m_serving_unit : option string;
  m_serving_weight_grams : option Q;
  m_brand_name : option string;
  m_food_name : option string
}.

(** One element of [itemized["items"]]. *)
Record Entry := mkEntry {
  e_item_name : option string;
  e_description : option string;
  e_category : option string;
  e_required_keywords : option (list string);
  e_forbidden_keywords : option (list string);
  e_nutritionix_query : option string;
  e_quantity : option Z;
  e_portion_detail : option string;
  e_size : option string
}.

(** The dictionary returned by [process_entry]. *)
Record Result := mkResult {
  r_item_name : option string;
  r_description : option string;
  r_quantity : Z;
  r_nutritionix_match : option Cand;
  r_macros : option Macros
}.

Inductive DrinkType := soft_drink | coffee.

(** The qualifier dictionary of [_parse_expected_from_item] and
    [_parse_candidate_modifiers]. *)
Record Qualifiers := mkQualifiers {
  q_count : option string;
  q_size : option string;
  q_ounces : option string;
  q_drink_type : option DrinkType
}.

Definition category_is (category : option string) (c : string) : bool :=
  match category with Some k => String.eqb k c | None => false end.

(** The empty JSON object [{}]. *)
Definition empty_food : Food :=
  mkFood None None None None None None None None None.

(** Truthiness of a hit: a non-empty dictionary. *)
Definition cand_nonempty (c : Cand) : bool :=
  match c with
  | mkCand None None None None None None => false
  | _ => true
  end.

(* ===================================================================== *)
(** ** Keyword expectations and qualifier extraction                     *)
(* ===================================================================== *)

(** The local helpers [inc] and [exc] of [_derive_expectations]. *)
Definition add_kw (l : list string) (w : string) : list string :=
  if mem w l then l else l ++ [w].

Definition add_kws (l : list string) (ws : list string) : list string :=
  fold_left add_kw ws l.

Record Expectations := mkExp { include : list string; exclude : list string }.

Definition exp_when (b : bool) (incs excs : list string) (e : Expectations)
  : Expectations :=
  if b then mkExp (add_kws (include e) incs) (add_kws (exclude e) excs) else e.

Definition _derive_expectations (item_name : option string)
    (category : option string)
    (required forbidden : option (list string)) : Expectations :=
  let name := lower (_norm_raw item_name) in
  let e := mkExp [] ["shake"; "mcflurry"; "smoothie"; "nugget dipping"] in
  let e := exp_when (category_is category "entree" || contains "sandwich" name)
             ["sandwich"; "mcchicken"; "chicken sandwich"; "crispy chicken"]
             ["nugget"; "tender"; "wrap"] e in
  let e := exp_when (category_is category "entree" || contains "burger" name
                     || contains "cheeseburger" name)
             ["burger"; "cheeseburger"; "big mac"; "quarter pounder"]
             ["nugget"; "wrap"] e in
  let e := exp_when (contains "nugget" name)
             ["nugget"] ["sandwich"; "burger"] e in
  let e := exp_when (category_is category "side" || contains "fries" name
                     || contains "french" name)
             ["fries"] ["hash brown"; "onion ring"] e in
  let e := exp_when (category_is category "drink"
                     || any_in ["soda"; "cola"; "coke"; "sprite"; "drink"] name)
             ["coke"; "cola"; "soft drink"; "sprite"; "dr pepper"; "fanta"]
             ["shake"; "smoothie"; "coffee"; "iced coffee"; "latte"; "mccafe"] e in
  let e := exp_when (existsb (fun k => contains k name)
                       ["sandwich"; "burger"; "fries"; "nugget"])
             [] ["shake"; "mcflurry"; "sundae"] e in
  let e := exp_when (category_is category "sauce" || contains "sauce" name
                     || contains "packet" name)
             ["sauce"; "packet"] ["dressing"; "bottle"; "grocery"] e in
  let e := match required with
           | Some ks => mkExp (add_kws (include e) (map lower ks)) (exclude e)
           | None => e
           end in
  let e := match forbidden with
           | Some ks => mkExp (include e) (add_kws (exclude e) (map lower ks))
           | None => e
           end in
  e.

Definition coffee_words : list string := ["coffee"; "iced coffee"; "latte"; "mccafe"].

(** [_parse_expected_from_item] *)
Definition _parse_expected_from_item (item_name description category : option string)
  : Qualifiers :=
  let text := lower (or_empty item_name +:+ " " +:+ or_empty description) in
  let m := match Regex.search Regex.re_count text with
           | Some d => Some d
           | None => Regex.search Regex.re_count_paren text
           end in
  let m2 := Regex.search Regex.re_size text in
  let m3 := Regex.search Regex.re_ounces text in
  let dt := if category_is category "drink"
               || (contains "drink" text || contains "cola" text
                   || contains "sprite" text || contains "soda" text)
            then Some soft_drink else None in
  let dt := if any_in coffee_words text then Some coffee else dt in
  mkQualifiers m (title <$> m2) m3 dt.

(** [_parse_candidate_modifiers] *)
Definition _parse_candidate_modifiers (food_name : option string) : Qualifiers :=
  let t := lower (or_empty food_name) in
  let m := Regex.search Regex.re_count t in
  let m2 := Regex.search Regex.re_size t in
  let m3 := Regex.search Regex.re_ounces t in
  let dt := if any_in coffee_words t then Some coffee
            else if any_in ["cola"; "coke"; "sprite"; "soft drink"; "soda"] t
                 then Some soft_drink else None in
  mkQualifiers m (title <$> m2) m3 dt.

(* ===================================================================== *)
(** ** Candidate scoring                                                 *)
(* ===================================================================== *)

(** [sum(1 for kw in kws if kw and kw in food)] *)
Definition count_found (kws : list string) (food : string) : Z :=
  Z.of_nat (length (List.filter (fun kw => nonempty kw && contains kw food) kws)).

(** The [# token overlap] block:
    [len(set(findall(_norm_raw(item_name))) & set(findall(_norm_raw(food))))]. *)
Definition token_overlap (item_name : option string) (food : string) : Z :=
  let tokens_item : gset string :=
    list_to_set (Regex.findall_lower_alnum (_norm_raw item_name)) in
  let tokens_food : gset string :=
    list_to_set (Regex.findall_lower_alnum (_norm_raw (Some food))) in
  Z.of_nat (size (tokens_item ∩ tokens_food)).

(** The [# description assist] block. *)
Definition description_assist (description : option string)
    (exp : Expectations) (food : string) : Z :=
  if truthy description then
    let desc_l := lower (or_empty description) in
    Z.of_nat (length (List.filter (fun kw => nonempty kw && contains kw desc_l
                                        && contains kw food) (include exp)))
  else 0.

Definition both_differ (a b : option string) : bool :=
  truthy a && truthy b && negb (String.eqb (or_empty a) (or_empty b)).

(** The [# Qualifier alignment] block. *)
Definition qualifier_penalty (expected mods : Qualifiers) : Z :=
  (if both_differ (q_count expected) (q_count mods) then 6 else 0)
  + (if both_differ (q_size expected) (q_size mods) then 4 else 0)
  + (if both_differ (q_ounces expected) (q_ounces mods) then 3 else 0)
  + (match q_drink_type expected, q_drink_type mods with
     | Some soft_drink, Some coffee => 12
     | _, _ => 0
     end).

(** The [# Burger-specific mismatch penalties] block. *)
Definition burger_penalty (item_name : option string) (food : string) : Z :=
  let item_l := lower (or_empty item_name) in
  (if contains "cheeseburger" item_l
      && negb (contains "double cheeseburger" item_l || contains "mcdouble" item_l)
      && any_in ["double"; "quarter"; "big mac"; "double quarter"; "quarter pounder"] food
   then 14 else 0)
  + (if (contains "mcdouble" item_l || contains "double cheeseburger" item_l)
        && (negb (contains "double" food) && negb (contains "mcdouble" food))
     then 10 else 0)
  + (if contains "whopper" item_l && negb (contains "whopper" food)
     then 12 else 0).

(** [_score_candidate] *)
Definition _score_candidate (item_name description category : option string)
    (required forbidden : option (list string)) (cand : Cand) : Z :=
  let food := lower (or_empty (c_food_name cand)) in
  let exp := _derive_expectations item_name category required forbidden in
  let score := 0 in
  let score := score + 3 * count_found (include exp) food in
  let score := score - 5 * count_found (exclude exp) food in
  let score := score + token_overlap item_name food in
  let score := score + description_assist description exp food in
  let expected := _parse_expected_from_item item_name description category in
  let mods := _parse_candidate_modifiers (c_food_name cand) in
  let score := score - qualifier_penalty expected mods in
  let score := score - burger_penalty item_name food in
  score.

(* ===================================================================== *)
(** ** Query composition                                                 *)
(* ===================================================================== *)

(** [o or d] for an [Optional[str]] *)
Definition or_else (o : option string) (d : string) : string :=
  if truthy o then or_empty o else d.

(** [_title_size_from_enum] *)
Definition _title_size_from_enum (size_enum : option string) : option string :=
  if negb (truthy size_enum) then None
  else
    let m := upper (strip (or_empty size_enum)) in
    if String.eqb m "XS" then Some "XS"
    else if String.eqb m "S" then Some "Small"
    else if String.eqb m "M" then Some "Medium"
    else if String.eqb m "L" then Some "Large"
    else if String.eqb m "XL" then Some "XL"
    else if String.eqb m "UNKNOWN" then None
    else size_enum.

(** The closure [with_brand] of [_build_nutritionix_query_for_item]. *)
Definition with_brand (brand_name : option string) (s : string) : string :=
  if truthy brand_name && negb (_is_generic_brand brand_name)
  then strip (or_empty brand_name +:+ " " +:+ s)
  else s.

(** The source's literal ["mccaf"] followed by the code points 195 and 169. *)
Definition mccafe_accented : string :=
  "mccaf" +:+ String (ascii_of_nat 195) (String (ascii_of_nat 169) EmptyString).

Definition drink_words : list string :=
  ["drink"; "cola"; "coke"; "sprite"; "soda"; "cup"].

Definition coffee_cues (text : string) : bool :=
  contains "coffee" text || contains "iced coffee" text || contains "latte" text
  || contains mccafe_accented text || contains "mccafe" text.

(** The [# Nuggets] block: the piece count used in the template. *)
Definition nugget_count (expected : Qualifiers) (desc portion : string)
  : option string :=
  let count := q_count expected in
  let count :=
    if negb (truthy count)
       && (contains "pc box" (lower portion) || contains "ct" (lower portion))
    then match Regex.search Regex.re_count (lower portion) with
         | Some d => Some d
         | None => count
         end
    else count in
  let count :=
    if negb (truthy count) && nonempty desc
    then match Regex.search Regex.re_visible_count (lower desc) with
         | Some d => Some d
         | None => count
         end
    else count in
  count.

(** The [# Drinks] block. *)
Definition drink_query (brand_name : option string) (text : string)
    (ounces size_word : option string) : string :=
  if coffee_cues text then
    strip (with_brand brand_name
             (if truthy ounces
              then "Iced Coffee " +:+ or_empty ounces +:+ " fl oz"
              else "Iced Coffee"))
  else if contains "sprite" text then
    with_brand brand_name
      (strip (if truthy ounces
              then "Sprite " +:+ or_empty ounces +:+ " fl oz"
              else or_else size_word ""))
  else if any_in ["coca-cola"; "coke"; "cola"] text then
    with_brand brand_name
      (strip (if truthy ounces
              then "Coca-Cola " +:+ or_empty ounces +:+ " fl oz"
              else or_else size_word ""))
  else
    strip (with_brand brand_name
             (if truthy ounces
              then "Coca-Cola " +:+ or_empty ounces +:+ " fl oz"
              else or_else size_word "Medium")).

(** [_build_nutritionix_query_for_item] *)
Definition _build_nutritionix_query_for_item (brand_name : option string)
    (entry : Entry) : string :=
  let name := strip (or_empty (e_item_name entry)) in
  let desc := strip (or_empty (e_description entry)) in
  let portion := strip (or_empty (e_portion_detail entry)) in
  let size_word := _title_size_from_enum (e_size entry) in
  let brand_n := _norm_raw brand_name in
  let text := lower (name +:+ " " +:+ desc +:+ " " +:+ portion) in
  let expected :=
    _parse_expected_from_item (Some name) (Some (desc +:+ " " +:+ portion))
                              (e_category entry) in
  if contains "nugget" text then
    let count := nugget_count expected desc portion in
    if String.eqb brand_n "mcdonalds" then
      if truthy count
      then with_brand brand_name ("Chicken McNuggets " +:+ or_empty count +:+ " Piece")
      else with_brand brand_name "Chicken McNuggets"
    else
      if truthy count
      then with_brand brand_name ("chicken nuggets " +:+ or_empty count +:+ " piece")
      else with_brand brand_name "chicken nuggets"
  else if contains "fries" text || contains "french fries" text then
    if String.eqb brand_n "mcdonalds" then
      if truthy size_word
      then with_brand brand_name ("World Famous Fries " +:+ or_empty size_word)
      else with_brand brand_name "World Famous Fries"
    else
      if truthy size_word
      then with_brand brand_name ("French fries " +:+ or_empty size_word)
      else with_brand brand_name "French fries"
  else if any_in drink_words text then
    drink_query brand_name text (q_ounces expected) size_word
  else if any_in ["barbecue"; "bbq"] text && contains "sauce" text then
    with_brand brand_name "Barbecue Sauce Packet"
  else if contains "ranch" text && contains "sauce" text then
    with_brand brand_name "Creamy Ranch Packet"
  else if contains "cheeseburger" text then with_brand brand_name "Cheeseburger"
  else if contains "mccrispy" text then with_brand brand_name "McCrispy"
  else if contains "carrot" text then
    if String.eqb brand_n "mcdonalds"
    then with_brand brand_name "Carrot Sticks Kids Bag"
    else with_brand brand_name "Carrot sticks"
  else with_brand brand_name name.

(** The local helper [add] of [_generate_item_queries]. *)
Definition add_query (candidates : list string) (q : string) : list string :=
  let q := strip q in
  if nonempty q && negb (mem q candidates) then candidates ++ [q] else candidates.

Definition when (b : bool) (qs : list string) : list string :=
  if b then qs else [].

(** [_generate_item_queries]: the calls of [add] in program order. *)
Definition _generate_item_queries (brand_name item_name description : option string)
  : list string :=
  let base_name := or_empty item_name in
  let desc := or_empty description in
  let b := or_empty brand_name in
  let hints := _parse_expected_from_item item_name description None in
  let name_l := lower base_name in
  let adds :=
    [ b +:+ " " +:+ base_name +:+ " " +:+ desc;
      b +:+ " " +:+ base_name;
      base_name ]
    ++ when (contains "fries" name_l || contains "french" name_l)
         ([ b +:+ " fries " +:+ desc; b +:+ " french fries" ]
          ++ when (truthy (q_size hints))
               [ b +:+ " fries " +:+ or_empty (q_size hints) ])
    ++ when (contains "soda" name_l || contains "cola" name_l || contains "coke" name_l)
         ([ b +:+ " coca cola " +:+ desc;
            b +:+ " coke " +:+ desc;
            b +:+ " soft drink " +:+ desc ]
          ++ when (truthy (q_ounces hints))
               [ b +:+ " coca cola " +:+ or_empty (q_ounces hints) +:+ " fl oz" ]
          ++ when (truthy (q_size hints))
               [ b +:+ " soft drink " +:+ or_empty (q_size hints) ])
    ++ when (contains "chicken" name_l && contains "sandwich" name_l)
         [ b +:+ " crispy chicken sandwich";
           b +:+ " chicken sandwich " +:+ desc ]
    ++ when (contains "nugget" name_l && truthy (q_count hints))
         [ b +:+ " chicken nuggets " +:+ or_empty (q_count hints) +:+ " piece";
           b +:+ " nuggets " +:+ or_empty (q_count hints) +:+ " pc" ]
    ++ when (any_in ["steak"; "sirloin"; "ribeye"; "filet"] name_l)
         [ b +:+ " steak"; "grilled steak " +:+ desc ]
    ++ when (any_in ["shrimp"; "prawn"] name_l)
         [ b +:+ " grilled shrimp"; "shrimp " +:+ desc ]
    ++ when (contains "baked potato" name_l
             || (contains "potato" name_l && contains "baked" name_l))
         [ "baked potato"; b +:+ " baked potato " +:+ desc ]
    ++ when (any_in ["sauce"; "dipping"; "dip"] name_l)
         [ "dipping sauce"; "sauce " +:+ desc ] in
  List.filter (fun q => nonempty q) (fold_left add_query adds []).

(* ===================================================================== *)
(** ** The catalog service and the resolver's effects                    *)
(* ===================================================================== *)

(** The three outbound calls. *)
Inductive Request :=
  | InstantSearch (query : string)       (* GET  /v2/search/instant *)
  | ItemById (nix_item_id : string)      (* GET  /v2/search/item *)
  | NaturalNutrients (query : string).   (* POST /v2/natural/nutrients *)

(** A decoded JSON object, restricted to the keys the module reads, each
    with the type the catalog documents (lists of hits, a list of food
    records); [j_foods = None] when the key ["foods"] is absent. *)
Record Json := mkJson {
  j_foods : option (list Food);
  j_branded : list Cand;
  j_common : list Cand
}.

(** What a call does: it raises (time-out, connection error), or it returns a
    status code and a body.  In [Reply] the body is a JSON object, or
    [None] when [resp.json()] raises; [ReplyOther] is a reply whose body
    decodes to a JSON value that is not an object (an array, a string, a
    number, a boolean, [null]), on which [.get] raises. *)
Inductive Response :=
  | Raises
  | Reply (status : Z) (body : option Json)
  | ReplyOther (status : Z).

Inductive Outcome (A : Type) :=
  | Ok (a : A)
  | Raised.
Arguments Ok {A} a.
Arguments Raised {A}.

(** The mutable state: [_CACHE_MACROS] and the log of outbound calls. *)
Record World := mkWorld {
  cache : gmap string Result;
  calls : list Request
}.

Definition M (A : Type) : Type := World -> Outcome A * World.

Definition mret {A} (a : A) : M A := fun w => (Ok a, w).

Definition mbind' {A B} (m : M A) (f : A -> M B) : M B :=
  fun w => match m w with
           | (Ok a, w') => f a w'
           | (Raised, w') => (Raised, w')
           end.

Definition raise {A} : M A := fun w => (Raised, w).

(** [try: m  except Exception: return d] *)
Definition try_or {A} (m : M A) (d : A) : M A :=
  fun w => match m w with
           | (Ok a, w') => (Ok a, w')
           | (Raised, w') => (Ok d, w')
           end.

Notation "x <- m ;; k" := (mbind' m (fun x => k))
  (at level 100, m at next level, right associativity).

(** [resp.json().get("foods", [{}])[0]] *)
Definition first_food (body : option Json) : Outcome Food :=
  match body with
  | None => Raised
  | Some j =>
      match j_foods j with
      | None => Ok empty_food
      | Some [] => Raised
      | Some (f :: _) => Ok f
      end
  end.

Definition lift {A} (o : Outcome A) : M A := fun w => (o, w).

(** [x is not None] *)
Definition is_Some_b {A} (o : option A) : bool :=
  match o with Some _ => true | None => false end.

(** [_extract_macro_fields] *)
Definition _extract_macro_fields (food : Food) : Macros :=
  mkMacros (nf_calories food) (nf_protein food) (nf_total_carbohydrate food)
           (nf_total_fat food) (f_serving_qty food) (f_serving_unit food)
           (f_serving_weight_grams food) (f_brand_name food) (f_food_name food).

Definition _NUTRITIONIX_MAX_SEEDS : nat := 8.
Definition _GOOD_SCORE_THRESHOLD : Z := 7.

(** [cal is not None and cal > 450] *)
Definition over_450 (cal : option Q) : bool :=
  match cal with
  | Some q => negb (Qle_bool q (450 # 1))
  | None => false
  end.

(** The first truthy operand of an [or] chain, else its last operand. *)
Fixpoint first_truthy (l : list (option string)) (last : string) : string :=
  match l with
  | [] => last
  | o :: l' => if truthy o then or_empty o else first_truthy l' last
  end.

(** [None if _is_generic_brand(b) else b] *)
Definition brand_hint_of (b : option string) : option string :=
  if _is_generic_brand b then None else b.

(** The brand test shared by the three nutrient paths:
    [full.get("brand_name") and _norm_brand(...) != _norm_brand(hint)]. *)
Definition brand_contradicts (full : Food) (hint : option string) : bool :=
  truthy (f_brand_name full)
  && negb (String.eqb (_norm_brand (f_brand_name full)) (_norm_brand hint)).

(** The query text of the natural-language fallback in
    [_nutritionix_nutrients_from_item]. *)
Definition nl_text (item : Cand) (brand_hint : option string) : string :=
  let base_text :=
    first_truthy [c_food_name item; c_food_name_input item;
                  c_food_name_common item; c_food_name_raw item;
                  c_food_name item] "" in
  let hint := brand_hint_of brand_hint in
  if truthy hint then strip (or_empty hint +:+ " " +:+ base_text) else base_text.

(** The closure [_reject_mismatch] of [_instant_search_best]. *)
Definition _reject_mismatch (item_name_text candidate_food : option string) : bool :=
  let it := lower (or_empty item_name_text) in
  let cf := lower (or_empty candidate_food) in
  if contains "cheeseburger" it
     && negb (contains "double" it || contains "mcdouble" it)
     && any_in ["double"; "quarter"; "big mac"; "double quarter"; "quarter pounder"] cf
  then true
  else if (contains "mcdouble" it || contains "double cheeseburger" it)
          && negb (contains "double" cf || contains "mcdouble" cf)
  then true
  else false.

Section Scoring.
Variables (item_name description category : option string)
          (required forbidden : option (list string)).

(** The closure [consider] of [_instant_search_best], on the pair
    [(best, best_score)]. *)
Definition consider (acc : option Cand * Z) (c : Cand) : option Cand * Z :=
  if _reject_mismatch item_name (Some (or_empty (c_food_name c))) then acc
  else
    let sc := _score_candidate item_name description category required forbidden c in
    if snd acc <? sc then (Some c, sc) else acc.

(** The part of [_instant_search_best] after a reply was decoded: the loop
    over [branded] (filtered by brand when the brand is specific), the early
    return on a good score, and the loop over [common], which skips every
    hit when the brand is specific. *)
Definition pick_best (brand_name : option string) (data : Json) : option Cand :=
  let bn_norm := if truthy brand_name then Some (_norm_brand brand_name) else None in
  let acc0 : option Cand * Z := (None, - 10 ^ 9) in
  let specific := truthy brand_name && negb (_is_generic_brand brand_name) in
  let same_brand (c : Cand) : bool :=
    let bnorm := _norm_brand (c_brand_name c) in
    truthy bn_norm && nonempty bnorm
    && (String.eqb bnorm (or_empty bn_norm)
        || contains (or_empty bn_norm) bnorm
        || contains bnorm (or_empty bn_norm)) in
  let acc :=
    if specific
    then fold_left (fun acc c => if same_brand c then consider acc c else acc)
                   (j_branded data) acc0
    else fold_left consider (j_branded data) acc0 in
  if specific && (_GOOD_SCORE_THRESHOLD <=? snd acc) then fst acc
  else fst (fold_left (fun acc c => if specific then acc else consider acc c)
                      (j_common data) acc).
End Scoring.

Section Resolver.

(** The catalog: the reply to the [n]-th outbound call. *)
Variable net : nat -> Request -> Response.
(** The clock of the seed loop: whether the per-item budget is spent when
    [n] outbound calls have been made. *)
Variable over_budget : nat -> bool.

(** One outbound call, logged. *)
Definition call (r : Request) : M Response :=
  fun w => (Ok (net (length (calls w)) r), mkWorld (cache w) (calls w ++ [r])).

(** [_instant_search_best] *)
Definition _instant_search_best (brand_name item_name description category : option string)
    (required forbidden : option (list string)) (nutritionix_query : string)
  : M (option Cand) :=
  resp <- call (InstantSearch nutritionix_query) ;;
  match resp with
  | Raises => mret None
  | Reply status body =>
      if negb (status =? 200) then mret None
      else match body with
           | None => mret None
           | Some data =>
               mret (pick_best item_name description category required forbidden
                               brand_name data)
           end
  | ReplyOther status =>
      (* [data.get("branded")] is read after the [try] block *)
      if negb (status =? 200) then mret None else raise
  end.

(** [_natural_search_best] *)
Definition _natural_search_best (brand_name : option string)
    (nutritionix_query : string) : M (option Macros) :=
  let hint := brand_hint_of brand_name in
  let text := strip (strip (or_empty hint) +:+ " " +:+ nutritionix_query) in
  resp <- call (NaturalNutrients text) ;;
  match resp with
  | Raises => mret None
  | Reply status body =>
      if negb (status =? 200) then mret None
      else match first_food body with
           | Raised => mret None
           | Ok full =>
               if truthy hint && brand_contradicts full hint then mret None
               else mret (Some (_extract_macro_fields full))
           end
  | ReplyOther _ => mret None
  end.

(** [_nutritionix_nutrients_from_item] *)
Definition _nutritionix_nutrients_from_item (item : Cand) (require_branded : bool)
    (brand_hint : option string) : M (option Macros) :=
  if truthy (c_nix_item_id item) then
    resp <- call (ItemById (or_empty (c_nix_item_id item))) ;;
    match resp with
    | Raises => raise
    | Reply status body =>
        if negb (status =? 200) then mret None
        else
          full <- lift (first_food body) ;;
          if require_branded && truthy brand_hint
             && brand_contradicts full brand_hint then mret None
          else
            let food_l := lower (or_empty (f_food_name full)) in
            let brand_l := _norm_brand (Some (or_empty (f_brand_name full))) in
            if String.eqb brand_l "mcdonalds" && contains "cheeseburger" food_l
               && negb (any_in ["double"; "quarter"; "big mac"] food_l)
               && over_450 (nf_calories full)
            then mret None
            else mret (Some (_extract_macro_fields full))
    | ReplyOther status => if negb (status =? 200) then mret None else raise
    end
  else
    let hint := brand_hint_of brand_hint in
    let text := nl_text item brand_hint in
    if negb (nonempty text) then mret None
    else
      resp <- call (NaturalNutrients text) ;;
      match resp with
      | Raises => raise
      | Reply status body =>
          if negb (status =? 200) then mret None
          else
            full <- lift (first_food body) ;;
            if truthy hint && brand_contradicts full hint then mret None
            else mret (Some (_extract_macro_fields full))
      | ReplyOther status => if negb (status =? 200) then mret None else raise
      end.

(** The seed loop of [_nutritionix_search_item], on
    [(best_overall, best_score_overall)]. *)
Fixpoint seed_loop (brand_name item_name description category : option string)
    (required forbidden : option (list string))
    (seeds : list string) (acc : option Cand * Z) : M (option Cand) :=
  match seeds with
  | [] => mret (fst acc)
  | query :: rest =>
      fun w =>
        if over_budget (length (calls w)) then (Ok (fst acc), w)
        else
          (candidate <- _instant_search_best brand_name item_name description
                          category required forbidden query ;;
           match candidate with
           | None => seed_loop brand_name item_name description category
                               required forbidden rest acc
           | Some c =>
               let sc := _score_candidate item_name description category
                           required forbidden c in
               let acc := if snd acc <? sc then (Some c, sc) else acc in
               if _GOOD_SCORE_THRESHOLD <=? snd acc then mret (fst acc)
               else seed_loop brand_name item_name description category
                              required forbidden rest acc
           end) w
  end.

(** [_nutritionix_search_item] *)
Definition _nutritionix_search_item (brand_name item_name description category : option string)
    (required forbidden : option (list string))
    (nutritionix_query : option string) : M (option Cand) :=
  best <- (if truthy nutritionix_query
           then _instant_search_best brand_name item_name description category
                  required forbidden (or_empty nutritionix_query)
           else mret None) ;;
  match best with
  | Some c => mret (Some c)
  | None =>
      let seeds := _generate_item_queries brand_name item_name description in
      seed_loop brand_name item_name description category required forbidden
                (take _NUTRITIONIX_MAX_SEEDS seeds) (None, - 10 ^ 9)
  end.

(** [_cache_key_for_item] *)
Definition _cache_key_for_item (brand name desc : option string) : string :=
  _norm_brand (Some (or_empty brand)) +:+ "|"
  +:+ lower (strip (or_empty name)) +:+ "|"
  +:+ lower (strip (or_empty desc)).

(** The variables the refinement loop of [process_entry] updates. *)
Record Attempt := mkAttempt {
  attempts : nat;
  a_match : option Cand;
  a_nutrients : option Macros
}.

(** The test of [while attempts < 2 and nutrients is None]. *)
Definition refine_guard (st : Attempt) : bool :=
  (attempts st <? 2)%nat && negb (is_Some_b (a_nutrients st)).

(** One pass through the body of the refinement loop. *)
Definition refine_body (brand : option string) (entry : Entry) (st : Attempt)
  : M Attempt :=
  let name := e_item_name entry in
  let desc := e_description entry in
  let nq := e_nutritionix_query entry in
  let attempts' := S (attempts st) in
  let built := _build_nutritionix_query_for_item brand entry in
  let det_q := if nonempty built then built else or_else nq (or_empty name) in
  refined <- _instant_search_best brand (Some (or_empty name)) desc
               (e_category entry) (e_required_keywords entry)
               (e_forbidden_keywords entry) det_q ;;
  st1 <- match refined with
         | Some c =>
             n <- _nutritionix_nutrients_from_item c (truthy brand) brand ;;
             mret (mkAttempt attempts' (Some c) n)
         | None => mret (mkAttempt attempts' (a_match st) (a_nutrients st))
         end ;;
  match a_nutrients st1 with
  | None =>
      n <- _natural_search_best brand det_q ;;
      mret (mkAttempt attempts' (a_match st1) n)
  | Some _ => mret st1
  end.

(** The refinement loop, unrolled at most [fuel] times. *)
Fixpoint refine_loop (fuel : nat) (brand : option string) (entry : Entry)
    (st : Attempt) : M Attempt :=
  match fuel with
  | O => mret st
  | S fuel' =>
      if refine_guard st then
        st' <- refine_body brand entry st ;;
        refine_loop fuel' brand entry st'
      else mret st
  end.

(** The [# Cheeseburger strict retry] block with its [try/except: pass]:
    an exception of the search leaves [match] and [nutrients] as they were,
    an exception after [match = refined2] leaves the new match with the old
    nutrients. *)
Definition strict_retry (brand : option string) (entry : Entry)
    (match_ : option Cand) (nutrients : option Macros)
  : M (option Cand * option Macros) :=
  let name := e_item_name entry in
  let nm_l := lower (or_empty name) in
  match nutrients with
  | Some n =>
      if String.eqb (_norm_brand (Some (or_empty brand))) "mcdonalds"
         && contains "cheeseburger" nm_l
         && negb (any_in ["double"; "quarter"; "big mac"] nm_l)
         && over_450 (m_calories n)
      then
        let strict_q := or_empty brand +:+ " Cheeseburger" in
        try_or
          (refined2 <- _instant_search_best brand (Some (or_empty name))
                         (e_description entry) (e_category entry)
                         (e_required_keywords entry) (e_forbidden_keywords entry)
                         strict_q ;;
           match refined2 with
           | Some c =>
               try_or
                 (n1 <- _nutritionix_nutrients_from_item c true brand ;;
                  match n1 with
                  | Some _ => mret (Some c, n1)
                  | None =>
                      n2 <- _natural_search_best brand strict_q ;;
                      mret (Some c, n2)
                  end)
                 (Some c, nutrients)
           | None => mret (match_, nutrients)
           end)
          (match_, nutrients)
      else mret (match_, nutrients)
  | None => mret (match_, nutrients)
  end.

(** The name back-fill at the end of [process_entry]. *)
Definition final_name (name : option string) (match_ : option Cand)
    (nutrients : option Macros) : option string :=
  let name_l := lower (strip (or_empty name)) in
  if mem name_l ["unidentified item"; "unidentified"; "unknown"]
     || contains "best guess" name_l
  then
    if truthy (match_ ≫= c_food_name) then match_ ≫= c_food_name
    else if truthy (nutrients ≫= m_food_name) then nutrients ≫= m_food_name
    else name
  else name.

(** [qty = entry.get("quantity") or 1] *)
Definition qty_of (entry : Entry) : Z :=
  match e_quantity entry with
  | Some q => if q =? 0 then 1 else q
  | None => 1
  end.

(** The closure [process_entry] of [fetch_nutritionix_macros]. *)
Definition process_entry (brand : option string) (entry : Entry) : M Result :=
  let name := e_item_name entry in
  let desc := e_description entry in
  let category := e_category entry in
  let req := e_required_keywords entry in
  let forb := e_forbidden_keywords entry in
  let nq := e_nutritionix_query entry in
  let qty := qty_of entry in
  let key := _cache_key_for_item brand name desc in
  fun w =>
    match cache w !! key with
    | Some cached => (Ok cached, w)
    | None =>
        (match_ <- _nutritionix_search_item brand name desc category req forb nq ;;
         nutrients <- match match_ with
                      | Some c =>
                          if cand_nonempty c
                          then _nutritionix_nutrients_from_item c (truthy brand) brand
                          else mret None
                      | None => mret None
                      end ;;
         nutrients <- match nutrients with
                      | None => if truthy nq
                                then _natural_search_best brand (or_empty nq)
                                else mret None
                      | Some _ => mret nutrients
                      end ;;
         st <- refine_loop 2 brand entry (mkAttempt 0 match_ nutrients) ;;
         mn <- strict_retry brand entry (a_match st) (a_nutrients st) ;;
         let result := mkResult (final_name name (fst mn) (snd mn)) desc qty
                                (fst mn) (snd mn) in
         fun w' => (Ok result, mkWorld (<[key := result]> (cache w')) (calls w'))) w
    end.

(** The argument of [fetch_nutritionix_macros]. *)
Record Itemized := mkItemized {
  restaurant_name : option string;
  items : list Entry
}.

(** The dictionary it returns (without the duration). *)
Record Batch := mkBatch {
  b_restaurant_name : option string;
  results : list Result
}.

(** The worker pool: every submitted task runs to its end, here one after
    the other in submission order (one schedule of the pool; the source
    gathers the futures with [as_completed], in no fixed order); each future
    holds a result or the exception its task raised. *)
Fixpoint run_tasks (brand : option string) (entries : list Entry) (w : World)
  : list (Outcome Result) * World :=
  match entries with
  | [] => ([], w)
  | e :: rest =>
      let '(o, w1) := process_entry brand e w in
      let '(os, w2) := run_tasks brand rest w1 in
      (o :: os, w2)
  end.

(** [results.append(fut.result())] over the futures: the first exception
    re-raised by [fut.result()] leaves the function. *)
Fixpoint gather (futures : list (Outcome Result)) : Outcome (list Result) :=
  match futures with
  | [] => Ok []
  | Ok r :: rest =>
      match gather rest with
      | Ok rs => Ok (r :: rs)
      | Raised => Raised
      end
  | Raised :: _ => Raised
  end.

(** [fetch_nutritionix_macros] *)
Definition fetch_nutritionix_macros (itemized : Itemized) : M Batch :=
  fun w =>
    let brand := restaurant_name itemized in
    let '(futures, w') := run_tasks brand (items itemized) w in
    match gather futures with
    | Ok rs => (Ok (mkBatch brand rs), w')
    | Raised => (Raised, w')
    end.

(** [_nutritionix_nl_from_name_desc] *)
Definition _nutritionix_nl_from_name_desc (brand_name item_name description : option string)
  : M (option Macros) :=
  if negb (truthy item_name) then mret None
  else
    let hint := brand_hint_of brand_name in
    let text := strip (strip (or_empty hint) +:+ " " +:+ or_empty item_name
                       +:+ " " +:+ strip (or_empty description)) in
    resp <- call (NaturalNutrients text) ;;
    match resp with
    | Raises => raise
    | Reply status body =>
        if negb (status =? 200) then mret None
        else
          full <- lift (first_food body) ;;
          if negb (_is_generic_brand brand_name)
             && brand_contradicts full brand_name then mret None
          else mret (Some (_extract_macro_fields full))
    | ReplyOther status => if negb (status =? 200) then mret None else raise
    end.

(** The keys of the dish determiner's JSON that the pipeline reads. *)
Record DishJson := mkDish {
  d_source : option string;
  d_restaurant_name : option string
}.

(** What [restaurant_calories_pipeline] returns: the error dictionary, or
    the itemized meal with its macros. *)
Inductive PipelineOut :=
  | NotRestaurant
  | Resolved (itemized : Itemized) (macros : Batch).

(** The itemizer (a language-model call), for the visual JSON and the image
    token of the run: it returns the itemized meal or raises. *)
Variable itemize : option DishJson -> Outcome Itemized.

(** [restaurant_calories_pipeline] *)
Definition restaurant_calories_pipeline (dish_json : option DishJson)
  : M PipelineOut :=
  let src := dish_json ≫= d_source in
  if negb (bool_decide (src = Some "RESTAURANT")) then mret NotRestaurant
  else
    itemized <- lift (itemize dish_json) ;;
    let dd_brand := dish_json ≫= d_restaurant_name in
    let itemized := if truthy dd_brand
                    then mkItemized dd_brand (items itemized)
                    else itemized in
    macros <- fetch_nutritionix_macros itemized ;;
    mret (Resolved itemized macros).

End Resolver.

(* ===================================================================== *)
(** ** Vocabulary of the statements: predicates and closed inputs        *)
(* ===================================================================== *)

(** A branded search hit. *)
Definition hit (name brand : string) (id : option string) : Cand :=
  mkCand (Some name) (Some brand) id None None None.

(** Two foods that contain the same keywords of a list get the same
    keyword counts. *)
Definition same_hits (kws : list string) (f1 f2 : string) : bool :=
  forallb (fun kw => Bool.eqb (contains kw f1) (contains kw f2)) kws.

(** The two candidates of the cheeseburger example. *)
Definition brandx_cheeseburger : Cand := hit "BrandX Cheeseburger" "BrandX" None.
Definition brandx_double_cheeseburger : Cand :=
  hit "BrandX Double Cheeseburger" "BrandX" None.

(** The component as the specification words it: the number of distinct
    lower-cased word tokens (maximal runs of letters and digits) that the
    item name and the candidate name share. *)
Definition word_tokens (s : string) : gset string :=
  list_to_set (Regex.findall_lower_alnum (lower s)).

(** The number of word tokens two names share. *)
Definition shared_word_tokens (item_name food_name : string) : Z :=
  Z.of_nat (size (word_tokens item_name ∩ word_tokens food_name)).

(** The cache key of an item. *)
Definition key_of (brand : option string) (entry : Entry) : string :=
  _cache_key_for_item brand (e_item_name entry) (e_description entry).

(** A fresh process: empty cache, no call made. *)
Definition world0 : World := mkWorld ∅ [].

(** A clock that never exhausts the seed budget. *)
Definition never_over_budget : nat -> bool := fun _ => false.

(** A nutrient record named [name] of brand [brand] with [kcal] calories. *)
Definition record (name : string) (brand : option string) (kcal : Z) : Food :=
  mkFood (Some name) brand (Some (kcal # 1)) None None None None None None.

(** A catalog of the brand "BrandX": a text search returns one branded hit
    named after the query, with the query as its identifier; both nutrient
    endpoints return a 300 kcal record.  Fetching the record of an
    identifier that mentions "Apple Pie" times out. *)
Definition brandx_catalog : nat -> Request -> Response :=
  fun _ r =>
    match r with
    | InstantSearch q =>
        Reply 200 (Some (mkJson None [hit q "BrandX" (Some q)] []))
    | ItemById id =>
        if contains "Apple Pie" id then Raises
        else Reply 200 (Some (mkJson (Some [record id (Some "BrandX") 300]) [] []))
    | NaturalNutrients q =>
        Reply 200 (Some (mkJson (Some [record q (Some "BrandX") 300]) [] []))
    end.

(** The same catalog when every call that mentions "Apple Pie" fails. *)
Definition brandx_catalog_pie_down : nat -> Request -> Response :=
  fun n r =>
    let q := match r with
             | InstantSearch q | ItemById q | NaturalNutrients q => q
             end in
    if contains "Apple Pie" q then Raises else brandx_catalog n r.

(** An item as the itemizer emits it, with its per-item query. *)
Definition order (name : string) (qty : Z) : Entry :=
  mkEntry (Some name) None None None None (Some ("BrandX " +:+ name))
          (Some qty) None None.

(** The five-item batch of the specification's third example. *)
Definition five_items : Itemized :=
  mkItemized (Some "BrandX")
    [order "Cheeseburger" 1; order "Fries" 1; order "Apple Pie" 1;
     order "Chicken Nuggets" 1; order "Cola" 1].

(** The results reported with [macros = None]. *)
Definition unresolved (rs : list Result) : list Result :=
  List.filter (fun r => negb (is_Some_b (r_macros r))) rs.

(** A resolved item and a cache that holds it. *)
Definition fries_resolved : Result :=
  mkResult (Some "Fries") None 1 (Some (hit "BrandX Fries" "BrandX" None)) None.

Definition fries_cached : World :=
  mkWorld (<[key_of (Some "BrandX") (order "Fries" 1) := fries_resolved]> ∅) [].

(** A record is brand-locked when its brand, if it names one, normalises to
    the requested brand. *)
Definition brand_locked (brand : option string) (m : Macros) : Prop :=
  truthy (m_brand_name m) = true ->
  _norm_brand (m_brand_name m) = _norm_brand brand.

(** The same for an optional record: [None] is locked. *)
Definition locked_opt (brand : option string) (o : option Macros) : Prop :=
  forall m, o = Some m -> brand_locked brand m.

(** A catalog without branded data: text searches find nothing, and every
    nutrient reply is a record that names no brand. *)
Definition unbranded_catalog : nat -> Request -> Response :=
  fun _ r =>
    match r with
    | InstantSearch _ => Reply 200 (Some (mkJson None [] []))
    | ItemById q | NaturalNutrients q =>
        Reply 200 (Some (mkJson (Some [record q None 300]) [] []))
    end.

(** The Instant endpoint is the text search. *)
Definition is_text_search (r : Request) : bool :=
  match r with InstantSearch _ => true | _ => false end.

(** Number of text searches (Instant calls) in a stretch of the log. *)
Definition text_searches (l : list Request) : nat :=
  length (List.filter is_text_search l).

(** [w'] is [w] with the calls [l] appended and the cache untouched. *)
Definition extends_by (w w' : World) (l : list Request) : Prop :=
  w' = mkWorld (cache w) (calls w ++ l).

(** A catalog that is down: every call raises. *)
Definition dead_catalog : nat -> Request -> Response := fun _ _ => Raises.

(** What [(\d{1,3})] captures: one to three digits. *)
Definition digit_run (o : string) : Prop :=
  exists d rest, o = String d rest /\ forall_str is_digit o = true.

(** [lacks k s]: the character [k] does not occur in [s]. *)
Definition lacks (k : ascii) (s : string) : bool :=
  forall_str (fun x => negb (Ascii.eqb x k)) s.

(** The text, the qualifiers and the size word that
    [_build_nutritionix_query_for_item] computes from an item. *)
Definition item_text (entry : Entry) : string :=
  lower (strip (or_empty (e_item_name entry)) +:+ " "
         +:+ strip (or_empty (e_description entry)) +:+ " "
         +:+ strip (or_empty (e_portion_detail entry))).

(** The qualifiers the composer extracts from the item. *)
Definition item_expected (entry : Entry) : Qualifiers :=
  _parse_expected_from_item
    (Some (strip (or_empty (e_item_name entry))))
    (Some (strip (or_empty (e_description entry)) +:+ " "
           +:+ strip (or_empty (e_portion_detail entry))))
    (e_category entry).

(** The item reaches the [# Drinks] block of the composer. *)
Definition drink_classified (entry : Entry) : bool :=
  negb (contains "nugget" (item_text entry))
  && negb (contains "fries" (item_text entry)
           || contains "french fries" (item_text entry))
  && any_in drink_words (item_text entry).

(** The values of the [size] field in the data model. *)
Definition size_enum_values : list (option string) :=
  [None; Some "XS"; Some "S"; Some "M"; Some "L"; Some "XL"; Some "UNKNOWN"].

(** The name that the [# Drinks] block hands to [with_brand]. *)
Definition drink_name (text : string) (ounces size_word : option string) : string :=
  if coffee_cues text then
    if truthy ounces then "Iced Coffee " +:+ or_empty ounces +:+ " fl oz"
    else "Iced Coffee"
  else if contains "sprite" text then
    if truthy ounces then "Sprite " +:+ or_empty ounces +:+ " fl oz"
    else or_else size_word ""
  else if any_in ["coca-cola"; "coke"; "cola"] text then
    if truthy ounces then "Coca-Cola " +:+ or_empty ounces +:+ " fl oz"
    else or_else size_word ""
  else
    if truthy ounces then "Coca-Cola " +:+ or_empty ounces +:+ " fl oz"
    else or_else size_word "Medium".

(** The two ways the block combines brand, name and [strip()]. *)
Definition shaped (brand : option string) (q nm : string) : Prop :=
  q = strip (with_brand brand nm) \/ q = with_brand brand (strip nm).

(** The size words [_title_size_from_enum] gives for those values. *)
Definition size_words : list (option string) :=
  [None; Some "XS"; Some "Small"; Some "Medium"; Some "Large"; Some "XL"].

(** A large iced coffee in a cup, no volume printed. *)
Definition iced_coffee_cup : Entry :=
  mkEntry (Some "Iced Coffee cup") None (Some "drink") None None None (Some 1)
          None (Some "L").

(** A large Sprite with its volume printed on the cup. *)
Definition large_sprite : Entry :=
  mkEntry (Some "Sprite") (Some "21 fl oz cup") (Some "drink") None None None
          (Some 1) None (Some "L").

(** [bounded m s k]: from any world, [m] only appends calls to the log, at
    most [s] text searches among at most [k] calls, and leaves the cache as
    it is. *)
Definition bounded {A} (m : M A) (s k : nat) : Prop :=
  forall w, exists l,
    extends_by w (snd (m w)) l
    /\ (text_searches l <= s)%nat /\ (length l <= k)%nat.

(** [total m]: [m] never raises. *)
Definition total {A} (m : M A) : Prop :=
  forall w, exists a, fst (m w) = Ok a.

(** [stores key m s k]: like [bounded], except that a normal end writes the
    returned item into the cache under [key]. *)
Definition stores (key : string) (m : M Result) (s k : nat) : Prop :=
  forall w, exists l,
    calls (snd (m w)) = calls w ++ l
    /\ (text_searches l <= s)%nat /\ (length l <= k)%nat
    /\ match fst (m w) with
       | Ok r => cache (snd (m w)) = <[key := r]> (cache w)
       | Raised => cache (snd (m w)) = cache w
       end.

(** One to three decimal digits. *)
Definition short_digits (o : string) : Prop :=
  forall_str is_digit o = true /\ (1 <= String.length o <= 3)%nat.

(** The size words of the qualifier extractor. *)
Definition size_names : list string := ["Kids"; "Small"; "Medium"; "Large"].

(** The qualifiers are well formed: counts and volumes are short digit runs,
    the size is one of the four size words. *)
Definition qualifiers_well_formed (q : Qualifiers) : Prop :=
  (forall o, q_count q = Some o -> short_digits o)
  /\ (forall o, q_ounces q = Some o -> short_digits o)
  /\ (forall z, q_size q = Some z -> In z size_names).

(** The keywords every expectation excludes. *)
Definition base_excludes : list string :=
  ["shake"; "mcflurry"; "smoothie"; "nugget dipping"].

(** What every step of [_derive_expectations] keeps. *)
Definition expectations_ok (include0 exclude0 : list string) (e : Expectations) : Prop :=
  List.NoDup (include e) /\ List.NoDup (exclude e)
  /\ (forall x, In x include0 -> In x (include e))
  /\ (forall x, In x exclude0 -> In x (exclude e)).

(** The brand filter of the branded loop of [_instant_search_best]: the
    candidate's normalised brand is not empty and equals, contains or is
    contained in the requested one. *)
Definition brand_admits (brand_name : option string) (c : Cand) : bool :=
  let bn := _norm_brand brand_name in
  let bnorm := _norm_brand (c_brand_name c) in
  nonempty bn && nonempty bnorm
  && (String.eqb bnorm bn || contains bn bnorm || contains bnorm bn).

(** The hits [_instant_search_best] scores: for a brand that names a
    restaurant the branded hits of an admitted brand, otherwise every
    branded and common hit; in both cases without the hard rejects. *)
Definition eligible (item_name brand_name : option string) (data : Json) : list Cand :=
  List.filter
    (fun c => negb (_reject_mismatch item_name (Some (or_empty (c_food_name c)))))
    (if truthy brand_name && negb (_is_generic_brand brand_name)
     then List.filter (brand_admits brand_name) (j_branded data)
     else j_branded data ++ j_common data).

(** [(best, best_score)] is a best pick among the hits of [l] that pass [p]. *)
Definition is_best (sc : Cand -> Z) (p : Cand -> bool) (l : list Cand)
    (acc : option Cand * Z) : Prop :=
  (forall c, In c l -> p c = true -> sc c <= snd acc)
  /\ match fst acc with
     | Some c => In c l /\ p c = true /\ snd acc = sc c /\ - 10 ^ 9 < sc c
     | None => snd acc = - 10 ^ 9
     end.

(** A reply a search helper cannot use: the call raised, the status is not
    200, or the body does not decode. *)
Definition unusable (r : Response) : bool :=
  match r with
  | Raises => true
  | Reply status body => negb (status =? 200) || negb (is_Some_b body)
  | ReplyOther status => negb (status =? 200)
  end.

(** A 200 reply whose body is not a JSON object. *)
Definition garbled (r : Response) : bool :=
  match r with
  | ReplyOther status => status =? 200
  | _ => false
  end.

(** A reply that makes a nutrient fetch raise: the call itself raised, or a
    200 reply has no first food to read. *)
Definition breaks (r : Response) : bool :=
  match r with
  | Raises => true
  | Reply status body =>
      (status =? 200)
      && match first_food body with Ok _ => false | Raised => true end
  | ReplyOther status => status =? 200
  end.

(** The call [_nutritionix_nutrients_from_item] makes for a hit: by
    identifier when the hit has one, else by its text, else none. *)
Definition fetch_request (item : Cand) (brand_hint : option string) : option Request :=
  if truthy (c_nix_item_id item) then Some (ItemById (or_empty (c_nix_item_id item)))
  else if nonempty (nl_text item brand_hint)
       then Some (NaturalNutrients (nl_text item brand_hint))
       else None.

(** A plain cheeseburger record of McDonald's above 450 kcal. *)
Definition oversized_cheeseburger (full : Food) : bool :=
  String.eqb (_norm_brand (Some (or_empty (f_brand_name full)))) "mcdonalds"
  && contains "cheeseburger" (lower (or_empty (f_food_name full)))
  && negb (any_in ["double"; "quarter"; "big mac"] (lower (or_empty (f_food_name full))))
  && over_450 (nf_calories full).

(** The condition under which the strict retry of [process_entry] fires:
    the brand is McDonald's, the item a plain cheeseburger, the record found
    so far above 450 kcal. *)
Definition strict_retry_fires (brand : option string) (entry : Entry)
    (nutrients : option Macros) : bool :=
  match nutrients with
  | Some n =>
      String.eqb (_norm_brand (Some (or_empty brand))) "mcdonalds"
      && contains "cheeseburger" (lower (or_empty (e_item_name entry)))
      && negb (any_in ["double"; "quarter"; "big mac"]
                 (lower (or_empty (e_item_name entry))))
      && over_450 (m_calories n)
  | None => false
  end.

(** The text searches of a list of queries, in order. *)
Definition searches (qs : list string) : list Request := map InstantSearch qs.

(** A catalog that never makes the resolver raise: no text search is
    answered 200 with a body that is not an object, and no call to a
    nutrient endpoint breaks a fetch. *)
Definition dependable (net : nat -> Request -> Response) : Prop :=
  forall n r,
    (if is_text_search r then garbled (net n r) else breaks (net n r)) = false.

(** The item names [process_entry] replaces by the name of what it found. *)
Definition placeholder_name (name : option string) : bool :=
  mem (lower (strip (or_empty name))) ["unidentified item"; "unidentified"; "unknown"]
  || contains "best guess" (lower (strip (or_empty name))).

(** A placeholder item answered by the unbranded catalog. *)
Definition unknown_item : Entry :=
  mkEntry (Some "Unknown") None None None None (Some "fries") (Some 2) None None.

(** A text with a character that is not white space. *)
Definition visible (x : string) : bool := negb (forall_str is_space x).

(** The query of a refinement pass: the composed query, or when that is
    empty the item's own query, or its name. *)
Definition det_q (brand : option string) (entry : Entry) : string :=
  let built := _build_nutritionix_query_for_item brand entry in
  if nonempty built then built
  else or_else (e_nutritionix_query entry) (or_empty (e_item_name entry)).

(** The text [_natural_search_best] sends for a query. *)
Definition natural_text (brand : option string) (q : string) : string :=
  strip (strip (or_empty (brand_hint_of brand)) +:+ " " +:+ q).

(** The calls of one refinement pass: a text search of the rebuilt query,
    then at most one nutrient fetch (for a hit of that search), then at most
    one free-text lookup of the same query. *)
Definition refinement_pass (brand : option string) (entry : Entry)
    (l : list Request) : Prop :=
  exists fetch free,
    l = InstantSearch (det_q brand entry) :: fetch ++ free
    /\ (fetch = [] \/ exists hit r, fetch_request hit brand = Some r /\ fetch = [r])
    /\ (free = []
        \/ free = [NaturalNutrients (natural_text brand (det_q brand entry))]).

(** The calls of the strict cheeseburger retry: none, or a text search of
    "<brand> Cheeseburger" followed by at most two nutrient calls. *)
Definition strict_retry_calls (brand : option string) (l : list Request) : Prop :=
  l = []
  \/ exists rest,
       l = InstantSearch (or_empty brand +:+ " Cheeseburger") :: rest
       /\ (length rest <= 2)%nat /\ text_searches rest = 0%nat.

(** A plain cheeseburger, with no query of its own. *)
Definition plain_cheeseburger : Entry :=
  mkEntry (Some "Cheeseburger") None None None None None (Some 1) None None.

(** A catalog that finds nothing at first: its text searches return no hit
    and its nutrient endpoints answer 404, except that the sixth call
    returns a 500 kcal record of McDonald's and the seventh call a branded
    hit. *)
Definition late_record_catalog : nat -> Request -> Response :=
  fun n r =>
    match r with
    | InstantSearch q =>
        if (n =? 6)%nat
        then Reply 200 (Some (mkJson None [hit q "McDonald's" (Some "id-1")] []))
        else Reply 200 (Some (mkJson None [] []))
    | ItemById _ => Reply 404 None
    | NaturalNutrients q =>
        if (n =? 5)%nat
        then Reply 200 (Some (mkJson (Some [record q (Some "McDonald's") 500]) [] []))
        else Reply 404 None
    end.

(** Every record in the cache is brand-locked. *)
Definition cache_locked (brand : option string) (w : World) : Prop :=
  forall k r, cache w !! k = Some r -> locked_opt brand (r_macros r).

(* ===================================================================== *)
(** ** Examples of the specification, evaluated on the code              *)
(* ===================================================================== *)

Example norm_brand_alias : _norm_brand (Some "McDonald's") = "mcdonalds".
Proof. reflexivity. Qed.

Example count_of_box_text :
  Regex.search Regex.re_count "chicken nuggets (6 pc box)" = Some "6".
Proof. reflexivity. Qed.

Example count_needs_boundary : Regex.search Regex.re_count "1234 pc" = None.
Proof. reflexivity. Qed.

Example score_plain_cheeseburger :
  _score_candidate (Some "Cheeseburger") None None None None
    (hit "BrandX Cheeseburger" "BrandX" None) = 6.
Proof. vm_compute. reflexivity. Qed.

Example score_double_cheeseburger :
  _score_candidate (Some "Cheeseburger") None None None None
    (hit "BrandX Double Cheeseburger" "BrandX" None) = -8.
Proof. vm_compute. reflexivity. Qed.

(* ===================================================================== *)
(** ** Candidate scorer: properties                                      *)
(* ===================================================================== *)

Section ScorerFacts.

Lemma filter_same_hits (g : string -> bool) kws f1 f2 :
  same_hits kws f1 f2 = true ->
  List.filter (fun kw => g kw && contains kw f1) kws
  = List.filter (fun kw => g kw && contains kw f2) kws.
Proof.
  induction kws as [|kw kws IH]; simpl; [reflexivity|].
  intros [Hk Hr]%andb_prop. apply Bool.eqb_prop in Hk.
  rewrite Hk, (IH Hr). reflexivity.
Qed.

Lemma count_found_same kws f1 f2 :
  same_hits kws f1 f2 = true -> count_found kws f1 = count_found kws f2.
Proof.
  intros H. unfold count_found.
  now rewrite (filter_same_hits nonempty kws f1 f2 H).
Qed.

Lemma description_assist_same d inc exc1 exc2 f1 f2 :
  same_hits inc f1 f2 = true ->
  description_assist d (mkExp inc exc1) f1
  = description_assist d (mkExp inc exc2) f2.
Proof.
  intros H. unfold description_assist. destruct (truthy d); [|reflexivity].
  cbn [include].
  now rewrite (filter_same_hits
                 (fun kw => nonempty kw && contains kw (lower (or_empty d)))
                 inc f1 f2 H).
Qed.

Lemma qualifier_penalty_bare expected mods :
  q_count mods = None -> q_size mods = None -> q_ounces mods = None ->
  q_drink_type mods = None -> qualifier_penalty expected mods = 0.
Proof.
  intros Hc Hs Ho Hd. unfold qualifier_penalty, both_differ.
  rewrite Hc, Hs, Ho, Hd. cbn [truthy].
  rewrite !andb_false_r. cbn.
  destruct (q_drink_type expected) as [[]|]; reflexivity.
Qed.

End ScorerFacts.

(** Whatever the description and the category of a "Cheeseburger" item,
    the double is scored exactly 14 below the plain candidate: both foods
    contain the same keywords, neither carries a qualifier, and only the
    double meets the upsize guard. *)
Lemma cheeseburger_gap (description category : option string) :
  _score_candidate (Some "Cheeseburger") description category None None
    brandx_cheeseburger
  = _score_candidate (Some "Cheeseburger") description category None None
      brandx_double_cheeseburger + 14.
Proof.
  unfold _score_candidate.
  set (exp := _derive_expectations _ _ _ _).
  set (f1 := lower (or_empty (c_food_name brandx_cheeseburger))).
  set (f2 := lower (or_empty (c_food_name brandx_double_cheeseburger))).
  assert (Hinc : same_hits (include exp) f1 f2 = true
                 /\ same_hits (exclude exp) f1 f2 = true).
  { subst exp. unfold _derive_expectations, category_is.
    destruct category as [k|];
      [destruct (String.eqb k "entree"), (String.eqb k "side"),
         (String.eqb k "drink"), (String.eqb k "sauce")|];
      vm_compute; split; reflexivity. }
  destruct Hinc as [Hi He].
  rewrite (count_found_same _ _ _ Hi), (count_found_same _ _ _ He).
  assert (Hd : description_assist description exp f1
               = description_assist description exp f2).
  { destruct exp as [inc exc]. now apply description_assist_same. }
  rewrite Hd.
  rewrite !qualifier_penalty_bare by reflexivity.
  replace (token_overlap (Some "Cheeseburger") f1) with 0 by (vm_compute; reflexivity).
  replace (token_overlap (Some "Cheeseburger") f2) with 0 by (vm_compute; reflexivity).
  replace (burger_penalty (Some "Cheeseburger") f1) with 0 by (vm_compute; reflexivity).
  replace (burger_penalty (Some "Cheeseburger") f2) with 14 by (vm_compute; reflexivity).
  lia.
Qed.

(** C9: for the item "Cheeseburger" of brand "BrandX", the scorer ranks the
    candidate "BrandX Cheeseburger" strictly above "BrandX Double
    Cheeseburger" (for every description and category of the item, with no
    caller keywords); the gap is the upsize penalty of 14. *)
Theorem C9_cheeseburger_ranked_above_double (description category : option string) :
  _score_candidate (Some "Cheeseburger") description category None None
    brandx_double_cheeseburger
  < _score_candidate (Some "Cheeseburger") description category None None
      brandx_cheeseburger
  /\ burger_penalty (Some "Cheeseburger")
       (lower (or_empty (c_food_name brandx_double_cheeseburger))) = 14
  /\ burger_penalty (Some "Cheeseburger")
       (lower (or_empty (c_food_name brandx_cheeseburger))) = 0.
Proof.
  split; [rewrite (cheeseburger_gap description category); lia|].
  split; vm_compute; reflexivity.
Qed.

(* ===================================================================== *)
(** ** Query composer and qualifier extractor: the nugget example        *)
(* ===================================================================== *)

(** C10: for the item "Chicken Nuggets" described as "(6 pc box)" under the
    brand "BrandX", the qualifier extractor returns the count "6" and the
    canonical query is the generic nugget template with that count behind
    the brand name, whatever the other fields of the item. *)
Theorem C10_nuggets_six_piece (category : option string)
    (required forbidden : option (list string)) (nq : option string)
    (quantity : option Z) (size : option string) :
  let entry := mkEntry (Some "Chicken Nuggets") (Some "(6 pc box)") category
                       required forbidden nq quantity None size in
  q_count (_parse_expected_from_item (e_item_name entry) (e_description entry)
             (e_category entry)) = Some "6"
  /\ _build_nutritionix_query_for_item (Some "BrandX") entry
     = with_brand (Some "BrandX") ("chicken nuggets " +:+ "6" +:+ " piece")
  /\ _build_nutritionix_query_for_item (Some "BrandX") entry
     = "BrandX chicken nuggets 6 piece".
Proof.
  cbv zeta. split; [reflexivity|]. split; reflexivity.
Qed.

(* ===================================================================== *)
(** ** The token-overlap component of the score                          *)
(* ===================================================================== *)

Lemma append_cons (c : ascii) (a b : string) :
  String c a +:+ b = String c (a +:+ b).
Proof. reflexivity. Qed.

Lemma append_empty_r (s : string) : s +:+ "" = s.
Proof.
  induction s as [|c s' IH]; [reflexivity | now rewrite append_cons, IH].
Qed.

Lemma append_assoc (a b c : string) : (a +:+ b) +:+ c = a +:+ (b +:+ c).
Proof.
  induction a as [|x a' IH]; [reflexivity | now rewrite !append_cons, IH].
Qed.

Lemma forall_str_filter (p : ascii -> bool) (s : string) :
  forall_str p (filter_str p s) = true.
Proof.
  induction s as [|c s IH]; simpl; [reflexivity|].
  destruct (p c) eqn:Hc; simpl; [now rewrite Hc|exact IH].
Qed.

Lemma forall_str_norm_raw (s : option string) :
  forall_str is_lower_alnum (_norm_raw s) = true.
Proof.
  unfold _norm_raw. destruct (truthy s); [apply forall_str_filter | reflexivity].
Qed.

(** On a text without separators the tokenizer finds one run at most. *)
Lemma findall_runs_single (p : ascii -> bool) (s cur : string) :
  forall_str p s = true ->
  Regex.findall_runs p cur s
  = if nonempty (cur +:+ s) then [cur +:+ s] else [].
Proof.
  revert cur. induction s as [|c s IH]; intros cur H; simpl in *.
  - now rewrite append_empty_r.
  - apply andb_prop in H as [Hc Hs]. rewrite Hc, (IH _ Hs), append_assoc.
    reflexivity.
Qed.

Lemma findall_norm_raw (s : option string) :
  Regex.findall_lower_alnum (_norm_raw s)
  = if nonempty (_norm_raw s) then [_norm_raw s] else [].
Proof.
  unfold Regex.findall_lower_alnum.
  now rewrite findall_runs_single by apply forall_str_norm_raw.
Qed.

Lemma tokens_of_run (b : bool) (s : string) :
  (list_to_set (if b then [s] else []) : gset string)
  = if b then {[s]} else ∅.
Proof. destruct b; [apply union_empty_r_L | reflexivity]. Qed.

Lemma singletons_apart (s1 s2 : string) :
  s1 <> s2 -> ({[s1]} ∩ {[s2]} : gset string) = ∅.
Proof.
  intros N. apply set_eq. intros x.
  rewrite elem_of_intersection, !elem_of_singleton, elem_of_empty.
  intuition congruence.
Qed.

Lemma size_common_run (b1 b2 : bool) (s1 s2 : string) :
  size ((if b1 then {[s1]} else ∅) ∩ (if b2 then {[s2]} else ∅) : gset string)
  = if b1 && b2 && String.eqb s1 s2 then 1%nat else 0%nat.
Proof.
  destruct b1, b2; cbn [andb];
    rewrite ?intersection_empty_r_L, ?intersection_empty_l_L, ?size_empty;
    try reflexivity.
  destruct (String.eqb_spec s1 s2) as [E|N].
  - subst s2. now rewrite intersection_idemp_L, size_singleton.
  - now rewrite singletons_apart, size_empty.
Qed.

(** What the [# token overlap] block computes: since [_norm_raw] has already
    removed the separators, it is 1 when the two names are equal after
    normalisation (and not empty), and 0 otherwise. *)
Lemma token_overlap_is_equality_test (item_name : option string) (food : string) :
  token_overlap item_name food
  = if nonempty (_norm_raw item_name)
       && String.eqb (_norm_raw item_name) (_norm_raw (Some food))
    then 1 else 0.
Proof.
  unfold token_overlap. rewrite !findall_norm_raw, !tokens_of_run, size_common_run.
  destruct (String.eqb_spec (_norm_raw item_name) (_norm_raw (Some food))) as [E|N].
  - rewrite <- E. now destruct (nonempty (_norm_raw item_name)).
  - now rewrite !andb_false_r.
Qed.

(** C7, on the code: the item "Cheeseburger" and the candidate food
    "BrandX Cheeseburger" share the word token "cheeseburger", yet the
    token-overlap component of the score is 0, not 1. *)
Theorem C7_token_overlap_misses_shared_word :
  shared_word_tokens "Cheeseburger" "BrandX Cheeseburger" = 1
  /\ token_overlap (Some "Cheeseburger") (lower "BrandX Cheeseburger") = 0.
Proof. split; vm_compute; reflexivity. Qed.

(* ===================================================================== *)
(** ** Result cache                                                      *)
(* ===================================================================== *)

Section CacheFacts.
Variable net : nat -> Request -> Response.
Variable over_budget : nat -> bool.

(** A hit returns the stored value and touches neither the cache nor the
    call log. *)
Lemma process_entry_hit brand entry w cached :
  cache w !! key_of brand entry = Some cached ->
  process_entry net over_budget brand entry w = (Ok cached, w).
Proof.
  intros H. unfold process_entry. cbv zeta.
  unfold key_of in H. now rewrite H.
Qed.

(** A miss that ends normally stores exactly the value it returns, and
    that value carries the quantity of the entry itself. *)
Lemma process_entry_miss brand entry w r w' :
  cache w !! key_of brand entry = None ->
  process_entry net over_budget brand entry w = (Ok r, w') ->
  cache w' !! key_of brand entry = Some r
  /\ r_quantity r = qty_of entry
  /\ r_description r = e_description entry.
Proof.
  intros Hmiss. unfold process_entry. cbv zeta.
  unfold key_of in *. rewrite Hmiss. unfold mbind'.
  repeat match goal with
         | |- context [match ?m w with _ => _ end] => destruct (m w) as [[?|] ?]
         | |- context [match ?m ?x with (_, _) => _ end] =>
             destruct (m x) as [[?|] ?]
         end; try discriminate.
  intros [= <- <-]. cbn [cache r_quantity r_description].
  now rewrite lookup_insert_eq.
Qed.

Lemma process_entry_stores brand entry w r w' :
  process_entry net over_budget brand entry w = (Ok r, w') ->
  cache w' !! key_of brand entry = Some r.
Proof.
  destruct (cache w !! key_of brand entry) as [c|] eqn:Hk.
  - rewrite (process_entry_hit _ _ _ _ Hk). now intros [= <- <-].
  - intros H. now destruct (process_entry_miss _ _ _ _ _ Hk H).
Qed.

(** On a miss the quantity of the input item is passed through. *)
Lemma quantity_passes_on_miss brand entry w r w' (q : Z) :
  e_quantity entry = Some q -> 1 <= q ->
  cache w !! key_of brand entry = None ->
  process_entry net over_budget brand entry w = (Ok r, w') ->
  r_quantity r = q.
Proof.
  intros Hq Hpos Hmiss H.
  destruct (process_entry_miss _ _ _ _ _ Hmiss H) as (_ & -> & _).
  unfold qty_of. rewrite Hq. destruct (Z.eqb_spec q 0); [lia | reflexivity].
Qed.

End CacheFacts.

(** C5: when the key of an item is already in the result cache, resolving
    the item returns the stored resolved item itself and leaves the world as
    it was: no request is added to the log of outbound calls (the lookup
    precedes every call) and the cache is unchanged. *)
Theorem C5_cached_key_answers_without_calls
    (net : nat -> Request -> Response) (over_budget : nat -> bool)
    (brand : option string) (entry : Entry) (w : World) (cached : Result)
    (Hhit : cache w !! key_of brand entry = Some cached) :
  process_entry net over_budget brand entry w = (Ok cached, w)
  /\ calls (snd (process_entry net over_budget brand entry w)) = calls w.
Proof.
  rewrite (process_entry_hit net over_budget brand entry w cached Hhit).
  split; reflexivity.
Qed.

(** Resolving an item a second time, whatever the catalog then answers,
    gives the first result again and issues no call. *)
Corollary resolve_again_is_idempotent
    (net net' : nat -> Request -> Response) (ob ob' : nat -> bool)
    (brand : option string) (entry : Entry) (w w' : World) (r : Result) :
  process_entry net ob brand entry w = (Ok r, w') ->
  process_entry net' ob' brand entry w' = (Ok r, w').
Proof.
  intros H. apply process_entry_hit.
  exact (process_entry_stores net ob brand entry w r w' H).
Qed.

(* ===================================================================== *)
(** ** Batches: exceptions and quantities, evaluated                    *)
(* ===================================================================== *)

(** Example 3 of the specification, in the reading where all calls of the
    third item fail: five results, one of them unresolved, nothing raised. *)
Example five_items_one_down :
  match fst (fetch_nutritionix_macros brandx_catalog_pie_down never_over_budget
               five_items world0) with
  | Ok b => length (results b) = 5%nat /\ length (unresolved (results b)) = 1%nat
  | Raised => False
  end.
Proof. vm_compute. split; reflexivity. Qed.

(** C3, on the code: in a five-item batch whose third item is found by the
    text search but whose nutrient fetch by identifier times out, the time-out
    leaves [process_entry], is re-raised by [fut.result()], and the batch call
    raises instead of returning five results. *)
Theorem C3_fetch_timeout_aborts_batch :
  fst (process_entry brandx_catalog never_over_budget (Some "BrandX")
         (order "Apple Pie" 1) world0) = Raised
  /\ fst (fetch_nutritionix_macros brandx_catalog never_over_budget
            five_items world0) = Raised.
Proof. split; vm_compute; reflexivity. Qed.

(** C4, on the code: after a batch that resolved one "Fries", a batch that
    orders three "Fries" gets the cached item back, with quantity 1. *)
Theorem C4_cached_item_keeps_first_quantity :
  let first := mkItemized (Some "BrandX") [order "Fries" 1] in
  let second := mkItemized (Some "BrandX") [order "Fries" 3] in
  let w1 := snd (fetch_nutritionix_macros brandx_catalog never_over_budget
                   first world0) in
  match fst (fetch_nutritionix_macros brandx_catalog never_over_budget
               second w1) with
  | Ok b => map r_quantity (results b) = [1]
  | Raised => False
  end
  /\ map qty_of (items second) = [3].
Proof. vm_compute. split; reflexivity. Qed.

(** A closed instance of C5: a cache that holds one resolved "Fries". *)
Lemma C5_cached_key_answers_without_calls_witness :
  cache fries_cached !! key_of (Some "BrandX") (order "Fries" 1)
  = Some fries_resolved
  /\ process_entry brandx_catalog never_over_budget (Some "BrandX")
       (order "Fries" 1) fries_cached = (Ok fries_resolved, fries_cached)
  /\ calls (snd (process_entry brandx_catalog never_over_budget
                   (Some "BrandX") (order "Fries" 1) fries_cached))
     = calls fries_cached.
Proof.
  split; [vm_compute; reflexivity|].
  apply (C5_cached_key_answers_without_calls brandx_catalog never_over_budget
           (Some "BrandX") (order "Fries" 1) fries_cached fries_resolved).
  vm_compute; reflexivity.
Defined.

(* ===================================================================== *)
(** ** Brand lock                                                        *)
(* ===================================================================== *)

Lemma mbind_ok {A B} (m : M A) (f : A -> M B) (w w' : World) (b : B) :
  mbind' m f w = (Ok b, w') ->
  exists a w1, m w = (Ok a, w1) /\ f a w1 = (Ok b, w').
Proof.
  unfold mbind'. destruct (m w) as [[a|] w1]; [|discriminate].
  intros H. now exists a, w1.
Qed.

Lemma mret_ok {A} (a b : A) (w w' : World) :
  mret a w = (Ok b, w') -> a = b /\ w = w'.
Proof. unfold mret. now intros [= -> ->]. Qed.

Lemma lift_ok {A} (o : Outcome A) (a : A) (w w' : World) :
  lift o w = (Ok a, w') -> o = Ok a /\ w = w'.
Proof. unfold lift. now intros [= -> ->]. Qed.

Ltac inv_m :=
  repeat match goal with
         | H : mbind' _ _ _ = (Ok _, _) |- _ =>
             apply mbind_ok in H; destruct H as (? & ? & ? & H)
         | H : mret _ _ = (Ok _, _) |- _ =>
             apply mret_ok in H; destruct H as [? ?]; subst
         | H : lift _ _ = (Ok _, _) |- _ =>
             apply lift_ok in H; destruct H as [? ?]; subst
         | H : raise _ = (Ok _, _) |- _ => discriminate H
         | H : (Raised, _) = (Ok _, _) |- _ => discriminate H
         end.

Lemma truthy_false_or_empty (o : option string) :
  truthy o = false -> or_empty o = "".
Proof. destruct o as [[|c s]|]; simpl; intros H; (reflexivity || discriminate). Qed.

(** A brand that is not generic is a non-empty string. *)
Lemma specific_truthy (brand : option string) :
  _is_generic_brand brand = false -> truthy brand = true.
Proof.
  unfold _is_generic_brand, _norm_raw.
  destruct (truthy brand); [reflexivity | intros H; discriminate H].
Qed.

Lemma specific_hint (brand : option string) :
  _is_generic_brand brand = false -> brand_hint_of brand = brand.
Proof. unfold brand_hint_of. now intros ->. Qed.

Lemma locked_none brand : locked_opt brand None.
Proof. intros m H; discriminate H. Qed.

Lemma not_contradicting_locked (full : Food) (brand : option string) :
  brand_contradicts full brand = false ->
  brand_locked brand (_extract_macro_fields full).
Proof.
  unfold brand_contradicts, brand_locked. cbn [_extract_macro_fields m_brand_name].
  intros H Ht. rewrite Ht in H. cbn [andb] in H.
  apply negb_false_iff in H. now apply String.eqb_eq in H.
Qed.

Ltac case_m :=
  match goal with
  | H : (if ?c then _ else _) _ = (Ok _, _) |- _ => destruct c eqn:?
  | H : (match ?x with _ => _ end) _ = (Ok _, _) |- _ => destruct x eqn:?
  end.

Ltac inv_all := repeat (first [progress inv_m | case_m]).

Ltac finish_locked :=
  first [ apply locked_none
        | intros ? [= <-]; apply not_contradicting_locked; assumption ].

Section BrandLock.
Variable net : nat -> Request -> Response.
Variable over_budget : nat -> bool.
Variable brand : option string.
Hypothesis Hspecific : _is_generic_brand brand = false.

(** Fetch by identifier and natural-language fallback. *)
Lemma fetch_locked (item : Cand) (w w' : World) (o : option Macros) :
  _nutritionix_nutrients_from_item net item true brand w = (Ok o, w') ->
  locked_opt brand o.
Proof.
  pose proof (specific_truthy _ Hspecific) as Ht.
  unfold _nutritionix_nutrients_from_item.
  rewrite (specific_hint _ Hspecific), Ht. cbn [andb].
  intros H. inv_all; finish_locked.
Qed.

(** Natural search. *)
Lemma natural_locked (q : string) (w w' : World) (o : option Macros) :
  _natural_search_best net brand q w = (Ok o, w') -> locked_opt brand o.
Proof.
  pose proof (specific_truthy _ Hspecific) as Ht.
  unfold _natural_search_best.
  rewrite (specific_hint _ Hspecific), Ht. cbn [andb].
  intros H. inv_all; finish_locked.
Qed.

Ltac locked_leaf :=
  cbn [a_nutrients a_match fst snd] in *; subst;
  match goal with
  | |- locked_opt _ None => apply locked_none
  | H : locked_opt ?b ?o |- locked_opt ?b ?o => exact H
  | H : _nutritionix_nutrients_from_item _ _ true _ _ = (Ok ?o, _)
    |- locked_opt _ ?o => exact (fetch_locked _ _ _ _ H)
  | H : _natural_search_best _ _ _ _ = (Ok ?o, _)
    |- locked_opt _ ?o => exact (natural_locked _ _ _ _ H)
  end.

(** Every pass of the refinement loop keeps the lock. *)
Lemma refine_body_locked (entry : Entry) (st st' : Attempt) (w w' : World) :
  locked_opt brand (a_nutrients st) ->
  refine_body net brand entry st w = (Ok st', w') ->
  locked_opt brand (a_nutrients st').
Proof.
  pose proof (specific_truthy _ Hspecific) as Ht.
  intros Hst. unfold refine_body. cbv zeta. rewrite Ht.
  intros H. inv_all; locked_leaf.
Qed.

Lemma refine_loop_locked (entry : Entry) (fuel : nat) (st st' : Attempt)
    (w w' : World) :
  locked_opt brand (a_nutrients st) ->
  refine_loop net fuel brand entry st w = (Ok st', w') ->
  locked_opt brand (a_nutrients st').
Proof.
  revert st w. induction fuel as [|fuel IH]; intros st w Hst; cbn [refine_loop].
  - intros H. inv_m. exact Hst.
  - destruct (refine_guard st); [|intros H; inv_m; exact Hst].
    intros H. inv_m.
    eapply IH; [|eassumption]. eapply refine_body_locked; eassumption.
Qed.

Lemma try_or_ok {A} (m : M A) (d a : A) (w w' : World) :
  try_or m d w = (Ok a, w') ->
  m w = (Ok a, w') \/ (m w = (Raised, w') /\ a = d).
Proof.
  unfold try_or. destruct (m w) as [[x|] w1]; intros [= <- <-]; auto.
Qed.

Lemma strict_retry_locked (entry : Entry) (mt : option Cand)
    (n : option Macros) (r : option Cand * option Macros) (w w' : World) :
  locked_opt brand n ->
  strict_retry net brand entry mt n w = (Ok r, w') ->
  locked_opt brand (snd r).
Proof.
  intros Hn. unfold strict_retry. cbv zeta.
  destruct n as [n0|]; [|intros H; inv_m; exact Hn].
  destruct (_ && _ && _ && _); [|intros H; inv_m; exact Hn].
  intros H. apply try_or_ok in H as [H|[_ ->]]; [|exact Hn].
  apply mbind_ok in H as (refined2 & w1 & _ & H).
  destruct refined2 as [c|]; [|inv_m; exact Hn].
  apply try_or_ok in H as [H|[_ ->]]; [|exact Hn].
  inv_all; locked_leaf.
Qed.

(** A resolution that misses the cache returns a brand-locked record. *)
Lemma process_entry_locked (entry : Entry) (w w' : World) (r : Result) :
  cache w !! key_of brand entry = None ->
  process_entry net over_budget brand entry w = (Ok r, w') ->
  locked_opt brand (r_macros r).
Proof.
  pose proof (specific_truthy _ Hspecific) as Ht.
  intros Hmiss. unfold process_entry. cbv zeta.
  unfold key_of in Hmiss. rewrite Hmiss, Ht.
  intros H. apply mbind_ok in H as (mt & w1 & _ & H).
  apply mbind_ok in H as (n1 & w2 & H1 & H).
  apply mbind_ok in H as (n2 & w3 & H2 & H).
  apply mbind_ok in H as (st & w4 & H3 & H).
  apply mbind_ok in H as (mn & w5 & H4 & H).
  injection H as <- <-. cbn [r_macros].
  assert (L1 : locked_opt brand n1).
  { clear H2 H3 H4. inv_all; locked_leaf. }
  assert (L2 : locked_opt brand n2).
  { clear H1 H3 H4. inv_all; locked_leaf. }
  eapply strict_retry_locked; [|exact H4].
  eapply refine_loop_locked; [|exact H3]. exact L2.
Qed.

End BrandLock.

(* ===================================================================== *)
(** ** Records without a brand                                           *)
(* ===================================================================== *)

(** C2: a nutrient record whose [brand_name] is absent or empty is accepted
    without any brand comparison, whatever brand is required: by the fetch
    by identifier, by the natural-language fallback and by the natural
    search, a 200 reply whose first food names no brand is returned as the
    item's macros. *)
Theorem C2_record_without_brand_is_accepted
    (net : nat -> Request -> Response) (brand : option string)
    (require_branded : bool) (by_id by_text : Cand) (q : string) (w : World)
    (body : option Json) (full : Food)
    (Hreply : forall r, net (length (calls w)) r = Reply 200 body)
    (Hfood : first_food body = Ok full)
    (Hnobrand : truthy (f_brand_name full) = false)
    (Hid : truthy (c_nix_item_id by_id) = true)
    (Hnoid : truthy (c_nix_item_id by_text) = false)
    (Htext : nonempty (nl_text by_text brand) = true) :
  fst (_nutritionix_nutrients_from_item net by_id require_branded brand w)
  = Ok (Some (_extract_macro_fields full))
  /\ fst (_nutritionix_nutrients_from_item net by_text require_branded brand w)
     = Ok (Some (_extract_macro_fields full))
  /\ fst (_natural_search_best net brand q w)
     = Ok (Some (_extract_macro_fields full)).
Proof.
  assert (Hc : forall h, brand_contradicts full h = false).
  { intros h. unfold brand_contradicts. now rewrite Hnobrand. }
  split; [|split].
  - unfold _nutritionix_nutrients_from_item, mbind', call.
    rewrite Hid, Hreply. cbn [negb Z.eqb Pos.eqb]. unfold lift.
    rewrite Hfood, Hc, andb_false_r.
    rewrite (truthy_false_or_empty _ Hnobrand). reflexivity.
  - unfold _nutritionix_nutrients_from_item, mbind', call. cbv zeta.
    rewrite Hnoid, Htext. cbn [negb].
    rewrite Hreply. cbn [negb Z.eqb Pos.eqb]. unfold lift.
    rewrite Hfood, Hc, andb_false_r. reflexivity.
  - unfold _natural_search_best, mbind', call. cbv zeta.
    rewrite Hreply. cbn [negb Z.eqb Pos.eqb].
    rewrite Hfood, Hc, andb_false_r. reflexivity.
Qed.

Lemma C2_record_without_brand_is_accepted_witness :
  let full := record "Fries" None 300 in
  let by_id := hit "Fries" "BrandX" (Some "513fc9e73fe3ffd40300109f") in
  let by_text := hit "Fries" "BrandX" None in
  fst (_nutritionix_nutrients_from_item (fun _ _ => Reply 200 (Some (mkJson (Some [full]) [] [])))
         by_id true (Some "BrandX") world0)
  = Ok (Some (_extract_macro_fields full))
  /\ fst (_nutritionix_nutrients_from_item (fun _ _ => Reply 200 (Some (mkJson (Some [full]) [] [])))
            by_text true (Some "BrandX") world0)
     = Ok (Some (_extract_macro_fields full))
  /\ fst (_natural_search_best (fun _ _ => Reply 200 (Some (mkJson (Some [full]) [] [])))
            (Some "BrandX") "Fries" world0)
     = Ok (Some (_extract_macro_fields full)).
Proof.
  cbv zeta.
  apply (C2_record_without_brand_is_accepted
           (fun _ _ => Reply 200 (Some (mkJson (Some [record "Fries" None 300]) [] [])))
           (Some "BrandX") true
           (hit "Fries" "BrandX" (Some "513fc9e73fe3ffd40300109f"))
           (hit "Fries" "BrandX" None) "Fries" world0
           (Some (mkJson (Some [record "Fries" None 300]) [] []))
           (record "Fries" None 300));
    first [reflexivity | intros; reflexivity].
Defined.

(* ===================================================================== *)
(** ** Bounded refinement                                                *)
(* ===================================================================== *)

Lemma extends_by_nil (w : World) : extends_by w w [].
Proof. unfold extends_by. rewrite app_nil_r. now destruct w. Qed.

Lemma extends_by_trans (w w1 w2 : World) (l1 l2 : list Request) :
  extends_by w w1 l1 -> extends_by w1 w2 l2 -> extends_by w w2 (l1 ++ l2).
Proof.
  unfold extends_by. intros -> ->. cbn [cache calls]. now rewrite app_assoc.
Qed.

Lemma text_searches_app (l1 l2 : list Request) :
  text_searches (l1 ++ l2) = (text_searches l1 + text_searches l2)%nat.
Proof. unfold text_searches. now rewrite List.filter_app, length_app. Qed.

Section Refinement.
Variable net : nat -> Request -> Response.
Variable brand : option string.
Variable entry : Entry.

(** The text search logs exactly its own call, whatever its outcome. *)
Lemma instant_effect (i d c : option string) (rq fb : option (list string))
    (q : string) (w : World) :
  exists o, _instant_search_best net brand i d c rq fb q w
            = (o, mkWorld (cache w) (calls w ++ [InstantSearch q])).
Proof.
  unfold _instant_search_best, mbind', call, mret, raise.
  destruct (net _ _) as [|status [data|]|status]; [eauto| | |];
    destruct (negb (status =? 200)); eauto.
Qed.

(** The natural search never raises and logs one nutrient call. *)
Lemma natural_effect (b : option string) (q : string) (w : World) :
  exists o r, _natural_search_best net b q w
              = (Ok o, mkWorld (cache w) (calls w ++ [r]))
              /\ is_text_search r = false.
Proof.
  unfold _natural_search_best, mbind', call, mret. cbv zeta.
  destruct (net _ _) as [|status body|status]; [eauto| |eauto].
  destruct (negb (status =? 200)); [eauto|].
  destruct (first_food body) as [full|]; [|eauto].
  destruct (_ && _); eauto.
Qed.

(** The nutrient fetch logs at most one call, never a text search. *)
Lemma fetch_effect (item : Cand) (rb : bool) (b : option string) (w : World) :
  exists l, extends_by w (snd (_nutritionix_nutrients_from_item net item rb b w)) l
            /\ (length l <= 1)%nat /\ text_searches l = 0%nat.
Proof.
  unfold _nutritionix_nutrients_from_item, mbind', call, mret, raise, lift.
  cbv zeta.
  destruct (truthy (c_nix_item_id item)).
  - exists [ItemById (or_empty (c_nix_item_id item))].
    split; [|split; [cbn; lia | reflexivity]].
    destruct (net _ _) as [|status body|status]; [reflexivity| |];
      (destruct (negb (status =? 200)); [reflexivity|]); [|reflexivity].
    destruct (first_food body) as [full|]; [|reflexivity].
    destruct (_ && _ && _); [reflexivity|].
    destruct (_ && _ && _ && _); reflexivity.
  - destruct (negb (nonempty (nl_text item b))).
    + exists []. split; [apply extends_by_nil | split; [cbn; lia | reflexivity]].
    + exists [NaturalNutrients (nl_text item b)].
      split; [|split; [cbn; lia | reflexivity]].
      destruct (net _ _) as [|status body|status]; [reflexivity| |];
        (destruct (negb (status =? 200)); [reflexivity|]); [|reflexivity].
      destruct (first_food body) as [full|]; [|reflexivity].
      destruct (_ && _); reflexivity.
Qed.

(** One pass: one text search first, then at most one nutrient fetch and at
    most one natural search; a pass that ends normally counts one attempt. *)
Lemma refine_body_effect (st : Attempt) (w : World) :
  exists l, extends_by w (snd (refine_body net brand entry st w)) l
            /\ text_searches l = 1%nat /\ (length l <= 3)%nat
            /\ forall st', fst (refine_body net brand entry st w) = Ok st' ->
                           attempts st' = S (attempts st).
Proof.
  destruct (refine_body net brand entry st w) as [o w'] eqn:E. cbn [fst snd].
  unfold refine_body in E. cbv zeta in E.
  set (det_q := if nonempty _ then _ else _) in E.
  unfold mbind' at 1 in E.
  destruct (instant_effect (Some (or_empty (e_item_name entry)))
              (e_description entry) (e_category entry)
              (e_required_keywords entry) (e_forbidden_keywords entry)
              det_q w) as [[refined|] Hi].
  2:{ rewrite Hi in E. injection E as <- <-. exists [InstantSearch det_q].
      split; [reflexivity|]. split; [reflexivity|]. split; [cbn; lia|].
      intros st' H; discriminate H. }
  rewrite Hi in E. clear Hi.
  set (w1 := mkWorld (cache w) (calls w ++ [InstantSearch det_q])) in E.
  assert (E1 : extends_by w w1 [InstantSearch det_q]) by reflexivity.
  unfold mbind' at 1 in E.
  destruct refined as [c|].
  - unfold mbind' at 1 in E.
    destruct (fetch_effect c (truthy brand) brand w1) as (l2 & E2 & Hl2 & Ht2).
    destruct (_nutritionix_nutrients_from_item net c (truthy brand) brand w1)
      as [[n|] w2]; cbn [snd] in E2; cbv beta iota in E;
      try unfold mret at 1 in E.
    + destruct n as [m|]; cbn [a_nutrients] in E.
      * injection E as <- <-. exists ([InstantSearch det_q] ++ l2).
        split; [exact (extends_by_trans _ _ _ _ _ E1 E2)|].
        unfold text_searches in *. rewrite List.filter_app, length_app, Ht2.
        rewrite length_app. cbn. split; [reflexivity|]. split; [lia|].
        now intros st' [= <-].
      * unfold mbind', mret in E.
        destruct (natural_effect brand det_q w2) as (o' & r & Hn & Hr).
        rewrite Hn in E. injection E as <- <-.
        exists (([InstantSearch det_q] ++ l2) ++ [r]).
        split; [exact (extends_by_trans _ _ _ _ _
                         (extends_by_trans _ _ _ _ _ E1 E2) eq_refl)|].
        unfold text_searches in *. rewrite !List.filter_app, !length_app, Ht2.
        cbn [List.filter is_text_search length]. rewrite Hr. cbn.
        split; [reflexivity|]. split; [lia|]. now intros st' [= <-].
    + injection E as <- <-. exists ([InstantSearch det_q] ++ l2).
      split; [exact (extends_by_trans _ _ _ _ _ E1 E2)|].
      unfold text_searches in *. rewrite List.filter_app, length_app, Ht2.
      rewrite length_app. cbn. split; [reflexivity|]. split; [lia|].
      intros st' H; discriminate H.
  - unfold mret at 1 in E. cbn [a_nutrients] in E.
    destruct (a_nutrients st) as [m|].
    + injection E as <- <-. exists [InstantSearch det_q]. cbn. split; [exact E1|].
      split; [reflexivity|]. split; [lia|]. now intros st' [= <-].
    + unfold mbind', mret in E.
      destruct (natural_effect brand det_q w1) as (o' & r & Hn & Hr).
      rewrite Hn in E. injection E as <- <-.
      exists ([InstantSearch det_q] ++ [r]).
      split; [exact (extends_by_trans _ _ _ _ _ E1 eq_refl)|].
      unfold text_searches. cbn [app List.filter is_text_search]. rewrite Hr.
      cbn. split; [reflexivity|]. split; [lia|]. now intros st' [= <-].
Qed.

Lemma guard_false_bounds (st : Attempt) :
  refine_guard st = false ->
  a_nutrients st = None -> (2 <= attempts st)%nat.
Proof.
  unfold refine_guard. intros H E. rewrite E in H. cbn [is_Some_b negb] in H.
  rewrite andb_true_r in H. now apply Nat.ltb_ge in H.
Qed.

Lemma guard_true_bounds (st : Attempt) :
  refine_guard st = true -> (attempts st < 2)%nat.
Proof.
  unfold refine_guard. intros [H _]%andb_prop. now apply Nat.ltb_lt in H.
Qed.

Lemma spent_guard_false (st : Attempt) :
  (2 - attempts st <= 0)%nat -> refine_guard st = false.
Proof.
  intros H. unfold refine_guard.
  destruct (Nat.ltb_spec (attempts st) 2); [lia | reflexivity].
Qed.

(** The whole loop, for any amount of fuel: the calls it logs, and the state
    it ends in when nothing is raised. *)
Lemma refine_loop_effect (fuel : nat) (st : Attempt) (w : World) :
  exists l,
    extends_by w (snd (refine_loop net fuel brand entry st w)) l
    /\ (text_searches l <= 2 - attempts st)%nat
    /\ (length l <= 3 * (2 - attempts st))%nat
    /\ forall st', fst (refine_loop net fuel brand entry st w) = Ok st' ->
                   attempts st' = (attempts st + text_searches l)%nat
                   /\ ((2 - attempts st <= fuel)%nat -> refine_guard st' = false).
Proof.
  revert st w. induction fuel as [|fuel IH]; intros st w; cbn [refine_loop].
  - exists []. split; [apply extends_by_nil|]. cbn [text_searches List.filter length].
    split; [lia|]. split; [lia|]. intros st' [= <-].
    split; [lia|]. intros Hf. now apply spent_guard_false.
  - destruct (refine_guard st) eqn:G.
    + pose proof (guard_true_bounds _ G) as Hlt.
      destruct (refine_body_effect st w) as (l1 & E1 & T1 & L1 & A1).
      unfold mbind'.
      destruct (refine_body net brand entry st w) as [[st1|] w1];
        cbn [fst snd] in *.
      * specialize (A1 _ eq_refl).
        destruct (IH st1 w1) as (l2 & E2 & T2 & L2 & A2).
        exists (l1 ++ l2). split; [exact (extends_by_trans _ _ _ _ _ E1 E2)|].
        unfold text_searches in *.
        rewrite List.filter_app, !length_app.
        split; [lia|]. split; [lia|]. intros st' H.
        destruct (A2 _ H) as [Ha Hg].
        split; [lia|]. intros Hf. apply Hg. lia.
      * exists l1. split; [exact E1|]. split; [lia|]. split; [lia|].
        intros st' H; discriminate H.
    + exists []. split; [apply extends_by_nil|].
      cbn [text_searches List.filter length].
      split; [lia|]. split; [lia|]. intros st' [= <-].
      split; [lia|]. intros _. exact G.
Qed.

Lemma refine_loop_S (fuel : nat) (st : Attempt) :
  refine_loop net (S fuel) brand entry st
  = if refine_guard st
    then mbind' (refine_body net brand entry st)
                (fun st' => refine_loop net fuel brand entry st')
    else mret st.
Proof. reflexivity. Qed.

(** More fuel than the attempts left changes nothing: the loop has stopped
    by its own test. *)
Lemma refine_loop_fuel_step (fuel : nat) (st : Attempt) (w : World) :
  (2 - attempts st <= fuel)%nat ->
  refine_loop net (S fuel) brand entry st w
  = refine_loop net fuel brand entry st w.
Proof.
  revert st w. induction fuel as [|fuel IH]; intros st w Hf.
  - cbn [refine_loop]. now rewrite (spent_guard_false _ Hf).
  - rewrite (refine_loop_S (S fuel)), (refine_loop_S fuel).
    destruct (refine_guard st) eqn:G; [|reflexivity].
    destruct (refine_body_effect st w) as (l1 & _ & _ & _ & A1).
    unfold mbind'.
    destruct (refine_body net brand entry st w) as [[st1|] w1]; [|reflexivity].
    cbn [fst] in A1. specialize (A1 _ eq_refl).
    apply IH. lia.
Qed.

Lemma refine_loop_fuel (fuel : nat) (st : Attempt) (w : World) :
  (2 <= fuel)%nat ->
  refine_loop net fuel brand entry st w = refine_loop net 2 brand entry st w.
Proof.
  induction 1 as [|fuel Hle IH]; [reflexivity|].
  rewrite refine_loop_fuel_step by lia. exact IH.
Qed.

(** The calls of a nutrient fetch. *)
Lemma fetch_calls (item : Cand) (rb : bool) (w : World) :
  exists fl,
    extends_by w (snd (_nutritionix_nutrients_from_item net item rb brand w)) fl
    /\ (fl = [] \/ exists r, fetch_request item brand = Some r /\ fl = [r]).
Proof.
  unfold _nutritionix_nutrients_from_item, fetch_request, mbind', call, mret,
    raise, lift.
  cbv zeta.
  destruct (truthy (c_nix_item_id item)).
  - exists [ItemById (or_empty (c_nix_item_id item))].
    split; [|right; eauto].
    destruct (net _ _) as [|status body|status]; [reflexivity| |];
      (destruct (negb (status =? 200)); [reflexivity|]); [|reflexivity].
    destruct (first_food body) as [full|]; [|reflexivity].
    destruct (_ && _ && _); [reflexivity|].
    destruct (_ && _ && _ && _); reflexivity.
  - destruct (nonempty (nl_text item brand)); cbn [negb].
    + exists [NaturalNutrients (nl_text item brand)].
      split; [|right; eauto].
      destruct (net _ _) as [|status body|status]; [reflexivity| |];
        (destruct (negb (status =? 200)); [reflexivity|]); [|reflexivity].
      destruct (first_food body) as [full|]; [|reflexivity].
      destruct (_ && _); reflexivity.
    + exists []. split; [apply extends_by_nil | now left].
Qed.

(** The call of a free-text lookup. *)
Lemma natural_calls (q : string) (w : World) :
  exists o, _natural_search_best net brand q w
            = (Ok o, mkWorld (cache w)
                       (calls w ++ [NaturalNutrients (natural_text brand q)])).
Proof.
  unfold _natural_search_best, natural_text, mbind', call, mret. cbv zeta.
  destruct (net _ _) as [|status body|status]; [eauto| |eauto].
  destruct (negb (status =? 200)); [eauto|].
  destruct (first_food body) as [full|]; [|eauto].
  destruct (_ && _); eauto.
Qed.

Ltac pass_shape :=
  split; [reflexivity|];
  split;
  [ first [ now left
          | match goal with
            | H : _ = [] \/ _ |- _ =>
                destruct H as [->|(? & ? & ->)]; [now left | right; eauto]
            end ]
  | first [now left | now right] ].

(** One pass, call by call. *)
Lemma refine_body_trace (st : Attempt) (w : World) :
  exists l,
    extends_by w (snd (refine_body net brand entry st w)) l
    /\ refinement_pass brand entry l
    /\ forall st', fst (refine_body net brand entry st w) = Ok st' ->
                   attempts st' = S (attempts st).
Proof.
  destruct (refine_body net brand entry st w) as [o w'] eqn:E. cbn [fst snd].
  unfold refine_body in E. cbv zeta in E.
  change (if nonempty (_build_nutritionix_query_for_item brand entry)
          then _build_nutritionix_query_for_item brand entry
          else or_else (e_nutritionix_query entry) (or_empty (e_item_name entry)))
    with (det_q brand entry) in E.
  set (q := det_q brand entry) in *.
  unfold refinement_pass. fold q.
  unfold mbind' at 1 in E.
  destruct (instant_effect (Some (or_empty (e_item_name entry)))
              (e_description entry) (e_category entry)
              (e_required_keywords entry) (e_forbidden_keywords entry)
              q w) as [[refined|] Hi]; rewrite Hi in E; clear Hi.
  2:{ injection E as <- <-. exists [InstantSearch q].
      split; [reflexivity|]. split; [|intros st' H; discriminate H].
      exists [], []. pass_shape. }
  set (w1 := mkWorld (cache w) (calls w ++ [InstantSearch q])) in E.
  unfold mbind' at 1 in E.
  destruct refined as [c|].
  - unfold mbind' at 1 in E.
    destruct (fetch_calls c (truthy brand) w1) as (fl & E2 & Hfl).
    unfold extends_by in E2.
    destruct (_nutritionix_nutrients_from_item net c (truthy brand) brand w1)
      as [[n|] w2]; cbn [snd] in E2; cbv beta iota in E;
      try unfold mret at 1 in E.
    + destruct n as [m|]; cbn [a_nutrients] in E.
      * injection E as <- <-. exists (InstantSearch q :: fl ++ []).
        split; [subst w2 w1; unfold extends_by; cbn [cache calls];
                now rewrite app_nil_r, <- app_assoc|].
        split; [exists fl, []; pass_shape | now intros st' [= <-]].
      * unfold mbind', mret in E.
        destruct (natural_calls q w2) as (o' & Hn).
        rewrite Hn in E. injection E as <- <-.
        exists (InstantSearch q :: fl ++ [NaturalNutrients (natural_text brand q)]).
        split; [subst w2 w1; unfold extends_by; cbn [cache calls];
                now rewrite <- !app_assoc|].
        split; [exists fl, [NaturalNutrients (natural_text brand q)]; pass_shape
               | now intros st' [= <-]].
    + injection E as <- <-. exists (InstantSearch q :: fl ++ []).
      split; [subst w2 w1; unfold extends_by; cbn [cache calls];
              now rewrite app_nil_r, <- app_assoc|].
      split; [exists fl, []; pass_shape | intros st' H; discriminate H].
  - unfold mret at 1 in E. cbn [a_nutrients] in E.
    destruct (a_nutrients st) as [m|].
    + injection E as <- <-. exists [InstantSearch q].
      split; [reflexivity|].
      split; [exists [], []; pass_shape | now intros st' [= <-]].
    + unfold mbind', mret in E.
      destruct (natural_calls q w1) as (o' & Hn).
      rewrite Hn in E. injection E as <- <-.
      exists (InstantSearch q :: [] ++ [NaturalNutrients (natural_text brand q)]).
      split; [subst w1; unfold extends_by; cbn [cache calls app];
              now rewrite <- app_assoc|].
      split; [exists [], [NaturalNutrients (natural_text brand q)]; pass_shape
             | now intros st' [= <-]].
Qed.

(** The whole loop, pass by pass. *)
Lemma refine_loop_trace (fuel : nat) (st : Attempt) (w : World) :
  exists passes,
    extends_by w (snd (refine_loop net fuel brand entry st w)) (concat passes)
    /\ (length passes <= 2 - attempts st)%nat
    /\ List.Forall (refinement_pass brand entry) passes
    /\ forall st', fst (refine_loop net fuel brand entry st w) = Ok st' ->
                   attempts st' = (attempts st + length passes)%nat
                   /\ ((2 - attempts st <= fuel)%nat -> refine_guard st' = false).
Proof.
  revert st w. induction fuel as [|fuel IH]; intros st w; cbn [refine_loop].
  - exists []. split; [apply extends_by_nil|]. cbn [length].
    split; [lia|]. split; [constructor|]. intros st' [= <-].
    split; [lia|]. intros Hf. now apply spent_guard_false.
  - destruct (refine_guard st) eqn:G.
    + pose proof (guard_true_bounds _ G) as Hlt.
      destruct (refine_body_trace st w) as (l1 & E1 & P1 & A1).
      unfold mbind'.
      destruct (refine_body net brand entry st w) as [[st1|] w1];
        cbn [fst snd] in *.
      * specialize (A1 _ eq_refl).
        destruct (IH st1 w1) as (ps & E2 & L2 & P2 & A2).
        exists (l1 :: ps). cbn [concat length].
        split; [exact (extends_by_trans _ _ _ _ _ E1 E2)|].
        split; [lia|]. split; [now constructor|]. intros st' H.
        destruct (A2 _ H) as [Ha Hg].
        split; [lia|]. intros Hf. apply Hg. lia.
      * exists [l1]. cbn [concat length]. rewrite app_nil_r.
        split; [exact E1|]. split; [lia|].
        split; [constructor; [exact P1 | constructor]|].
        intros st' H; discriminate H.
    + exists []. split; [apply extends_by_nil|]. cbn [length].
      split; [lia|]. split; [constructor|]. intros st' [= <-].
      split; [lia|]. intros _. exact G.
Qed.

(** The strict retry, call by call: it never raises. *)
Lemma strict_retry_trace (mt : option Cand) (n : option Macros) (w : World) :
  exists r extra,
    strict_retry net brand entry mt n w
    = (Ok r, mkWorld (cache w) (calls w ++ extra))
    /\ strict_retry_calls brand extra.
Proof.
  assert (Z0 : forall r : option Cand * option Macros,
            exists r' extra,
              mret r w = (Ok r', mkWorld (cache w) (calls w ++ extra))
              /\ strict_retry_calls brand extra).
  { intros r. exists r, []. rewrite app_nil_r.
    split; [now destruct w | now left]. }
  unfold strict_retry. cbv zeta.
  destruct n as [m|]; [|apply Z0].
  destruct (_ && _ && _ && _); [|apply Z0].
  set (sq := or_empty brand +:+ " Cheeseburger").
  unfold try_or at 1. unfold mbind' at 1.
  destruct (instant_effect (Some (or_empty (e_item_name entry)))
              (e_description entry) (e_category entry)
              (e_required_keywords entry) (e_forbidden_keywords entry)
              sq w) as [[[c|]|] Hi]; rewrite Hi; clear Hi.
  - set (w1 := mkWorld (cache w) (calls w ++ [InstantSearch sq])).
    unfold try_or, mbind'.
    destruct (fetch_effect c true brand w1) as (fl & Ef & Lf & Tf).
    unfold extends_by in Ef.
    destruct (_nutritionix_nutrients_from_item net c true brand w1)
      as [[[m1|]|] w2]; cbn [snd] in Ef; subst w2 w1; cbn [cache calls].
    + eexists. exists (InstantSearch sq :: fl).
      split; [unfold mret; now rewrite <- app_assoc|].
      right. exists fl. split; [reflexivity|]. split; [lia | exact Tf].
    + match goal with
      | |- context [_natural_search_best net brand sq ?w2] =>
          destruct (natural_effect brand sq w2) as (o & r & En & Hr); rewrite En
      end.
      unfold mret. cbn [cache calls]. eexists.
      exists (InstantSearch sq :: fl ++ [r]).
      split; [now rewrite <- !app_assoc|].
      right. exists (fl ++ [r]). split; [reflexivity|].
      rewrite length_app, text_searches_app. unfold text_searches at 2.
      cbn [List.filter length]. rewrite Hr. cbn [length]. split; lia.
    + eexists. exists (InstantSearch sq :: fl).
      split; [now rewrite <- app_assoc|].
      right. exists fl. split; [reflexivity|]. split; [lia | exact Tf].
  - unfold mret. eexists. exists [InstantSearch sq]. split; [reflexivity|].
    right. exists []. split; [reflexivity|]. split; [cbn; lia | reflexivity].
  - eexists. exists [InstantSearch sq]. split; [reflexivity|].
    right. exists []. split; [reflexivity|]. split; [cbn; lia | reflexivity].
Qed.

End Refinement.




(** With the catalog down the item is reported unresolved after exactly two
    attempts and four calls. *)
Example dead_catalog_two_attempts :
  let run := refine_loop dead_catalog 7 (Some "BrandX") (order "Fries" 1)
               (mkAttempt 0 None None) world0 in
  fst run = Ok (mkAttempt 2 None None)
  /\ calls (snd run)
     = [InstantSearch "BrandX French fries";
        NaturalNutrients "BrandX BrandX French fries";
        InstantSearch "BrandX French fries";
        NaturalNutrients "BrandX BrandX French fries"].
Proof. vm_compute. split; reflexivity. Qed.

(* ===================================================================== *)
(** ** Facts about the matcher: what a captured count or volume is       *)
(* ===================================================================== *)

Section RegexFacts.

Lemma search_from_in {A} (p : Regex.Rx A) (prev : option ascii) (s : string) (a : A) :
  Regex.search_from p prev s = Some a -> exists st st', In (a, st') (p st).
Proof.
  revert prev. induction s as [|c s IH]; intros prev; cbn [Regex.search_from].
  - destruct (p (prev, EmptyString)) as [|[a0 st0] l] eqn:E; [discriminate|].
    intros [= <-]. exists (prev, EmptyString), st0. rewrite E. now left.
  - destruct (p (prev, String c s)) as [|[a0 st0] l] eqn:E.
    + apply IH.
    + intros [= <-]. exists (prev, String c s), st0. rewrite E. now left.
Qed.

Lemma in_bind {A B} (m : Regex.Rx A) (f : A -> Regex.Rx B) (st : Regex.St) (b : B) (st' : Regex.St) :
  In (b, st') (Regex.bind m f st) ->
  exists a st1, In (a, st1) (m st) /\ In (b, st') (f a st1).
Proof.
  unfold Regex.bind. intros H. apply in_flat_map in H as ([a st1] & H1 & H2).
  now exists a, st1.
Qed.

Lemma in_ret {A} (a b : A) (st st' : Regex.St) :
  In (b, st') (Regex.ret a st) -> b = a.
Proof. unfold Regex.ret. intros [[= <- _]|[]]. reflexivity. Qed.

Lemma in_char (p : ascii -> bool) (st st' : Regex.St) (c : ascii) :
  In (c, st') (Regex.char p st) -> p c = true.
Proof.
  unfold Regex.char. destruct (snd st) as [|x s]; [intros []|].
  destruct (p x) eqn:E; [|intros []]. now intros [[= <- _]|[]].
Qed.

Lemma digits_1_3_run (st st' : Regex.St) (o : string) :
  In (o, st') (Regex.digits_1_3 st) -> digit_run o.
Proof.
  unfold Regex.digits_1_3, Regex.alt. intros H.
  apply in_bind in H as (d1 & st1 & H1 & H). apply in_char in H1.
  apply in_app_or in H as [H|H].
  - apply in_bind in H as (d2 & st2 & H2 & H). apply in_char in H2.
    apply in_app_or in H as [H|H].
    + apply in_bind in H as (d3 & st3 & H3 & H). apply in_char in H3.
      apply in_ret in H as ->. exists d1, (String d2 (String d3 EmptyString)).
      split; [reflexivity|]. cbn. now rewrite H1, H2, H3.
    + apply in_ret in H as ->. exists d1, (String d2 EmptyString).
      split; [reflexivity|]. cbn. now rewrite H1, H2.
  - apply in_ret in H as ->. exists d1, EmptyString.
    split; [reflexivity|]. cbn. now rewrite H1.
Qed.

Ltac skip_bind H :=
  let x := fresh in let st := fresh in let Hx := fresh in
  apply in_bind in H as (x & st & Hx & H); clear Hx.

Lemma ounces_is_digit_run (s o : string) :
  Regex.search Regex.re_ounces s = Some o -> digit_run o.
Proof.
  unfold Regex.search. intros H. apply search_from_in in H as (st & st' & H).
  unfold Regex.re_ounces in H. skip_bind H.
  apply in_bind in H as (d & st1 & Hd & H).
  do 5 skip_bind H. apply in_ret in H as ->.
  exact (digits_1_3_run _ _ _ Hd).
Qed.

End RegexFacts.

(* ===================================================================== *)
(** ** Facts about substrings, stripping and case                        *)
(* ===================================================================== *)

Section TextFacts.

Lemma append_nil_l (s : string) : "" +:+ s = s.
Proof. reflexivity. Qed.

Lemma contains_unfold (p s : string) :
  contains p s
  = prefix p s || match s with
                  | EmptyString => false
                  | String _ s' => contains p s'
                  end.
Proof. destruct s; reflexivity. Qed.

Lemma contains_prefix (p s : string) : prefix p s = true -> contains p s = true.
Proof. intros H. rewrite contains_unfold, H. reflexivity. Qed.

Lemma contains_cons (p s : string) (c : ascii) :
  contains p s = true -> contains p (String c s) = true.
Proof. intros H. rewrite contains_unfold, H. apply orb_true_r. Qed.

Lemma contains_app_r (p a b : string) :
  contains p b = true -> contains p (a +:+ b) = true.
Proof.
  intros H. induction a as [|c a IH]; [exact H|].
  rewrite append_cons. now apply contains_cons.
Qed.

Lemma prefix_app_l (p a b : string) :
  prefix p a = true -> prefix p (a +:+ b) = true.
Proof.
  revert a. induction p as [|x p IH]; intros [|c a]; cbn [prefix];
    try reflexivity; try discriminate.
  rewrite append_cons. cbn [prefix].
  intros [-> H]%andb_prop. now rewrite (IH _ H).
Qed.

Lemma contains_app_l (p a b : string) :
  contains p a = true -> contains p (a +:+ b) = true.
Proof.
  induction a as [|c a IH].
  - rewrite contains_unfold, orb_false_r. intros H.
    apply contains_prefix. now apply (prefix_app_l p "" b).
  - rewrite contains_unfold, append_cons. intros [H|H]%orb_prop.
    + apply contains_prefix. now apply (prefix_app_l p (String c a) b).
    + apply contains_cons. now apply IH.
Qed.

Lemma prefix_self_app (p b : string) : prefix p (p +:+ b) = true.
Proof.
  induction p as [|x p IH]; [reflexivity|].
  rewrite append_cons. cbn [prefix]. now rewrite Ascii.eqb_refl.
Qed.

(** [p] occurs in [a + p + b]. *)
Lemma contains_mid (p a b : string) : contains p (a +:+ p +:+ b) = true.
Proof. apply contains_app_r, contains_prefix, prefix_self_app. Qed.

Lemma forall_str_app (P : ascii -> bool) (a b : string) :
  forall_str P (a +:+ b) = forall_str P a && forall_str P b.
Proof.
  induction a as [|c a IH]; [reflexivity|].
  rewrite append_cons. cbn [forall_str]. now rewrite IH, andb_assoc.
Qed.

Lemma forall_str_impl (P Q : ascii -> bool) (s : string) :
  (forall c, P c = true -> Q c = true) ->
  forall_str P s = true -> forall_str Q s = true.
Proof.
  intros HPQ. induction s as [|c s IH]; [reflexivity|]. cbn [forall_str].
  intros [Hc Hs]%andb_prop. now rewrite (HPQ _ Hc), (IH Hs).
Qed.

Lemma forall_str_map (P : ascii -> bool) (f : ascii -> ascii) (s : string) :
  forall_str P (map_str f s) = forall_str (fun c => P (f c)) s.
Proof.
  induction s as [|c s IH]; [reflexivity|]. cbn [map_str forall_str].
  now rewrite IH.
Qed.

(** A pattern without the separator [sep] cannot straddle it. *)
Lemma prefix_before_separator (sep : ascii) (p a b : string) :
  lacks sep p = true ->
  prefix p (a +:+ String sep b) = true -> prefix p a = true.
Proof.
  revert a. induction p as [|x p IH]; intros a Hp; [reflexivity|].
  cbn [lacks forall_str] in Hp. apply andb_prop in Hp as [Hx Hp].
  destruct a as [|c a].
  - rewrite append_nil_l. cbn [prefix]. intros [E _]%andb_prop.
    rewrite E in Hx. discriminate Hx.
  - rewrite append_cons. cbn [prefix]. intros [-> H]%andb_prop.
    now rewrite (IH a Hp H).
Qed.

Lemma contains_around_separator (sep : ascii) (p a b : string) :
  lacks sep p = true ->
  contains p (a +:+ String sep b) = true ->
  contains p a = true \/ contains p b = true.
Proof.
  intros Hp. induction a as [|c a IH].
  - rewrite append_nil_l, contains_unfold. intros [H|H]%orb_prop; [|now right].
    left. apply contains_prefix.
    now apply (prefix_before_separator sep p "" b).
  - rewrite append_cons, contains_unfold. intros [H|H]%orb_prop.
    + left. apply contains_prefix.
      rewrite <- append_cons in H.
      now apply (prefix_before_separator sep p (String c a) b).
    + destruct (IH H) as [Ha|Hb]; [left; now apply contains_cons | now right].
Qed.

(** A pattern that ends in [k] cannot end inside a text without [k]. *)
Lemma prefix_snoc_has (k : ascii) (p b : string) :
  prefix (p +:+ String k "") b = true -> lacks k b = false.
Proof.
  revert b. induction p as [|x p IH]; intros [|c b]; cbn [prefix];
    try discriminate.
  - rewrite append_nil_l. cbn [prefix lacks forall_str].
    intros [E _]%andb_prop. apply Ascii.eqb_eq in E as ->.
    now rewrite Ascii.eqb_refl.
  - rewrite append_cons. cbn [prefix lacks forall_str].
    intros [_ H]%andb_prop. apply IH in H. unfold lacks in H. rewrite H.
    apply andb_false_r.
Qed.

Lemma prefix_snoc_app (k : ascii) (p a b : string) :
  lacks k b = true ->
  prefix (p +:+ String k "") (a +:+ b) = true ->
  prefix (p +:+ String k "") a = true.
Proof.
  intros Hb. revert a. induction p as [|x p IH]; intros [|c a].
  - rewrite !append_nil_l. intros H. apply prefix_snoc_has with (p := "") in H.
    congruence.
  - rewrite append_nil_l, append_cons. cbn [prefix].
    intros [-> _]%andb_prop. reflexivity.
  - rewrite append_nil_l. intros H. apply prefix_snoc_has in H. congruence.
  - rewrite !append_cons. cbn [prefix]. intros [-> H]%andb_prop.
    now rewrite (IH a H).
Qed.

Lemma contains_snoc_has (k : ascii) (p b : string) :
  contains (p +:+ String k "") b = true -> lacks k b = false.
Proof.
  induction b as [|c b IH]; rewrite contains_unfold.
  - rewrite orb_false_r. apply prefix_snoc_has.
  - intros [H|H]%orb_prop; [now apply prefix_snoc_has in H|].
    cbn [lacks forall_str]. apply IH in H. unfold lacks in H. rewrite H.
    apply andb_false_r.
Qed.

Lemma contains_snoc_app (k : ascii) (p a b : string) :
  lacks k b = true ->
  contains (p +:+ String k "") (a +:+ b) = true ->
  contains (p +:+ String k "") a = true.
Proof.
  intros Hb. induction a as [|c a IH].
  - rewrite append_nil_l. intros H. apply contains_snoc_has in H. congruence.
  - rewrite append_cons, contains_unfold. intros [H|H]%orb_prop.
    + apply contains_prefix. rewrite <- append_cons in H.
      now apply (prefix_snoc_app k p (String c a) b).
    + apply contains_cons. now apply IH.
Qed.

(** [str.strip()] keeps a substring of the text ... *)
Lemma contains_lstrip (p x : string) :
  contains p (lstrip x) = true -> contains p x = true.
Proof.
  induction x as [|c x IH]; [trivial|]. cbn [lstrip].
  destruct (is_space c); [|trivial]. intros H. now apply contains_cons, IH.
Qed.

Lemma prefix_split (r x : string) :
  prefix r x = true -> exists t, x = r +:+ t.
Proof.
  revert x. induction r as [|a r IH]; intros x; [now exists x|].
  destruct x as [|c x]; cbn [prefix]; [discriminate|].
  intros [E H]%andb_prop. apply Ascii.eqb_eq in E as ->.
  destruct (IH _ H) as [t ->]. now exists t.
Qed.

Lemma rstrip_cons (c : ascii) (x : string) :
  rstrip (String c x)
  = match rstrip x with
    | EmptyString => if is_space c then EmptyString else String c EmptyString
    | r => String c r
    end.
Proof. reflexivity. Qed.

Lemma prefix_rstrip (x : string) : prefix (rstrip x) x = true.
Proof.
  induction x as [|c x IH]; [reflexivity|]. rewrite rstrip_cons.
  destruct (rstrip x) as [|d r].
  - destruct (is_space c); cbn [prefix]; [reflexivity|].
    now rewrite Ascii.eqb_refl.
  - cbn [prefix] in *. now rewrite Ascii.eqb_refl, IH.
Qed.

Lemma rstrip_split (x : string) : exists t, x = rstrip x +:+ t.
Proof. apply prefix_split, prefix_rstrip. Qed.

Lemma contains_rstrip (p x : string) :
  contains p (rstrip x) = true -> contains p x = true.
Proof.
  intros H. destruct (rstrip_split x) as [t E]. rewrite E.
  now apply contains_app_l.
Qed.

Lemma contains_strip (p x : string) :
  contains p (strip x) = true -> contains p x = true.
Proof. intros H. now apply contains_rstrip, contains_lstrip. Qed.

(** ... and every substring that neither starts nor ends with a space. *)
Lemma lstrip_keeps (f : ascii) (p x : string) :
  is_space f = false ->
  contains (String f p) x = true -> contains (String f p) (lstrip x) = true.
Proof.
  intros Hf. induction x as [|c x IH]; [trivial|]. cbn [lstrip].
  destruct (is_space c) eqn:Hc; [|trivial].
  rewrite contains_unfold. cbn [prefix].
  destruct (Ascii.eqb_spec f c) as [->|_]; [congruence|].
  cbn [andb orb]. exact IH.
Qed.

Lemma prefix_nonempty (a : ascii) (p x : string) :
  prefix (String a p) x = true -> nonempty x = true.
Proof. destruct x; [discriminate | reflexivity]. Qed.

Lemma contains_nonempty (a : ascii) (p x : string) :
  contains (String a p) x = true -> nonempty x = true.
Proof. destruct x; [discriminate | reflexivity]. Qed.

Lemma snoc_cons (p : string) (l : ascii) :
  exists a q, p +:+ String l "" = String a q.
Proof. destruct p as [|a p]; [now exists l, "" | now exists a, (p +:+ String l "")]. Qed.

Lemma rstrip_cons_nonempty (c : ascii) (x : string) :
  nonempty (rstrip x) = true -> rstrip (String c x) = String c (rstrip x).
Proof. rewrite rstrip_cons. destruct (rstrip x); [discriminate | reflexivity]. Qed.

Lemma prefix_rstrip_keeps (l : ascii) (p x : string) :
  is_space l = false ->
  prefix (p +:+ String l "") x = true ->
  prefix (p +:+ String l "") (rstrip x) = true.
Proof.
  intros Hl. revert x. induction p as [|a p IH]; intros [|c x];
    rewrite ?append_nil_l, ?append_cons; cbn [prefix]; try discriminate.
  - intros [E _]%andb_prop. apply Ascii.eqb_eq in E as <-.
    rewrite rstrip_cons. destruct (rstrip x); rewrite ?Hl; cbn [prefix];
      now rewrite Ascii.eqb_refl.
  - intros [E H]%andb_prop. apply IH in H.
    destruct (snoc_cons p l) as (a' & q & Eq). rewrite Eq in H.
    rewrite (rstrip_cons_nonempty c x) by exact (prefix_nonempty _ _ _ H).
    cbn [prefix]. rewrite E. cbn [andb]. now rewrite Eq.
Qed.

Lemma rstrip_keeps (l : ascii) (p x : string) :
  is_space l = false ->
  contains (p +:+ String l "") x = true ->
  contains (p +:+ String l "") (rstrip x) = true.
Proof.
  intros Hl. induction x as [|c x IH].
  - destruct (snoc_cons p l) as (a' & q & ->). discriminate.
  - rewrite contains_unfold. intros [H|H]%orb_prop.
    + apply contains_prefix. now apply prefix_rstrip_keeps.
    + apply IH in H. destruct (snoc_cons p l) as (a' & q & Eq).
      rewrite Eq in *.
      rewrite (rstrip_cons_nonempty c x) by exact (contains_nonempty _ _ _ H).
      now apply contains_cons.
Qed.

Lemma strip_keeps (f l : ascii) (p x : string) :
  is_space f = false -> is_space l = false ->
  contains (String f p +:+ String l "") x = true ->
  contains (String f p +:+ String l "") (strip x) = true.
Proof.
  intros Hf Hl H. unfold strip. rewrite append_cons.
  apply lstrip_keeps; [exact Hf|]. rewrite <- append_cons.
  now apply rstrip_keeps.
Qed.

Lemma forall_str_lstrip (P : ascii -> bool) (x : string) :
  forall_str P x = true -> forall_str P (lstrip x) = true.
Proof.
  induction x as [|c x IH]; [trivial|]. cbn [lstrip forall_str].
  destruct (is_space c); [|trivial]. intros [_ H]%andb_prop. now apply IH.
Qed.

Lemma forall_str_rstrip (P : ascii -> bool) (x : string) :
  forall_str P x = true -> forall_str P (rstrip x) = true.
Proof.
  destruct (rstrip_split x) as [t E]. rewrite E at 1. rewrite forall_str_app.
  now intros [H _]%andb_prop.
Qed.

Lemma forall_str_strip (P : ascii -> bool) (x : string) :
  forall_str P x = true -> forall_str P (strip x) = true.
Proof. intros H. now apply forall_str_lstrip, forall_str_rstrip. Qed.

Lemma lower_app (a b : string) : lower (a +:+ b) = lower a +:+ lower b.
Proof.
  unfold lower. induction a as [|c a IH]; [reflexivity|].
  rewrite append_cons. cbn [map_str]. now rewrite append_cons, IH.
Qed.

Lemma is_space_lower_char (c : ascii) : is_space (lower_char c) = is_space c.
Proof. destruct c as [[] [] [] [] [] [] [] []]; reflexivity. Qed.

Lemma lower_lstrip (x : string) : lower (lstrip x) = lstrip (lower x).
Proof.
  unfold lower. induction x as [|c x IH]; [reflexivity|].
  cbn [lstrip map_str]. rewrite is_space_lower_char.
  destruct (is_space c); [exact IH | reflexivity].
Qed.

Lemma lower_rstrip (x : string) : lower (rstrip x) = rstrip (lower x).
Proof.
  unfold lower. induction x as [|c x IH]; [reflexivity|].
  cbn [map_str]. rewrite !rstrip_cons, <- IH, is_space_lower_char.
  destruct (rstrip x); [destruct (is_space c)|]; reflexivity.
Qed.

Lemma lower_strip (x : string) : lower (strip x) = strip (lower x).
Proof. unfold strip. now rewrite lower_lstrip, lower_rstrip. Qed.

End TextFacts.

(* ===================================================================== *)
(** ** Drink queries                                                     *)
(* ===================================================================== *)

Section DrinkFacts.
Variable brand : option string.

Lemma build_drink (entry : Entry) :
  drink_classified entry = true ->
  _build_nutritionix_query_for_item brand entry
  = drink_query brand (item_text entry) (q_ounces (item_expected entry))
      (_title_size_from_enum (e_size entry)).
Proof.
  unfold drink_classified, _build_nutritionix_query_for_item. cbv zeta.
  fold (item_text entry). fold (item_expected entry).
  intros [[H1 H2]%andb_prop H3]%andb_prop.
  apply negb_true_iff in H1, H2. now rewrite H1, H2, H3.
Qed.

Lemma drink_query_shaped (text : string) (ounces size_word : option string) :
  shaped brand (drink_query brand text ounces size_word)
         (drink_name text ounces size_word).
Proof.
  unfold shaped, drink_query, drink_name.
  destruct (coffee_cues text); [now left|].
  destruct (contains "sprite" text); [now right|].
  destruct (any_in _ text); [now right | now left].
Qed.

Lemma with_brand_cases (nm : string) :
  with_brand brand nm = nm
  \/ with_brand brand nm = strip (or_empty brand +:+ " " +:+ nm).
Proof. unfold with_brand. destruct (_ && _); [now right | now left]. Qed.

(** No "soft drink" enters the query through a name without the letter k. *)
Lemma shaped_no_soft_drink (q nm : string) :
  shaped brand q nm ->
  lacks "k" (lower nm) = true ->
  contains "soft drink" (lower q) = true ->
  contains "soft drink" (lower (or_empty brand)) = true.
Proof.
  assert (W : forall n, lacks "k" (lower n) = true ->
                        contains "soft drink" (lower (with_brand brand n)) = true ->
                        contains "soft drink" (lower (or_empty brand)) = true).
  { intros n Hn. destruct (with_brand_cases n) as [-> | ->].
    - intros H. apply (contains_snoc_has "k" "soft drin") in H. congruence.
    - rewrite lower_strip, !lower_app. intros H%contains_strip.
      apply (contains_snoc_app "k" "soft drin") in H; [exact H|].
      unfold lacks in *. rewrite forall_str_app, Hn. reflexivity. }
  intros [-> | ->] Hn.
  - rewrite lower_strip. intros H%contains_strip. now apply (W nm).
  - apply W. rewrite lower_strip. now apply forall_str_strip.
Qed.

(** A substring of the name without outer spaces survives in the query. *)
Lemma shaped_embeds (q nm : string) (f l : ascii) (p : string) :
  shaped brand q nm ->
  is_space f = false -> is_space l = false ->
  contains (String f p +:+ String l "") nm = true ->
  contains (String f p +:+ String l "") q = true.
Proof.
  intros Hq Hf Hl.
  assert (W : forall n, contains (String f p +:+ String l "") n = true ->
                        contains (String f p +:+ String l "") (with_brand brand n)
                        = true).
  { intros n Hn. destruct (with_brand_cases n) as [-> | ->]; [exact Hn|].
    apply strip_keeps; [exact Hf | exact Hl|]. now do 2 apply contains_app_r. }
  destruct Hq as [-> | ->]; intros H.
  - apply strip_keeps; [exact Hf | exact Hl|]. now apply W.
  - apply W. now apply strip_keeps.
Qed.

(** "Coffee" enters the query only through the name or the brand. *)
Lemma shaped_coffee_source (q nm : string) :
  shaped brand q nm ->
  contains "Coffee" nm = false ->
  contains "Coffee" q = true ->
  contains "Coffee" (or_empty brand) = true.
Proof.
  intros Hq Hn.
  assert (W : forall n, contains "Coffee" n = false ->
                        contains "Coffee" (with_brand brand n) = true ->
                        contains "Coffee" (or_empty brand) = true).
  { intros n Hc. destruct (with_brand_cases n) as [-> | ->]; [congruence|].
    intros H%contains_strip.
    apply (contains_around_separator " ") in H as [H|H];
      [exact H | congruence | reflexivity]. }
  destruct Hq as [-> | ->].
  - intros H%contains_strip. now apply (W nm).
  - apply W. destruct (contains "Coffee" (strip nm)) eqn:E; [|reflexivity].
    apply contains_strip in E. congruence.
Qed.

End DrinkFacts.

Lemma title_size_of_enum (sz : option string) :
  In sz size_enum_values -> In (_title_size_from_enum sz) size_words.
Proof.
  unfold size_enum_values, size_words.
  intros H; repeat (destruct H as [<- | H]; [cbn; tauto|]); destruct H.
Qed.

Lemma expected_ounces_digits (entry : Entry) (o : string) :
  q_ounces (item_expected entry) = Some o -> digit_run o.
Proof.
  unfold item_expected, _parse_expected_from_item. cbn [q_ounces].
  apply ounces_is_digit_run.
Qed.

Lemma digit_run_truthy (o : string) : digit_run o -> truthy (Some o) = true.
Proof. now intros (d & rest & -> & _). Qed.

Lemma digit_not_space (c : ascii) : is_digit c = true -> is_space c = false.
Proof. destruct c as [[] [] [] [] [] [] [] []]; vm_compute; congruence. Qed.

Lemma digit_lower_not (k : ascii) (c : ascii) :
  is_digit k = false -> is_digit c = true ->
  negb (Ascii.eqb (lower_char c) k) = true.
Proof.
  intros Hk Hc. replace (lower_char c) with c.
  - destruct (Ascii.eqb_spec c k) as [->|]; [congruence | reflexivity].
  - revert Hc. destruct c as [[] [] [] [] [] [] [] []]; vm_compute; congruence.
Qed.

(** Digits contain no letter, in either case. *)
Lemma digit_run_lacks (k : ascii) (o : string) :
  is_digit k = false -> digit_run o ->
  lacks k (lower o) = true /\ lacks k o = true.
Proof.
  intros Hk (d & rest & _ & Hd). unfold lacks, lower. rewrite forall_str_map.
  split; revert Hd; apply forall_str_impl; intros c Hc.
  - now apply digit_lower_not.
  - destruct (Ascii.eqb_spec c k) as [->|]; [congruence | reflexivity].
Qed.

Lemma volume_shape (o : string) :
  digit_run o ->
  exists d p, is_space d = false
              /\ o +:+ " fl oz" = String d p +:+ String "z" "".
Proof.
  intros (d & rest & -> & Hd). cbn [forall_str] in Hd.
  apply andb_prop in Hd as [Hd _].
  exists d, (rest +:+ " fl o"). split; [now apply digit_not_space|].
  rewrite !append_cons. f_equal. now rewrite append_assoc.
Qed.

Lemma contains_self (p : string) : contains p p = true.
Proof.
  apply contains_prefix. rewrite <- (append_empty_r p) at 2.
  apply prefix_self_app.
Qed.

Ltac size_cases H :=
  unfold size_words in H;
  destruct H as [H | [H | [H | [H | [H | [H | []]]]]]];
  try rewrite <- H.

Lemma sized_name_lacks_k (size_word : option string) (d : string) :
  In size_word size_words ->
  lacks "k" (lower d) = true -> lacks "k" (lower (or_else size_word d)) = true.
Proof. intros H Hd. size_cases H; first [exact Hd | reflexivity]. Qed.

Lemma volume_name_lacks_k (x o : string) :
  digit_run o -> lacks "k" (lower x) = true ->
  lacks "k" (lower (x +:+ o +:+ " fl oz")) = true.
Proof.
  intros Ho Hx. destruct (digit_run_lacks "k" o eq_refl Ho) as [Hl _].
  unfold lacks in *. now rewrite !lower_app, !forall_str_app, Hx, Hl.
Qed.

Lemma sized_name_no_coffee (size_word : option string) (d : string) :
  In size_word size_words ->
  contains "Coffee" d = false -> contains "Coffee" (or_else size_word d) = false.
Proof. intros H Hd. size_cases H; first [exact Hd | reflexivity]. Qed.

Lemma volume_name_no_coffee (x o : string) :
  digit_run o -> contains "Coffee" x = false ->
  contains "Coffee" (x +:+ " " +:+ o +:+ " fl oz") = false.
Proof.
  intros Ho Hx.
  destruct (contains "Coffee" (x +:+ " " +:+ o +:+ " fl oz")) eqn:E;
    [|reflexivity].
  apply (contains_around_separator " " "Coffee" x) in E as [E|E];
    [congruence| |reflexivity].
  apply (contains_around_separator " " "Coffee" o) in E as [E|E];
    [|discriminate E|reflexivity].
  apply (contains_snoc_has "e" "Coffe") in E.
  destruct (digit_run_lacks "e" o eq_refl Ho) as [_ Hl]. congruence.
Qed.

Section DrinkNames.
Variables (text : string) (size_word : option string).
Hypothesis Hsize : In size_word size_words.

Lemma drink_name_lacks_k (ounces : option string) :
  (forall o, ounces = Some o -> digit_run o) ->
  lacks "k" (lower (drink_name text ounces size_word)) = true.
Proof.
  intros Hounces. unfold drink_name.
  destruct ounces as [o|].
  - pose proof (Hounces o eq_refl) as Ho.
    rewrite (digit_run_truthy o Ho). cbn [or_empty default].
    destruct (coffee_cues text); [now apply (volume_name_lacks_k "Iced Coffee ")|].
    destruct (contains "sprite" text); [now apply (volume_name_lacks_k "Sprite ")|].
    destruct (any_in _ text); now apply (volume_name_lacks_k "Coca-Cola ").
  - cbn [truthy].
    destruct (coffee_cues text); [reflexivity|].
    destruct (contains "sprite" text); [now apply sized_name_lacks_k|].
    destruct (any_in _ text); now apply sized_name_lacks_k.
Qed.

Lemma drink_name_embeds_ounces (o : string) :
  digit_run o ->
  contains (o +:+ " fl oz") (drink_name text (Some o) size_word) = true.
Proof.
  intros Ho. unfold drink_name.
  rewrite (digit_run_truthy o Ho). cbn [or_empty default].
  destruct (coffee_cues text); [apply contains_app_r, contains_self|].
  destruct (contains "sprite" text); [apply contains_app_r, contains_self|].
  destruct (any_in _ text); apply contains_app_r, contains_self.
Qed.

Lemma drink_name_no_coffee (ounces : option string) :
  (forall o, ounces = Some o -> digit_run o) ->
  coffee_cues text = false ->
  contains "Coffee" (drink_name text ounces size_word) = false.
Proof.
  intros Hounces Hc. unfold drink_name. rewrite Hc.
  destruct ounces as [o|].
  - pose proof (Hounces o eq_refl) as Ho.
    rewrite (digit_run_truthy o Ho). cbn [or_empty default].
    destruct (contains "sprite" text);
      [now apply (volume_name_no_coffee "Sprite")|].
    destruct (any_in _ text); now apply (volume_name_no_coffee "Coca-Cola").
  - cbn [truthy].
    destruct (contains "sprite" text); [now apply sized_name_no_coffee|].
    destruct (any_in _ text); now apply sized_name_no_coffee.
Qed.

Lemma drink_name_is_size (sw : string) :
  coffee_cues text = false -> size_word = Some sw ->
  drink_name text None size_word = sw.
Proof.
  intros Hc Hs. unfold drink_name. rewrite Hc, Hs. cbn [truthy].
  assert (T : forall d, or_else (Some sw) d = sw).
  { intros d. pose proof Hsize as H. rewrite Hs in H.
    size_cases H; first [discriminate H | injection H as <-; reflexivity]. }
  destruct (contains "sprite" text); [apply T|].
  destruct (any_in _ text); apply T.
Qed.

Lemma size_word_shape (sw : string) :
  size_word = Some sw ->
  exists f p l, is_space f = false /\ is_space l = false
                /\ sw = String f p +:+ String l "".
Proof.
  intros Hs. pose proof Hsize as H. rewrite Hs in H.
  size_cases H; [discriminate H | injection H as <- ..].
  - now exists "X"%char, "", "S"%char.
  - now exists "S"%char, "mal", "l"%char.
  - now exists "M"%char, "ediu", "m"%char.
  - now exists "L"%char, "arg", "e"%char.
  - now exists "X"%char, "", "L"%char.
Qed.

End DrinkNames.




(* ===================================================================== *)
(** ** The whole resolution: calls, cache and batches                    *)
(* ===================================================================== *)


Lemma bounded_weaken {A} (m : M A) (s k s' k' : nat) :
  (s <= s')%nat -> (k <= k')%nat -> bounded m s k -> bounded m s' k'.
Proof.
  intros Hs Hk H w. destruct (H w) as (l & E & T & L).
  exists l. split; [exact E|]. split; lia.
Qed.

Lemma bounded_ret {A} (a : A) : bounded (mret a) 0 0.
Proof.
  intros w. exists []. split; [apply extends_by_nil|]. split; reflexivity.
Qed.

Lemma bounded_bind {A B} (m : M A) (f : A -> M B) (s1 k1 s2 k2 : nat) :
  bounded m s1 k1 -> (forall a, bounded (f a) s2 k2) ->
  bounded (mbind' m f) (s1 + s2) (k1 + k2).
Proof.
  intros Hm Hf w. unfold mbind'. destruct (Hm w) as (l1 & E1 & T1 & L1).
  destruct (m w) as [[a|] w1]; cbn [snd] in E1.
  - destruct (Hf a w1) as (l2 & E2 & T2 & L2).
    exists (l1 ++ l2). split; [exact (extends_by_trans _ _ _ _ _ E1 E2)|].
    rewrite text_searches_app, length_app. split; lia.
  - exists l1. split; [exact E1|]. split; lia.
Qed.

Lemma bounded_try_or {A} (m : M A) (d : A) (s k : nat) :
  bounded m s k -> bounded (try_or m d) s k.
Proof.
  intros Hm w. unfold try_or. destruct (Hm w) as (l & E & T & L).
  exists l. destruct (m w) as [[a|] w1]; cbn [snd] in *; auto.
Qed.

Lemma total_ret {A} (a : A) : total (mret a).
Proof. intros w. now exists a. Qed.

Lemma total_bind {A B} (m : M A) (f : A -> M B) :
  total m -> (forall a, total (f a)) -> total (mbind' m f).
Proof.
  intros Hm Hf w. unfold mbind'. destruct (Hm w) as [a Ha].
  destruct (m w) as [[a'|] w1]; [apply Hf | discriminate Ha].
Qed.

Lemma total_try_or {A} (m : M A) (d : A) : total (try_or m d).
Proof.
  intros w. unfold try_or. destruct (m w) as [[a|] w1]; eauto.
Qed.

Section ResolutionBounds.
Variable net : nat -> Request -> Response.
Variable over_budget : nat -> bool.
Variable brand : option string.

Lemma instant_bounded (i d c : option string) (rq fb : option (list string))
    (q : string) :
  bounded (_instant_search_best net brand i d c rq fb q) 1 1.
Proof.
  intros w; destruct (instant_effect net brand i d c rq fb q w) as [o E];
    rewrite E.
  exists [InstantSearch q]. split; [reflexivity|]. split; reflexivity.
Qed.

Lemma natural_bounded (q : string) :
  bounded (_natural_search_best net brand q) 0 1
  /\ total (_natural_search_best net brand q).
Proof.
  split; intros w; destruct (natural_effect net brand q w) as (o & r & E & Hr);
    rewrite E.
  - exists [r]. split; [reflexivity|]. unfold text_searches.
    cbn [List.filter]. rewrite Hr. split; cbn; lia.
  - now exists o.
Qed.

Lemma fetch_bounded (item : Cand) (rb : bool) :
  bounded (_nutritionix_nutrients_from_item net item rb brand) 0 1.
Proof.
  intros w. destruct (fetch_effect net item rb brand w) as (l & E & L & T).
  exists l. split; [exact E|]. split; lia.
Qed.

Lemma seed_loop_bounded (i d c : option string) (rq fb : option (list string))
    (seeds : list string) (acc : option Cand * Z) :
  bounded (seed_loop net over_budget brand i d c rq fb seeds acc)
          (length seeds) (length seeds).
Proof.
  revert acc. induction seeds as [|q rest IH]; intros acc; cbn [seed_loop].
  - apply bounded_ret.
  - pose proof (instant_bounded i d c rq fb q) as Bi.
    assert (K : forall cand,
              bounded (match cand with
                       | None => seed_loop net over_budget brand i d c rq fb rest acc
                       | Some c0 =>
                           let sc := _score_candidate i d c rq fb c0 in
                           let acc0 := if snd acc <? sc then (Some c0, sc) else acc in
                           if _GOOD_SCORE_THRESHOLD <=? snd acc0
                           then mret (fst acc0)
                           else seed_loop net over_budget brand i d c rq fb rest acc0
                       end) (length rest) (length rest)).
    { intros [c0|]; [|apply IH]. cbv zeta.
      destruct (_GOOD_SCORE_THRESHOLD <=? _); [|apply IH].
      apply (bounded_weaken _ 0 0); [lia | lia | apply bounded_ret]. }
    intros w; destruct (over_budget (length (calls w))).
    + exists []. split; [apply extends_by_nil|]. split; cbn; lia.
    + apply (bounded_bind _ _ 1 1 (length rest) (length rest) Bi).
      intros cand. apply K.
Qed.

Lemma length_take_le {A} (n : nat) (l : list A) : (length (take n l) <= n)%nat.
Proof. rewrite length_take. lia. Qed.

Lemma search_item_bounded (i d c : option string) (rq fb : option (list string))
    (nq : option string) :
  bounded (_nutritionix_search_item net over_budget brand i d c rq fb nq) 9 9.
Proof.
  unfold _nutritionix_search_item.
  set (seeds := take _NUTRITIONIX_MAX_SEEDS (_generate_item_queries brand i d)).
  assert (Hs : (length seeds <= 8)%nat) by apply length_take_le.
  pose proof (seed_loop_bounded i d c rq fb seeds (None, - 10 ^ 9)) as Bs.
  assert (B1 : bounded (if truthy nq
                        then _instant_search_best net brand i d c rq fb (or_empty nq)
                        else mret None) 1 1).
  { destruct (truthy nq); [apply instant_bounded|].
    apply (bounded_weaken _ 0 0); [lia | lia | apply bounded_ret]. }
  apply (bounded_bind _ _ 1 1 8 8 B1). intros [c0|].
  - apply (bounded_weaken _ 0 0); [lia | lia | apply bounded_ret].
  - now apply (bounded_weaken _ (length seeds) (length seeds)).
Qed.

Lemma refine_loop_bounded (entry : Entry) (fuel : nat) (st : Attempt) :
  bounded (refine_loop net fuel brand entry st) 2 6.
Proof.
  intros w. destruct (refine_loop_effect net brand entry fuel st w)
    as (l & E & T & L & _).
  exists l. split; [exact E|]. split; lia.
Qed.

Lemma strict_retry_bounded (entry : Entry) (mt : option Cand)
    (n : option Macros) :
  bounded (strict_retry net brand entry mt n) 1 3
  /\ total (strict_retry net brand entry mt n).
Proof.
  unfold strict_retry. cbv zeta.
  assert (Z0 : forall r : option Cand * option Macros,
            bounded (mret r) 1 3 /\ total (mret r)).
  { intros r. split; [|apply total_ret].
    apply (bounded_weaken _ 0 0); [lia | lia | apply bounded_ret]. }
  destruct n as [m|]; [|apply Z0].
  destruct (_ && _ && _ && _); [|apply Z0].
  set (strict_q := or_empty brand +:+ " Cheeseburger").
  pose proof (instant_bounded (Some (or_empty (e_item_name entry)))
                (e_description entry) (e_category entry)
                (e_required_keywords entry) (e_forbidden_keywords entry) strict_q)
    as Bi.
  split; [|apply total_try_or].
  apply bounded_try_or.
  apply (bounded_bind _ _ 1 1 0 2 Bi). intros [c0|].
  - apply bounded_try_or.
    apply (bounded_bind _ _ 0 1 0 1 (fetch_bounded c0 true)).
    intros [m1|]; [apply (bounded_weaken _ 0 0); [lia | lia | apply bounded_ret]|].
    apply (bounded_bind _ _ 0 1 0 0 (proj1 (natural_bounded strict_q))).
    intros n2. apply bounded_ret.
  - apply (bounded_weaken _ 0 0); [lia | lia | apply bounded_ret].
Qed.

End ResolutionBounds.

Lemma stores_bind {A} (key : string) (m : M A) (f : A -> M Result)
    (s1 k1 s2 k2 : nat) :
  bounded m s1 k1 -> (forall a, stores key (f a) s2 k2) ->
  stores key (mbind' m f) (s1 + s2) (k1 + k2).
Proof.
  intros Hm Hf w. unfold mbind'. destruct (Hm w) as (l1 & E1 & T1 & L1).
  destruct (m w) as [[a|] w1]; cbn [snd] in E1; unfold extends_by in E1;
    subst w1.
  - destruct (Hf a (mkWorld (cache w) (calls w ++ l1))) as (l2 & E2 & T2 & L2 & C2).
    exists (l1 ++ l2). cbn [calls cache] in E2, C2.
    rewrite E2, text_searches_app, length_app, app_assoc.
    split; [reflexivity|]. split; [lia|]. split; [lia|]. exact C2.
  - exists l1. cbn [fst snd calls cache]. split; [reflexivity|].
    split; [lia|]. split; [lia | reflexivity].
Qed.

Lemma stores_final (key : string) (result : Result) :
  stores key (fun w' => (Ok result, mkWorld (<[key := result]> (cache w')) (calls w')))
         0 0.
Proof.
  intros w. exists []. cbn [fst snd calls cache]. rewrite app_nil_r.
  split; [reflexivity|]. split; [reflexivity|]. split; reflexivity.
Qed.

Section WholeResolution.
Variable net : nat -> Request -> Response.
Variable over_budget : nat -> bool.
Variable brand : option string.

(** One resolution, hit or miss: at most 20 outbound calls, at most 12 of
    them text searches; the cache changes only by the final store. *)
Lemma process_entry_effect (entry : Entry) (w : World) :
  exists l,
    calls (snd (process_entry net over_budget brand entry w)) = calls w ++ l
    /\ (text_searches l <= 12)%nat /\ (length l <= 20)%nat
    /\ match fst (process_entry net over_budget brand entry w) with
       | Ok r => cache (snd (process_entry net over_budget brand entry w))
                 !! key_of brand entry = Some r
                 /\ (cache (snd (process_entry net over_budget brand entry w))
                     = cache w
                     \/ cache (snd (process_entry net over_budget brand entry w))
                        = <[key_of brand entry := r]> (cache w))
       | Raised => cache (snd (process_entry net over_budget brand entry w))
                   = cache w
       end.
Proof.
  destruct (cache w !! key_of brand entry) as [cached|] eqn:Hk.
  - rewrite (process_entry_hit net over_budget brand entry w cached Hk).
    exists []. cbn [fst snd]. rewrite app_nil_r.
    split; [reflexivity|]. split; [cbn; lia|]. split; [cbn; lia|]. auto.
  - assert (S : exists l,
               calls (snd (process_entry net over_budget brand entry w))
               = calls w ++ l
               /\ (text_searches l <= 9 + (0 + (0 + (2 + (1 + 0)))))%nat
               /\ (length l <= 9 + (1 + (1 + (6 + (3 + 0)))))%nat
               /\ match fst (process_entry net over_budget brand entry w) with
                  | Ok r => cache (snd (process_entry net over_budget brand entry w))
                            = <[key_of brand entry := r]> (cache w)
                  | Raised => cache (snd (process_entry net over_budget brand entry w))
                              = cache w
                  end).
    { unfold process_entry. cbv zeta. unfold key_of in Hk |- *. rewrite Hk.
      revert w Hk. intros w _.
      apply stores_bind; [apply search_item_bounded|]. intros mt.
      apply stores_bind.
      { destruct mt as [c0|]; [destruct (cand_nonempty c0)|];
          first [apply fetch_bounded
                | apply (bounded_weaken _ 0 0); [lia | lia | apply bounded_ret]]. }
      intros n1. apply stores_bind.
      { destruct n1 as [m1|]; [|destruct (truthy (e_nutritionix_query entry))];
          first [apply natural_bounded
                | apply (bounded_weaken _ 0 0); [lia | lia | apply bounded_ret]]. }
      intros n2. apply stores_bind; [apply refine_loop_bounded|]. intros st.
      apply stores_bind; [apply strict_retry_bounded|]. intros mn.
      apply stores_final. }
    destruct S as (l & E & T & L & C). exists l.
    split; [exact E|]. split; [lia|]. split; [lia|].
    destruct (fst (process_entry net over_budget brand entry w)) as [r|];
      [|exact C].
    rewrite C. split; [apply lookup_insert_eq | now right].
Qed.

End WholeResolution.

Lemma cache_locked_empty (brand : option string) (l : list Request) :
  cache_locked brand (mkWorld ∅ l).
Proof. intros k r H. cbn [cache] in H. now rewrite lookup_empty in H. Qed.

Section Batches.
Variable net : nat -> Request -> Response.
Variable over_budget : nat -> bool.
Variable brand : option string.

Lemma run_tasks_length (entries : list Entry) (w : World) :
  length (fst (run_tasks net over_budget brand entries w)) = length entries.
Proof.
  revert w. induction entries as [|e rest IH]; intros w; [reflexivity|].
  cbn [run_tasks]. destruct (process_entry net over_budget brand e w) as [o w1].
  specialize (IH w1).
  destruct (run_tasks net over_budget brand rest w1) as [os w2].
  cbn [fst length] in *. now rewrite IH.
Qed.

Lemma gather_ok (futures : list (Outcome Result)) (rs : list Result) :
  gather futures = Ok rs -> futures = map Ok rs.
Proof.
  revert rs. induction futures as [|[r|] rest IH]; intros rs; cbn [gather].
  - now intros [= <-].
  - destruct (gather rest) as [rs'|]; [|discriminate].
    intros [= <-]. cbn [map]. now rewrite (IH rs' eq_refl).
  - discriminate.
Qed.

(** A batch that returns holds exactly one result per input item. *)
Lemma batch_one_result_per_item (itemized : Itemized) (w w' : World) (b : Batch) :
  restaurant_name itemized = brand ->
  fetch_nutritionix_macros net over_budget itemized w = (Ok b, w') ->
  length (results b) = length (items itemized).
Proof.
  intros Hb. unfold fetch_nutritionix_macros. rewrite Hb.
  pose proof (run_tasks_length (items itemized) w) as Hl.
  destruct (run_tasks net over_budget brand (items itemized) w) as [fs w1].
  cbn [fst] in Hl.
  destruct (gather fs) as [rs|] eqn:G; [|discriminate].
  intros [= <- _]. cbn [results]. apply gather_ok in G.
  rewrite G, length_map in Hl. exact Hl.
Qed.

Hypothesis Hspecific : _is_generic_brand brand = false.

Lemma process_entry_keeps_lock (entry : Entry) (w : World) :
  cache_locked brand w ->
  cache_locked brand (snd (process_entry net over_budget brand entry w))
  /\ forall r, fst (process_entry net over_budget brand entry w) = Ok r ->
               locked_opt brand (r_macros r).
Proof.
  intros Hw. destruct (cache w !! key_of brand entry) as [cached|] eqn:Hk.
  - rewrite (process_entry_hit net over_budget brand entry w cached Hk).
    cbn [fst snd]. split; [exact Hw|]. intros r [= <-]. exact (Hw _ _ Hk).
  - destruct (process_entry_effect net over_budget brand entry w)
      as (l & _ & _ & _ & C).
    destruct (process_entry net over_budget brand entry w) as [[r|] w1] eqn:E;
      cbn [fst snd] in *.
    + pose proof (process_entry_locked net over_budget brand Hspecific
                    entry w w1 r Hk E) as Hr.
      split; [|now intros r' [= <-]].
      destruct C as [_ [C|C]]; intros k r'; rewrite C; [apply Hw|].
      destruct (decide (key_of brand entry = k)) as [<-|Hne].
      * rewrite lookup_insert_eq. now intros [= <-].
      * rewrite lookup_insert_ne by exact Hne. apply Hw.
    + split; [|intros r H; discriminate H].
      intros k r. rewrite C. apply Hw.
Qed.

Lemma run_tasks_keep_lock (entries : list Entry) (w : World) :
  cache_locked brand w ->
  cache_locked brand (snd (run_tasks net over_budget brand entries w))
  /\ forall r, In (Ok r) (fst (run_tasks net over_budget brand entries w)) ->
               locked_opt brand (r_macros r).
Proof.
  revert w. induction entries as [|e rest IH]; intros w Hw; cbn [run_tasks].
  - split; [exact Hw | intros r []].
  - destruct (process_entry_keeps_lock e w Hw) as [H1 H2].
    destruct (process_entry net over_budget brand e w) as [o w1].
    cbn [fst snd] in H1, H2. destruct (IH w1 H1) as [H3 H4].
    destruct (run_tasks net over_budget brand rest w1) as [os w2].
    cbn [fst snd] in *. split; [exact H3|].
    intros r [->|Hin]; [now apply H2 | now apply H4].
Qed.

(** From a cache of brand-locked records (an empty one, for instance), every
    result of a batch is brand-locked, cache hits included, and so is the
    cache the batch leaves. *)
Lemma batch_locked (itemized : Itemized) (w w' : World) (b : Batch) :
  restaurant_name itemized = brand ->
  cache_locked brand w ->
  fetch_nutritionix_macros net over_budget itemized w = (Ok b, w') ->
  cache_locked brand w'
  /\ forall r, In r (results b) -> locked_opt brand (r_macros r).
Proof.
  intros Hb Hw. unfold fetch_nutritionix_macros. rewrite Hb.
  destruct (run_tasks_keep_lock (items itemized) w Hw) as [H1 H2].
  destruct (run_tasks net over_budget brand (items itemized) w) as [fs w1].
  cbn [fst snd] in H1, H2.
  destruct (gather fs) as [rs|] eqn:G; [|discriminate].
  intros [= <- <-]. cbn [results]. split; [exact H1|].
  intros r Hin. apply H2. apply gather_ok in G. rewrite G.
  now apply in_map.
Qed.

End Batches.

(* ===================================================================== *)
(** ** Brand lock: what the resolver guarantees                          *)
(* ===================================================================== *)

(** C1 as stated fails: under the specific brand "BrandX" the resolver
    accepts a record that names no brand, whose normalised brand is empty
    and so differs from "brandx". *)
Lemma C1_unbranded_record_accepted :
  _is_generic_brand (Some "BrandX") = false
  /\ exists r m,
       fst (process_entry unbranded_catalog never_over_budget (Some "BrandX")
              (order "Fries" 1) world0) = Ok r
       /\ r_macros r = Some m
       /\ _norm_brand (m_brand_name m) <> _norm_brand (Some "BrandX").
Proof.
  split; [reflexivity|].
  eexists; eexists. split; [vm_compute; reflexivity|].
  split; [reflexivity|]. vm_compute. discriminate.
Qed.

(** C1, amended: under a specific (non-generic) brand, every nutrient record
    the resolver accepts that names a brand has that brand, after
    normalisation, equal to the normalised requested brand.  This holds for
    the fetch by identifier and the natural-language fallback
    ([_nutritionix_nutrients_from_item]), for the natural search
    ([_natural_search_best]), and for the record of every item that
    [process_entry] resolves past the cache; hence also for every result of
    a batch started on an empty cache, cache hits included. *)
Theorem C1_brand_lock_on_named_records
    (net : nat -> Request -> Response) (over_budget : nat -> bool)
    (brand : option string)
    (Hspecific : _is_generic_brand brand = false) :
  (forall item w w' m,
      _nutritionix_nutrients_from_item net item (truthy brand) brand w
      = (Ok (Some m), w') ->
      truthy (m_brand_name m) = true ->
      _norm_brand (m_brand_name m) = _norm_brand brand)
  /\ (forall q w w' m,
         _natural_search_best net brand q w = (Ok (Some m), w') ->
         truthy (m_brand_name m) = true ->
         _norm_brand (m_brand_name m) = _norm_brand brand)
  /\ (forall entry w w' r m,
         cache w !! key_of brand entry = None ->
         process_entry net over_budget brand entry w = (Ok r, w') ->
         r_macros r = Some m ->
         truthy (m_brand_name m) = true ->
         _norm_brand (m_brand_name m) = _norm_brand brand)
  /\ (forall items calls0 w' b r m,
         fetch_nutritionix_macros net over_budget (mkItemized brand items)
           (mkWorld ∅ calls0) = (Ok b, w') ->
         In r (results b) ->
         r_macros r = Some m ->
         truthy (m_brand_name m) = true ->
         _norm_brand (m_brand_name m) = _norm_brand brand).
Proof.
  split; [|split; [|split]].
  - intros item w w' m H. rewrite (specific_truthy _ Hspecific) in H.
    exact (fetch_locked net brand Hspecific item w w' _ H m eq_refl).
  - intros q w w' m H.
    exact (natural_locked net brand Hspecific q w w' _ H m eq_refl).
  - intros entry w w' r m Hmiss H Hm.
    exact (process_entry_locked net over_budget brand Hspecific entry w w' r
             Hmiss H m Hm).
  - intros items calls0 w' b r m H Hin Hm.
    destruct (batch_locked net over_budget brand Hspecific
                (mkItemized brand items) (mkWorld ∅ calls0) w' b eq_refl
                (cache_locked_empty brand calls0) H) as [_ Hall].
    exact (Hall r Hin m Hm).
Qed.

(** A closed instance: the "Fries" record that the BrandX catalog returns
    names the brand "BrandX", and the lock holds for it. *)
Lemma C1_brand_lock_on_named_records_witness :
  _is_generic_brand (Some "BrandX") = false
  /\ exists r m,
       fst (process_entry brandx_catalog never_over_budget (Some "BrandX")
              (order "Fries" 1) world0) = Ok r
       /\ r_macros r = Some m
       /\ truthy (m_brand_name m) = true
       /\ _norm_brand (m_brand_name m) = _norm_brand (Some "BrandX").
Proof.
  split; [reflexivity|].
  eexists; eexists. split; [vm_compute; reflexivity|].
  split; [reflexivity|]. split; [reflexivity|].
  apply (C1_brand_lock_on_named_records brandx_catalog never_over_budget
           (Some "BrandX") eq_refl)
    with (entry := order "Fries" 1) (w := world0)
         (w' := snd (process_entry brandx_catalog never_over_budget
                       (Some "BrandX") (order "Fries" 1) world0))
         (r := mkResult (Some "Fries") None 1
                 (Some (hit "BrandX Fries" "BrandX" (Some "BrandX Fries")))
                 (Some (_extract_macro_fields
                          (record "BrandX Fries" (Some "BrandX") 300))));
    [reflexivity | vm_compute; reflexivity | reflexivity | reflexivity].
Defined.

(* ===================================================================== *)
(** ** Further properties: normalisation and the cache key               *)
(* ===================================================================== *)

Lemma lower_char_fixed (c : ascii) : is_lower_alnum c = true -> lower_char c = c.
Proof. destruct c as [[] [] [] [] [] [] [] []]; vm_compute; congruence. Qed.

Lemma lower_alnum_of_lower (c : ascii) :
  is_lower_alnum (lower_char c) = true -> lower_char (lower_char c) = lower_char c.
Proof. apply lower_char_fixed. Qed.

Lemma norm_raw_some (x : string) :
  _norm_raw (Some x) = filter_str is_lower_alnum (lower x).
Proof. unfold _norm_raw. destruct x; reflexivity. Qed.

Lemma filter_str_app (p : ascii -> bool) (a b : string) :
  filter_str p (a +:+ b) = filter_str p a +:+ filter_str p b.
Proof.
  induction a as [|c a IH]; [reflexivity|]. rewrite append_cons.
  cbn [filter_str]. destruct (p c); [now rewrite append_cons, IH | exact IH].
Qed.

Lemma filter_lower_fixed (s : string) :
  forall_str is_lower_alnum s = true ->
  filter_str is_lower_alnum (lower s) = s.
Proof.
  unfold lower. induction s as [|c s IH]; [reflexivity|]. cbn [forall_str map_str].
  intros [Hc Hs]%andb_prop. rewrite (lower_char_fixed c Hc). cbn [filter_str].
  now rewrite Hc, (IH Hs).
Qed.

Lemma norm_raw_fixed (s : string) :
  forall_str is_lower_alnum s = true -> _norm_raw (Some s) = s.
Proof. intros H. rewrite norm_raw_some. now apply filter_lower_fixed. Qed.

(** X1: [_norm_raw] returns only characters of [a-z0-9]; it is idempotent;
    and it distributes over concatenation, so separators, punctuation and
    case never matter. *)
Theorem X1_norm_raw_canonical (s : option string) (a b : string) :
  forall_str is_lower_alnum (_norm_raw s) = true
  /\ _norm_raw (Some (_norm_raw s)) = _norm_raw s
  /\ _norm_raw (Some (a +:+ b)) = _norm_raw (Some a) +:+ _norm_raw (Some b)
  /\ _norm_raw (Some (a +:+ " " +:+ b)) = _norm_raw (Some (a +:+ b)).
Proof.
  split; [apply forall_str_norm_raw|].
  split; [apply norm_raw_fixed, forall_str_norm_raw|].
  split.
  - now rewrite !norm_raw_some, lower_app, filter_str_app.
  - now rewrite !norm_raw_some, !lower_app, !filter_str_app.
Qed.

Lemma assoc_get_in (k v : string) (l : list (string * string)) :
  assoc_get k l = Some v -> In v (map snd l).
Proof.
  induction l as [|[k' v'] l IH]; cbn [assoc_get map snd]; [discriminate|].
  destruct (String.eqb k k'); [intros [= <-]; now left | intros H; right; auto].
Qed.

Lemma alias_value_fixed (v : string) :
  In v (map snd brand_aliases) -> _norm_brand (Some v) = v.
Proof.
  cbn [map snd brand_aliases]. intros H.
  repeat (destruct H as [<- | H]; [reflexivity|]). destruct H.
Qed.

Lemma norm_brand_alnum (s : option string) :
  forall_str is_lower_alnum (_norm_brand s) = true.
Proof.
  unfold _norm_brand. cbv zeta.
  destruct (assoc_get (_norm_raw s) brand_aliases) as [v|] eqn:E; cbn [default];
    [|apply forall_str_norm_raw].
  apply assoc_get_in in E. cbn [map snd brand_aliases] in E.
  repeat (destruct E as [<- | E]; [reflexivity|]). destruct E.
Qed.

(** X2: [_norm_brand] is idempotent (every alias target is its own alias or
    no alias at all) and returns only characters of [a-z0-9]. *)
Theorem X2_norm_brand_canonical (s : option string) :
  _norm_brand (Some (_norm_brand s)) = _norm_brand s
  /\ forall_str is_lower_alnum (_norm_brand s) = true.
Proof.
  split; [|apply norm_brand_alnum].
  unfold _norm_brand at 2 3. cbv zeta.
  destruct (assoc_get (_norm_raw s) brand_aliases) as [v|] eqn:E; cbn [default].
  - apply alias_value_fixed. now apply assoc_get_in in E.
  - unfold _norm_brand. cbv zeta.
    rewrite (norm_raw_fixed _ (forall_str_norm_raw s)), E. reflexivity.
Qed.

Lemma append_separator_inj (sep : ascii) (a b x y : string) :
  lacks sep a = true -> lacks sep b = true ->
  a +:+ String sep x = b +:+ String sep y -> a = b /\ x = y.
Proof.
  revert b. induction a as [|c a IH]; intros [|d b] Ha Hb;
    rewrite ?append_nil_l, ?append_cons; cbn [lacks forall_str] in Ha, Hb.
  - now intros [= ->].
  - intros [= <- _]. rewrite Ascii.eqb_refl in Hb. discriminate Hb.
  - intros [= -> _]. rewrite Ascii.eqb_refl in Ha. discriminate Ha.
  - apply andb_prop in Ha as [_ Ha]. apply andb_prop in Hb as [_ Hb].
    intros [= -> H]. destruct (IH b Ha Hb H) as [-> ->]. now split.
Qed.

Lemma alnum_lacks_bar (s : string) :
  forall_str is_lower_alnum s = true -> lacks "|" s = true.
Proof.
  apply forall_str_impl. intros c Hc.
  destruct (Ascii.eqb_spec c "|") as [->|]; [discriminate Hc | reflexivity].
Qed.

(** X3: two items share a cache key only if their brands normalise to the
    same string; and with the same name and description they share it
    exactly then (so alias spellings of one brand hit the same entry). *)
Theorem X3_cache_key_separates_brands (b1 b2 n1 n2 d1 d2 : option string) :
  (_cache_key_for_item b1 n1 d1 = _cache_key_for_item b2 n2 d2 ->
   _norm_brand (Some (or_empty b1)) = _norm_brand (Some (or_empty b2)))
  /\ (_cache_key_for_item b1 n1 d1 = _cache_key_for_item b2 n1 d1 <->
      _norm_brand (Some (or_empty b1)) = _norm_brand (Some (or_empty b2))).
Proof.
  assert (K : forall n n' d d',
             _cache_key_for_item b1 n d = _cache_key_for_item b2 n' d' ->
             _norm_brand (Some (or_empty b1)) = _norm_brand (Some (or_empty b2))).
  { intros n n' d d'. unfold _cache_key_for_item. intros H.
    apply (append_separator_inj "|") in H as [H _];
      [exact H | apply alnum_lacks_bar, norm_brand_alnum ..]. }
  split; [apply K|]. split; [apply K|].
  unfold _cache_key_for_item. now intros ->.
Qed.

(* ===================================================================== *)
(** ** Further properties: qualifiers and keyword expectations           *)
(* ===================================================================== *)

Lemma digits_1_3_short (st st' : Regex.St) (o : string) :
  In (o, st') (Regex.digits_1_3 st) -> short_digits o.
Proof.
  unfold Regex.digits_1_3, Regex.alt. intros H.
  apply in_bind in H as (d1 & st1 & H1 & H). apply in_char in H1.
  apply in_app_or in H as [H|H].
  - apply in_bind in H as (d2 & st2 & H2 & H). apply in_char in H2.
    apply in_app_or in H as [H|H].
    + apply in_bind in H as (d3 & st3 & H3 & H). apply in_char in H3.
      apply in_ret in H as ->. split; [cbn; now rewrite H1, H2, H3 | cbn; lia].
    + apply in_ret in H as ->. split; [cbn; now rewrite H1, H2 | cbn; lia].
  - apply in_ret in H as ->. split; [cbn; now rewrite H1 | cbn; lia].
Qed.

Lemma in_lit (p w : string) (st st' : Regex.St) :
  In (w, st') (Regex.lit p st) -> w = p.
Proof.
  unfold Regex.lit. destruct (Regex.lit_from p st.1 st.2); [|intros []].
  now intros [[= <- _]|[]].
Qed.

Lemma in_alts (ps : list string) (w : string) (st st' : Regex.St) :
  In (w, st') (Regex.alts ps st) -> In w ps.
Proof.
  unfold Regex.alts. intros H. apply in_flat_map in H as (p & Hp & H).
  apply in_lit in H as ->. exact Hp.
Qed.

Ltac drop_bind H :=
  let x := fresh in let st := fresh in let Hx := fresh in
  apply in_bind in H as (x & st & Hx & H); clear Hx.

Lemma count_short (s o : string) :
  Regex.search Regex.re_count s = Some o -> short_digits o.
Proof.
  unfold Regex.search. intros H. apply search_from_in in H as (st & st' & H).
  unfold Regex.re_count in H. drop_bind H.
  apply in_bind in H as (d & st1 & Hd & H).
  do 3 drop_bind H. apply in_ret in H as ->.
  exact (digits_1_3_short _ _ _ Hd).
Qed.

Lemma count_paren_short (s o : string) :
  Regex.search Regex.re_count_paren s = Some o -> short_digits o.
Proof.
  unfold Regex.search. intros H. apply search_from_in in H as (st & st' & H).
  unfold Regex.re_count_paren in H. drop_bind H.
  apply in_bind in H as (d & st1 & Hd & H).
  do 3 drop_bind H. apply in_ret in H as ->.
  exact (digits_1_3_short _ _ _ Hd).
Qed.

Lemma ounces_short (s o : string) :
  Regex.search Regex.re_ounces s = Some o -> short_digits o.
Proof.
  unfold Regex.search. intros H. apply search_from_in in H as (st & st' & H).
  unfold Regex.re_ounces in H. drop_bind H.
  apply in_bind in H as (d & st1 & Hd & H).
  do 5 drop_bind H. apply in_ret in H as ->.
  exact (digits_1_3_short _ _ _ Hd).
Qed.

Lemma size_titled (s : string) (z : string) :
  title <$> Regex.search Regex.re_size s = Some z -> In z size_names.
Proof.
  destruct (Regex.search Regex.re_size s) as [w|] eqn:E; [|discriminate].
  cbn [fmap option_fmap option_map]. intros [= <-].
  unfold Regex.search in E. apply search_from_in in E as (st & st' & H).
  unfold Regex.re_size in H. drop_bind H.
  apply in_bind in H as (w' & st1 & Hw & H).
  drop_bind H. apply in_ret in H as ->. apply in_alts in Hw.
  cbn [In] in Hw. unfold size_names.
  repeat (destruct Hw as [<- | Hw]; [cbn; tauto|]). destruct Hw.
Qed.

(** X4: whatever the text, the qualifiers extracted from an item and from a
    candidate name are well formed: a count or a volume is a run of one to
    three decimal digits, a size is "Kids", "Small", "Medium" or "Large". *)
Theorem X4_qualifiers_well_formed (item_name description category food_name : option string) :
  qualifiers_well_formed (_parse_expected_from_item item_name description category)
  /\ qualifiers_well_formed (_parse_candidate_modifiers food_name).
Proof.
  split.
  - unfold qualifiers_well_formed, _parse_expected_from_item. cbv zeta.
    cbn [q_count q_ounces q_size]. split; [|split].
    + intros o. destruct (Regex.search Regex.re_count _) as [d|] eqn:E.
      * intros [= <-]. exact (count_short _ _ E).
      * apply count_paren_short.
    + intros o. apply ounces_short.
    + intros z. apply size_titled.
  - unfold qualifiers_well_formed, _parse_candidate_modifiers. cbv zeta.
    cbn [q_count q_ounces q_size]. split; [|split].
    + intros o. apply count_short.
    + intros o. apply ounces_short.
    + intros z. apply size_titled.
Qed.

Lemma mem_true_iff (w : string) (l : list string) : mem w l = true <-> In w l.
Proof.
  unfold mem. rewrite existsb_exists. split.
  - intros (x & Hx & E). apply String.eqb_eq in E as ->. exact Hx.
  - intros H. exists w. split; [exact H | apply String.eqb_refl].
Qed.

Lemma NoDup_snoc (l : list string) (w : string) :
  List.NoDup l -> ~ In w l -> List.NoDup (l ++ [w]).
Proof.
  induction 1 as [|x l Hx Hl IH]; intros Hw; cbn [app].
  - constructor; [intros [] | constructor].
  - constructor.
    + rewrite in_app_iff. cbn [In]. intros [H|[H|[]]]; [tauto|].
      apply Hw. now left.
    + apply IH. intros H. apply Hw. now right.
Qed.

Lemma add_kw_spec (l : list string) (w : string) :
  (List.NoDup l -> List.NoDup (add_kw l w))
  /\ (forall x, In x (add_kw l w) <-> In x l \/ x = w).
Proof.
  unfold add_kw. destruct (mem w l) eqn:E.
  - apply mem_true_iff in E. split; [trivial|].
    intros x. split; [tauto | intros [H| ->]; assumption].
  - split.
    + intros H. apply NoDup_snoc; [exact H|].
      intros Hin. apply mem_true_iff in Hin. congruence.
    + intros x. rewrite in_app_iff. cbn [In]. intuition congruence.
Qed.

Lemma add_kws_spec (ws l : list string) :
  (List.NoDup l -> List.NoDup (add_kws l ws))
  /\ (forall x, In x (add_kws l ws) <-> In x l \/ In x ws).
Proof.
  unfold add_kws. revert l. induction ws as [|w ws IH]; intros l; cbn [fold_left].
  - split; [trivial | intros x; cbn [In]; tauto].
  - destruct (IH (add_kw l w)) as [N I]. destruct (add_kw_spec l w) as [N1 I1].
    split; [auto|]. intros x. rewrite I, I1. cbn [In]. intuition congruence.
Qed.

Lemma exp_when_ok (b : bool) (incs excs i0 x0 : list string) (e : Expectations) :
  expectations_ok i0 x0 e -> expectations_ok i0 x0 (exp_when b incs excs e).
Proof.
  intros (Ni & Nx & Hi & Hx). unfold exp_when. destruct b; [|repeat split; auto].
  destruct (add_kws_spec incs (include e)) as [N1 I1].
  destruct (add_kws_spec excs (exclude e)) as [N2 I2].
  repeat split; cbn [include exclude]; auto;
    intros x H; [apply I1 | apply I2]; left; auto.
Qed.

(** X5: the keyword lists of [_derive_expectations] never hold a keyword
    twice; the exclude list always holds the four dessert and dip keywords;
    every caller-required keyword, lower-cased, is in the include list and
    every caller-forbidden one in the exclude list. *)
Theorem X5_expectations_lists (item_name category : option string)
    (required forbidden : option (list string)) :
  let e := _derive_expectations item_name category required forbidden in
  List.NoDup (include e) /\ List.NoDup (exclude e)
  /\ (forall x, In x base_excludes -> In x (exclude e))
  /\ (forall ks k, required = Some ks -> In k ks -> In (lower k) (include e))
  /\ (forall ks k, forbidden = Some ks -> In k ks -> In (lower k) (exclude e)).
Proof.
  cbv zeta. unfold _derive_expectations. cbv zeta.
  match goal with
  | |- context [match required with Some _ => _ | None => ?e0 end] =>
      assert (H0 : expectations_ok [] base_excludes e0)
  end.
  { repeat apply exp_when_ok. unfold expectations_ok, base_excludes.
    cbn [include exclude]. repeat split; auto.
    - constructor.
    - repeat constructor; cbn [In]; intuition discriminate. }
  match goal with
  | H : expectations_ok _ _ ?e0 |- _ => set (e := e0) in *
  end.
  destruct H0 as (Ni & Nx & _ & Hx).
  destruct (add_kws_spec (map lower (default [] required)) (include e)) as [N1 I1].
  destruct (add_kws_spec (map lower (default [] forbidden)) (exclude e)) as [N2 I2].
  destruct required as [rs|], forbidden as [fs|]; cbn [include exclude default] in *;
    repeat split; auto;
    try (intros ks k [= <-] Hk);
    try (intros ks k Hd; discriminate Hd);
    try (apply I1; right; now apply in_map);
    try (apply I2; right; now apply in_map);
    try (intros x Hin; apply I2; left; now apply Hx).
Qed.

(* ===================================================================== *)
(** ** Further properties: the score                                     *)
(* ===================================================================== *)

Lemma token_overlap_range (item_name : option string) (food : string) :
  0 <= token_overlap item_name food <= 1.
Proof. rewrite token_overlap_is_equality_test. destruct (_ && _); lia. Qed.

(** X6: the token-overlap component of the score is 1 when the item name
    and the candidate food are equal after [_norm_raw] and not empty, and 0
    in every other case; it never exceeds 1. *)
Theorem X6_token_overlap_is_zero_or_one (item_name : option string) (food : string) :
  token_overlap item_name food
  = (if nonempty (_norm_raw item_name)
        && String.eqb (_norm_raw item_name) (_norm_raw (Some food))
     then 1 else 0)
  /\ 0 <= token_overlap item_name food <= 1.
Proof.
  split; [apply token_overlap_is_equality_test | apply token_overlap_range].
Qed.

Lemma filter_length_le {A} (f : A -> bool) (l : list A) :
  (length (List.filter f l) <= length l)%nat.
Proof.
  induction l as [|x l IH]; [reflexivity|]. cbn [List.filter].
  destruct (f x); cbn [length]; lia.
Qed.

Lemma count_found_range (kws : list string) (food : string) :
  0 <= count_found kws food <= Z.of_nat (length kws).
Proof.
  unfold count_found.
  pose proof (filter_length_le (fun kw => nonempty kw && contains kw food) kws).
  lia.
Qed.

Lemma description_assist_range (d : option string) (e : Expectations) (food : string) :
  0 <= description_assist d e food <= Z.of_nat (length (include e)).
Proof.
  unfold description_assist. destruct (truthy d); [|lia].
  pose proof (filter_length_le
                (fun kw => nonempty kw && contains kw (lower (or_empty d))
                           && contains kw food) (include e)).
  lia.
Qed.

Lemma qualifier_penalty_range (expected mods : Qualifiers) :
  0 <= qualifier_penalty expected mods <= 25.
Proof.
  unfold qualifier_penalty.
  destruct (both_differ (q_count expected) (q_count mods)),
           (both_differ (q_size expected) (q_size mods)),
           (both_differ (q_ounces expected) (q_ounces mods)),
           (q_drink_type expected) as [[]|], (q_drink_type mods) as [[]|]; lia.
Qed.

Lemma burger_penalty_range (item_name : option string) (food : string) :
  0 <= burger_penalty item_name food <= 36.
Proof.
  unfold burger_penalty. cbv zeta.
  repeat match goal with
         | |- context [if ?b then _ else _] => destruct b
         end; lia.
Qed.

(** X7: the score of a candidate lies between [-5 * #exclude - 61] and
    [4 * #include + 1], where the keyword lists are those derived for the
    item: every gain comes from include keywords (3 in the name, 1 more with
    the description) and one point of overlap. *)
Theorem X7_score_bounds (item_name description category : option string)
    (required forbidden : option (list string)) (cand : Cand) :
  let e := _derive_expectations item_name category required forbidden in
  - 5 * Z.of_nat (length (exclude e)) - 61
  <= _score_candidate item_name description category required forbidden cand
  <= 4 * Z.of_nat (length (include e)) + 1.
Proof.
  cbv zeta. unfold _score_candidate. cbv zeta.
  set (e := _derive_expectations item_name category required forbidden).
  set (food := lower (or_empty (c_food_name cand))).
  pose proof (count_found_range (include e) food).
  pose proof (count_found_range (exclude e) food).
  pose proof (token_overlap_range item_name food).
  pose proof (description_assist_range description e food).
  pose proof (qualifier_penalty_range
                (_parse_expected_from_item item_name description category)
                (_parse_candidate_modifiers (c_food_name cand))).
  pose proof (burger_penalty_range item_name food).
  lia.
Qed.

Lemma exp_when_keeps_exclude (b : bool) (incs excs : list string)
    (e : Expectations) (x : string) :
  In x (exclude e) -> In x (exclude (exp_when b incs excs e)).
Proof.
  unfold exp_when. destruct b; [|trivial]. cbn [exclude]. intros H.
  apply (proj2 (add_kws_spec excs (exclude e))). now left.
Qed.

Lemma exp_when_adds_exclude (incs excs : list string) (e : Expectations)
    (x : string) :
  In x excs -> In x (exclude (exp_when true incs excs e)).
Proof.
  cbn [exp_when exclude]. intros H.
  apply (proj2 (add_kws_spec excs (exclude e))). now right.
Qed.

(** A drink item always excludes coffee. *)
Lemma drink_excludes_coffee (item_name category : option string)
    (required forbidden : option (list string)) :
  category_is category "drink" = true ->
  In "coffee" (exclude (_derive_expectations item_name category required forbidden)).
Proof.
  intros Hd. unfold _derive_expectations. cbv zeta. rewrite Hd. cbn [orb].
  assert (K : forall e, In "coffee" (exclude e) ->
                        In "coffee"
                          (exclude
                             (match forbidden with
                              | Some ks => mkExp (include
                                             (match required with
                                              | Some ks0 => mkExp (add_kws (include e) (map lower ks0)) (exclude e)
                                              | None => e
                                              end))
                                             (add_kws (exclude
                                               (match required with
                                                | Some ks0 => mkExp (add_kws (include e) (map lower ks0)) (exclude e)
                                                | None => e
                                                end)) (map lower ks))
                              | None => match required with
                                        | Some ks0 => mkExp (add_kws (include e) (map lower ks0)) (exclude e)
                                        | None => e
                                        end
                              end))).
  { intros e He. destruct required, forbidden; cbn [include exclude]; try exact He;
      apply (proj2 (add_kws_spec _ _)); now left. }
  apply K. do 2 apply exp_when_keeps_exclude. apply exp_when_adds_exclude.
  cbn [In]. tauto.
Qed.

Lemma count_found_positive (kws : list string) (k food : string) :
  In k kws -> nonempty k = true -> contains k food = true ->
  1 <= count_found kws food.
Proof.
  intros Hin Hk Hc. unfold count_found.
  assert (H : In k (List.filter (fun kw => nonempty kw && contains kw food) kws)).
  { apply filter_In. split; [exact Hin | now rewrite Hk, Hc]. }
  destruct (List.filter _ kws); [destruct H | cbn [length]; lia].
Qed.

Lemma any_in_true (ks : list string) (k s : string) :
  In k ks -> contains k s = true -> any_in ks s = true.
Proof.
  intros Hin Hc. unfold any_in. apply existsb_exists. now exists k.
Qed.

(** X8: for an item of category "drink" whose name and description carry no
    coffee word, a candidate whose name mentions coffee loses at least 17
    points (5 as an excluded keyword, 12 as the wrong drink type): its score
    is at most [4 * #include - 16]. *)
Theorem X8_coffee_candidate_for_soft_drink
    (item_name description category : option string)
    (required forbidden : option (list string)) (cand : Cand)
    (Hdrink : category_is category "drink" = true)
    (Hitem : any_in coffee_words
               (lower (or_empty item_name +:+ " " +:+ or_empty description)) = false)
    (Hcand : contains "coffee" (lower (or_empty (c_food_name cand))) = true) :
  _score_candidate item_name description category required forbidden cand
  <= 4 * Z.of_nat (length (include (_derive_expectations item_name category
                                      required forbidden))) - 16.
Proof.
  unfold _score_candidate. cbv zeta.
  set (e := _derive_expectations item_name category required forbidden).
  set (food := lower (or_empty (c_food_name cand))) in *.
  pose proof (count_found_range (include e) food).
  pose proof (count_found_positive (exclude e) "coffee" food
                (drink_excludes_coffee _ _ _ _ Hdrink) eq_refl Hcand).
  pose proof (token_overlap_range item_name food).
  pose proof (description_assist_range description e food).
  pose proof (burger_penalty_range item_name food).
  assert (Hq : 12 <= qualifier_penalty
                       (_parse_expected_from_item item_name description category)
                       (_parse_candidate_modifiers (c_food_name cand))).
  { unfold qualifier_penalty, _parse_expected_from_item, _parse_candidate_modifiers.
    cbv zeta. cbn [q_count q_size q_ounces q_drink_type].
    rewrite Hdrink, Hitem. cbn [orb].
    fold food. rewrite (any_in_true coffee_words "coffee" food) by
      (first [exact Hcand | cbn; tauto]).
    repeat match goal with
           | |- context [if ?b then _ else _] => destruct b
           end; lia. }
  lia.
Qed.

Lemma X8_coffee_candidate_for_soft_drink_witness :
  _score_candidate (Some "Cola") (Some "large cup") (Some "drink") None None
    (hit "Iced Coffee" "BrandX" None)
  <= 4 * Z.of_nat (length (include (_derive_expectations (Some "Cola")
                                      (Some "drink") None None))) - 16.
Proof.
  apply X8_coffee_candidate_for_soft_drink; reflexivity.
Defined.

(* ===================================================================== *)
(** ** Further properties: the query composer                            *)
(* ===================================================================== *)

(** X9: [_title_size_from_enum] never returns a size that reads "UNKNOWN"
    (in any case, with any outer spaces), and applying it to its own result
    changes nothing. *)
Theorem X9_title_size_never_unknown (size_enum : option string) :
  (forall z, _title_size_from_enum size_enum = Some z ->
             upper (strip z) <> "UNKNOWN")
  /\ _title_size_from_enum (_title_size_from_enum size_enum)
     = _title_size_from_enum size_enum.
Proof.
  unfold _title_size_from_enum at 1 3 4.
  destruct (negb (truthy size_enum)) eqn:Ht; [split; [discriminate | reflexivity]|].
  cbv zeta.
  destruct (String.eqb_spec (upper (strip (or_empty size_enum))) "XS");
    [split; [intros z [= <-]; discriminate | reflexivity]|].
  destruct (String.eqb_spec (upper (strip (or_empty size_enum))) "S");
    [split; [intros z [= <-]; discriminate | reflexivity]|].
  destruct (String.eqb_spec (upper (strip (or_empty size_enum))) "M");
    [split; [intros z [= <-]; discriminate | reflexivity]|].
  destruct (String.eqb_spec (upper (strip (or_empty size_enum))) "L");
    [split; [intros z [= <-]; discriminate | reflexivity]|].
  destruct (String.eqb_spec (upper (strip (or_empty size_enum))) "XL");
    [split; [intros z [= <-]; discriminate | reflexivity]|].
  destruct (String.eqb_spec (upper (strip (or_empty size_enum))) "UNKNOWN");
    [split; [discriminate | reflexivity]|].
  split.
  - intros z E. rewrite E in *. cbn [or_empty default] in *. assumption.
  - unfold _title_size_from_enum. rewrite Ht. cbv zeta.
    repeat match goal with
           | H : ?a <> ?b |- context [String.eqb ?a ?b] =>
               rewrite (proj2 (String.eqb_neq a b) H)
           end.
    reflexivity.
Qed.

(* ===================================================================== *)
(** ** Further properties: the seed queries                              *)
(* ===================================================================== *)

Lemma mem_true_in (w : string) (l : list string) : mem w l = true <-> In w l.
Proof.
  unfold mem. rewrite existsb_exists. split.
  - intros (x & Hx & E). apply String.eqb_eq in E. now subst.
  - intros H. exists w. split; [exact H | apply String.eqb_refl].
Qed.

Lemma add_query_spec (l : list string) (a : string) :
  List.NoDup l ->
  List.NoDup (add_query l a)
  /\ (exists t, add_query l a = l ++ t)
  /\ forall q, In q (add_query l a)
               <-> In q l \/ (q = strip a /\ nonempty q = true).
Proof.
  intros N. unfold add_query. cbv zeta.
  destruct (nonempty (strip a)) eqn:Hn; cbn [andb].
  - destruct (mem (strip a) l) eqn:Hm; cbn [negb].
    + split; [exact N|]. split; [exists []; now rewrite app_nil_r|].
      intros q. split; [tauto|]. intros [H|[-> _]]; [exact H|].
      now apply mem_true_in.
    + split.
      * apply NoDup_snoc; [exact N|]. intros H. apply mem_true_in in H. congruence.
      * split; [now exists [strip a]|]. intros q. rewrite in_app_iff. cbn [In].
        split.
        -- intros [H|[<-|[]]]; [now left | right; now split].
        -- intros [H|[-> _]]; [now left | right; now left].
  - split; [exact N|]. split; [exists []; now rewrite app_nil_r|].
    intros q. split; [tauto|]. intros [H|[-> H]]; [exact H | congruence].
Qed.

Lemma fold_add_query_spec (adds l : list string) :
  List.NoDup l ->
  List.NoDup (fold_left add_query adds l)
  /\ (exists t, fold_left add_query adds l = l ++ t)
  /\ forall q, In q (fold_left add_query adds l)
               <-> In q l \/ (nonempty q = true /\ exists a, In a adds /\ q = strip a).
Proof.
  revert l. induction adds as [|a adds IH]; intros l N; cbn [fold_left].
  - split; [exact N|]. split; [exists []; now rewrite app_nil_r|].
    intros q. split; [tauto|]. intros [H|(_ & a & [] & _)]. exact H.
  - destruct (add_query_spec l a N) as (N1 & (t1 & E1) & I1).
    destruct (IH _ N1) as (N2 & (t2 & E2) & I2).
    split; [exact N2|]. split.
    + exists (t1 ++ t2). now rewrite E2, E1, app_assoc.
    + intros q. rewrite I2, I1. cbn [In]. split.
      * intros [[H|[-> Hn]]|(Hn & a' & Ha & ->)].
        -- now left.
        -- right. split; [exact Hn|]. exists a. tauto.
        -- right. split; [exact Hn|]. exists a'. tauto.
      * intros [H|(Hn & a' & [<-|Ha] & ->)].
        -- left; now left.
        -- left; right; now split.
        -- right. split; [exact Hn|]. now exists a'.
Qed.

Lemma filter_all_true {A} (p : A -> bool) (l : list A) :
  (forall x, In x l -> p x = true) -> List.filter p l = l.
Proof.
  induction l as [|x l IH]; intros H; cbn [List.filter]; [reflexivity|].
  rewrite (H x) by now left. f_equal. apply IH. intros y Hy. apply H. now right.
Qed.

(** The seed list is what the calls of [add] leave: the final
    comprehension drops nothing. *)
Lemma generate_item_queries_fold (brand_name item_name description : option string) :
  exists adds,
    _generate_item_queries brand_name item_name description
    = fold_left add_query adds []
    /\ exists rest,
         adds = (or_empty brand_name +:+ " " +:+ or_empty item_name +:+ " "
                 +:+ or_empty description)
                :: (or_empty brand_name +:+ " " +:+ or_empty item_name)
                :: or_empty item_name :: rest.
Proof.
  unfold _generate_item_queries. cbv zeta.
  match goal with
  | |- context [fold_left add_query ?a []] => exists a
  end.
  split.
  - apply filter_all_true. intros q Hq.
    apply (proj2 (proj2 (fold_add_query_spec _ [] (List.NoDup_nil _)))) in Hq.
    destruct Hq as [[]|[Hn _]]. exact Hn.
  - cbn [app]. eexists. reflexivity.
Qed.

(** X10: the seed queries of [_generate_item_queries] hold no query twice
    and no empty query; each is a stripped text; when the item name has a
    visible character the stripped name is among them and the stripped
    "brand name description" text comes first. *)
Theorem X10_seed_queries (brand_name item_name description : option string) :
  let seeds := _generate_item_queries brand_name item_name description in
  let full := strip (or_empty brand_name +:+ " " +:+ or_empty item_name +:+ " "
                     +:+ or_empty description) in
  List.NoDup seeds
  /\ (forall q, In q seeds -> nonempty q = true /\ exists a, q = strip a)
  /\ (nonempty (strip (or_empty item_name)) = true ->
      In (strip (or_empty item_name)) seeds)
  /\ (nonempty full = true -> exists rest, seeds = full :: rest).
Proof.
  cbv zeta.
  destruct (generate_item_queries_fold brand_name item_name description)
    as (adds & -> & rest & Ea).
  destruct (fold_add_query_spec adds [] (List.NoDup_nil _)) as (N & _ & I).
  split; [exact N|]. split; [|split].
  - intros q Hq. apply I in Hq. destruct Hq as [[]|(Hn & a & _ & ->)].
    split; [exact Hn | now exists a].
  - intros Hn. apply I. right. split; [exact Hn|].
    exists (or_empty item_name). split; [|reflexivity].
    rewrite Ea. cbn [In]. tauto.
  - intros Hn. rewrite Ea. cbn [fold_left].
    set (full := strip _) in *.
    assert (E : add_query [] (or_empty brand_name +:+ " " +:+ or_empty item_name
                               +:+ " " +:+ or_empty description) = [full]).
    { unfold add_query. cbv zeta. fold full. rewrite Hn. reflexivity. }
    rewrite E.
    assert (N1 : List.NoDup [full]) by (repeat constructor; intros []).
    destruct (fold_add_query_spec
                ((or_empty brand_name +:+ " " +:+ or_empty item_name)
                 :: or_empty item_name :: rest) [full] N1) as (_ & (t & Et) & _).
    cbn [fold_left] in Et. rewrite Et. now exists t.
Qed.

(* ===================================================================== *)
(** ** Further properties: the choice among search hits                  *)
(* ===================================================================== *)

Section BestFold.
Variables (sc : Cand -> Z) (p : Cand -> bool).
Variable f : option Cand * Z -> Cand -> option Cand * Z.
Hypothesis f_step : forall acc c,
  f acc c = if p c then (if snd acc <? sc c then (Some c, sc c) else acc) else acc.

Lemma is_best_step (l : list Cand) (acc : option Cand * Z) (c : Cand) :
  is_best sc p l acc -> is_best sc p (l ++ [c]) (f acc c).
Proof.
  intros [Hmax Hacc]. rewrite f_step.
  assert (Hlow : - 10 ^ 9 <= snd acc).
  { destruct (fst acc); [destruct Hacc as (_ & _ & -> & ?) | rewrite Hacc]; lia. }
  destruct (p c) eqn:Hp; [destruct (Z.ltb_spec (snd acc) (sc c))|].
  - split; cbn [fst snd].
    + intros c' Hin Hp'. apply in_app_iff in Hin. destruct Hin as [Hin|[<-|[]]].
      * specialize (Hmax _ Hin Hp'). lia.
      * lia.
    + rewrite in_app_iff. cbn [In]. repeat split; auto. lia.
  - split.
    + intros c' Hin Hp'. apply in_app_iff in Hin. destruct Hin as [Hin|[<-|[]]];
        [now apply Hmax | lia].
    + destruct (fst acc); [|exact Hacc].
      destruct Hacc as (Hin & ? & ? & ?). rewrite in_app_iff. tauto.
  - split.
    + intros c' Hin Hp'. apply in_app_iff in Hin. destruct Hin as [Hin|[<-|[]]];
        [now apply Hmax | congruence].
    + destruct (fst acc); [|exact Hacc].
      destruct Hacc as (Hin & ? & ? & ?). rewrite in_app_iff. tauto.
Qed.

Lemma is_best_fold (l' l : list Cand) (acc : option Cand * Z) :
  is_best sc p l acc -> is_best sc p (l ++ l') (fold_left f l' acc).
Proof.
  revert l acc. induction l' as [|c l' IH]; intros l acc H; cbn [fold_left].
  - now rewrite app_nil_r.
  - replace (l ++ c :: l') with ((l ++ [c]) ++ l') by now rewrite <- app_assoc.
    apply IH. now apply is_best_step.
Qed.

Lemma is_best_pick (l : list Cand) :
  match fst (fold_left f l (None, - 10 ^ 9)) with
  | Some c => In c (List.filter p l) /\ - 10 ^ 9 < sc c
              /\ forall c', In c' (List.filter p l) -> sc c' <= sc c
  | None => forall c', In c' (List.filter p l) -> sc c' <= - 10 ^ 9
  end.
Proof.
  destruct (is_best_fold l [] (None, - 10 ^ 9)) as [Hmax Hacc].
  { split; [intros c []|reflexivity]. }
  cbn [app] in *. destruct (fst (fold_left f l (None, - 10 ^ 9))) as [c|].
  - destruct Hacc as (Hin & Hp & E & Hlow). rewrite E in Hmax.
    split; [now apply filter_In|]. split; [exact Hlow|].
    intros c' Hc'. apply filter_In in Hc'. now apply Hmax.
  - rewrite Hacc in Hmax. intros c' Hc'. apply filter_In in Hc'. now apply Hmax.
Qed.
End BestFold.

Lemma fold_left_skip {A B} (l : list B) (a : A) : fold_left (fun acc _ => acc) l a = a.
Proof. induction l; cbn [fold_left]; auto. Qed.

Lemma filter_filter {A} (p q : A -> bool) (l : list A) :
  List.filter p (List.filter q l) = List.filter (fun x => q x && p x) l.
Proof.
  induction l as [|x l IH]; cbn [List.filter]; [reflexivity|].
  destruct (q x); cbn [List.filter andb]; [destruct (p x)|]; congruence.
Qed.

(** X11: [pick_best], the choice [_instant_search_best] makes in a decoded
    reply, returns a hit of highest score among the eligible ones (for a
    brand that names a restaurant: branded hits of an admitted brand; else
    all hits; never a hard reject), and returns nothing only when no
    eligible hit scores above the initial [-10^9]. *)
Theorem X11_pick_best_is_best (item_name description category : option string)
    (required forbidden : option (list string)) (brand_name : option string)
    (data : Json) :
  let score := _score_candidate item_name description category required forbidden in
  let pool := eligible item_name brand_name data in
  match pick_best item_name description category required forbidden brand_name data with
  | Some c => In c pool /\ - 10 ^ 9 < score c
              /\ forall c', In c' pool -> score c' <= score c
  | None => forall c', In c' pool -> score c' <= - 10 ^ 9
  end.
Proof.
  cbv zeta. unfold pick_best, eligible. cbv zeta.
  destruct (truthy brand_name) eqn:Ht;
    destruct (_is_generic_brand brand_name) eqn:Hg; cbn [andb negb].
  1,3,4: rewrite <- fold_left_app;
    apply (is_best_pick
             (_score_candidate item_name description category required forbidden)
             (fun c => negb (_reject_mismatch item_name (Some (or_empty (c_food_name c)))))
             (consider item_name description category required forbidden));
    intros acc c; unfold consider; cbv zeta;
    destruct (_reject_mismatch _ _); reflexivity.
  rewrite fold_left_skip.
  match goal with
  | |- match (if ?b then ?x else ?x) with _ => _ end => destruct b
  end.
  all: rewrite filter_filter;
    apply (is_best_pick
             (_score_candidate item_name description category required forbidden)
             (fun c => brand_admits brand_name c
                       && negb (_reject_mismatch item_name (Some (or_empty (c_food_name c)))))
             (fun acc c =>
                if truthy (Some (_norm_brand brand_name))
                   && nonempty (_norm_brand (c_brand_name c))
                   && (String.eqb (_norm_brand (c_brand_name c))
                                  (or_empty (Some (_norm_brand brand_name)))
                       || contains (or_empty (Some (_norm_brand brand_name)))
                                   (_norm_brand (c_brand_name c))
                       || contains (_norm_brand (c_brand_name c))
                                   (or_empty (Some (_norm_brand brand_name))))
                then consider item_name description category required forbidden acc c
                else acc));
    intros acc c; unfold consider, brand_admits; cbv zeta;
    cbn [truthy or_empty default];
    destruct (_ && _ && _); cbn [andb]; [|reflexivity];
    destruct (_reject_mismatch _ _); reflexivity.
Qed.

(* ===================================================================== *)
(** ** Further properties: the three outbound calls                      *)
(* ===================================================================== *)

(** X12: each search helper makes exactly one call and leaves the cache
    alone.  [_natural_search_best] never raises.  [_instant_search_best]
    raises exactly when a 200 reply carries a body that is not a JSON
    object (it reads the body after its [try] block); otherwise it returns,
    and both answer [None] when the call raised, the status is not 200 or
    the body does not decode. *)
Theorem X12_search_helpers_outcomes (net : nat -> Request -> Response)
    (brand item_name description category : option string)
    (required forbidden : option (list string)) (q : string) (w : World) :
  let reply := net (length (calls w)) in
  (exists o,
      _instant_search_best net brand item_name description category
        required forbidden q w
      = (o, mkWorld (cache w) (calls w ++ [InstantSearch q]))
      /\ (o = Raised <-> garbled (reply (InstantSearch q)) = true)
      /\ (unusable (reply (InstantSearch q)) = true -> o = Ok None))
  /\ (exists o text,
         _natural_search_best net brand q w
         = (Ok o, mkWorld (cache w) (calls w ++ [NaturalNutrients text]))
         /\ (unusable (reply (NaturalNutrients text)) = true
             \/ garbled (reply (NaturalNutrients text)) = true -> o = None)).
Proof.
  cbv zeta. split.
  - unfold _instant_search_best, mbind', call, raise, mret. cbn [fst snd].
    destruct (net (length (calls w)) (InstantSearch q)) as [|status body|status];
      cbn [unusable garbled].
    + eexists. split; [reflexivity|]. split; [split; discriminate | reflexivity].
    + destruct (status =? 200); cbn [negb orb].
      * destruct body; cbn [is_Some_b negb];
          (eexists; split; [reflexivity|]; split;
           [split; discriminate | first [discriminate | reflexivity]]).
      * eexists. split; [reflexivity|]. split; [split; discriminate | reflexivity].
    + destruct (status =? 200); cbn [negb];
        (eexists; split; [reflexivity|]; split;
         [split; first [reflexivity | discriminate]
         | first [discriminate | reflexivity]]).
  - unfold _natural_search_best, mbind', call. cbv zeta.
    set (text := strip _).
    destruct (net (length (calls w)) (NaturalNutrients text)) as [|status body|status] eqn:E.
    + exists None, text. rewrite E. split; reflexivity.
    + destruct (status =? 200) eqn:Es; cbn [negb].
      * destruct (first_food body) as [full|] eqn:Ef.
        -- destruct (truthy (brand_hint_of brand) && brand_contradicts full _);
             eexists; exists text; rewrite E; cbn [unusable garbled];
             rewrite Es; (split; [reflexivity|]);
             destruct body; cbn [is_Some_b negb orb];
             first [ intros [H|H]; discriminate H | discriminate Ef | reflexivity ].
        -- exists None, text. split; reflexivity.
      * exists None, text. split; reflexivity.
    + exists None, text. split; reflexivity.
Qed.


(** X14: the calorie check guards the identifier path only.  When the
    catalog answers a fetch with a plain McDonald's cheeseburger record above
    450 kcal, a hit with an identifier resolves to nothing, while the same
    record reached by text is returned. *)
Theorem X14_calorie_check_by_identifier_only (net : nat -> Request -> Response)
    (by_id by_text : Cand) (brand_hint : option string) (w : World)
    (body : option Json) (full : Food)
    (Hreply : forall r, net (length (calls w)) r = Reply 200 body)
    (Hfood : first_food body = Ok full)
    (Hbig : oversized_cheeseburger full = true)
    (Hbrand : brand_contradicts full (brand_hint_of brand_hint) = false)
    (Hid : truthy (c_nix_item_id by_id) = true)
    (Hnoid : truthy (c_nix_item_id by_text) = false)
    (Htext : nonempty (nl_text by_text brand_hint) = true) :
  fst (_nutritionix_nutrients_from_item net by_id true brand_hint w) = Ok None
  /\ fst (_nutritionix_nutrients_from_item net by_text true brand_hint w)
     = Ok (Some (_extract_macro_fields full)).
Proof.
  unfold _nutritionix_nutrients_from_item. rewrite Hid, Hnoid. cbv zeta.
  rewrite Htext. cbn [negb].
  unfold mbind', call, lift, mret. rewrite !Hreply. cbn [Z.eqb Pos.eqb negb].
  rewrite Hfood. cbn [fst snd]. split.
  - destruct (true && truthy brand_hint && brand_contradicts full brand_hint);
      [reflexivity|].
    unfold oversized_cheeseburger in Hbig. rewrite Hbig. reflexivity.
  - rewrite Hbrand, andb_false_r. reflexivity.
Qed.

Lemma X14_calorie_check_by_identifier_only_witness :
  let full := record "Cheeseburger" (Some "McDonald's") 520 in
  let net := fun (_ : nat) (_ : Request) =>
               Reply 200 (Some (mkJson (Some [full]) [] [])) in
  fst (_nutritionix_nutrients_from_item net
         (hit "Cheeseburger" "McDonald's" (Some "513fc9e73fe3ffd40300109f"))
         true (Some "McDonald's") world0) = Ok None
  /\ fst (_nutritionix_nutrients_from_item net
            (hit "Cheeseburger" "McDonald's" None) true (Some "McDonald's") world0)
     = Ok (Some (_extract_macro_fields full)).
Proof.
  cbv zeta.
  apply (X14_calorie_check_by_identifier_only
           (fun _ _ => Reply 200 (Some (mkJson (Some [record "Cheeseburger" (Some "McDonald's") 520]) [] [])))
           _ _ (Some "McDonald's") world0
           (Some (mkJson (Some [record "Cheeseburger" (Some "McDonald's") 520]) [] []))
           (record "Cheeseburger" (Some "McDonald's") 520));
    first [reflexivity | intros; reflexivity].
Defined.

(** X15: [_nutritionix_nl_from_name_desc] answers [None] without a call
    when the item has no name, and for a brand that names a restaurant it
    returns only brand-locked records. *)
Theorem X15_nl_from_name_desc (net : nat -> Request -> Response)
    (brand item_name description : option string) (w : World) :
  (truthy item_name = false ->
   _nutritionix_nl_from_name_desc net brand item_name description w = (Ok None, w))
  /\ (_is_generic_brand brand = false ->
      forall m w',
        _nutritionix_nl_from_name_desc net brand item_name description w
        = (Ok (Some m), w') ->
        brand_locked brand m).
Proof.
  unfold _nutritionix_nl_from_name_desc. split.
  - intros ->. reflexivity.
  - intros Hg m w' H. rewrite Hg in H. cbn [negb andb] in H.
    destruct (negb (truthy item_name)); [discriminate H|].
    cbv zeta in H. unfold mbind', call, lift, raise, mret in H.
    destruct (net _ _) as [|status body|status];
      [discriminate H| |destruct (negb (status =? 200)); discriminate H].
    destruct (negb (status =? 200)); [discriminate H|].
    destruct (first_food body) as [full|]; [|discriminate H].
    destruct (brand_contradicts full brand) eqn:Hc; [discriminate H|].
    injection H as <- _. now apply not_contradicting_locked.
Qed.

(* ===================================================================== *)
(** ** Further properties: the search for an item                        *)
(* ===================================================================== *)

Section SearchTrace.
Variable net : nat -> Request -> Response.
Variable over_budget : nat -> bool.
Variables (brand i d c : option string) (rq fb : option (list string)).

Lemma instant_ok_if (q : string) (w : World) :
  garbled (net (length (calls w)) (InstantSearch q)) = false ->
  exists o, _instant_search_best net brand i d c rq fb q w
            = (Ok o, mkWorld (cache w) (calls w ++ [InstantSearch q])).
Proof.
  unfold _instant_search_best, mbind', call, mret, raise.
  destruct (net _ _) as [|status [data|]|status]; cbn [garbled];
    [eauto| | |]; destruct (status =? 200); cbn [negb]; eauto; discriminate.
Qed.

Lemma seed_loop_trace (seeds : list string) (acc : option Cand * Z) (w : World) :
  exists o k,
    (k <= length seeds)%nat
    /\ seed_loop net over_budget brand i d c rq fb seeds acc w
       = (o, mkWorld (cache w) (calls w ++ searches (take k seeds)))
    /\ ((forall n q, garbled (net n (InstantSearch q)) = false) -> o <> Raised).
Proof.
  revert acc w. induction seeds as [|q rest IH]; intros acc w; cbn [seed_loop].
  - exists (Ok (fst acc)), 0%nat. split; [cbn; lia|].
    unfold mret, searches. cbn [take map]. rewrite app_nil_r.
    split; [now destruct w | discriminate].
  - destruct (over_budget (length (calls w))).
    + exists (Ok (fst acc)), 0%nat. split; [cbn; lia|].
      unfold searches. cbn [take map]. rewrite app_nil_r.
      split; [now destruct w | discriminate].
    + destruct (instant_effect net brand i d c rq fb q w) as (cand & E).
      unfold mbind' at 1. rewrite E.
      set (w1 := mkWorld (cache w) (calls w ++ [InstantSearch q])).
      destruct cand as [cand|].
      2:{ exists Raised, 1%nat. split; [cbn [length]; lia|].
          split; [reflexivity|]. intros Hg.
          destruct (instant_ok_if q w (Hg _ _)) as (o & Eo). congruence. }
      assert (K : forall acc1,
                exists o k, (k <= length (q :: rest))%nat
                  /\ seed_loop net over_budget brand i d c rq fb rest acc1 w1
                     = (o, mkWorld (cache w)
                             (calls w ++ searches (take k (q :: rest))))
                  /\ ((forall n q, garbled (net n (InstantSearch q)) = false) ->
                      o <> Raised)).
      { intros acc1. destruct (IH acc1 w1) as (o & k & Hk & Ek & Ho).
        exists o, (S k). split; [cbn [length]; lia|]. rewrite Ek.
        subst w1. cbn [cache calls]. unfold searches. cbn [take map].
        split; [now rewrite <- app_assoc | exact Ho]. }
      destruct cand as [c0|]; [|apply K]. cbv zeta.
      destruct (_GOOD_SCORE_THRESHOLD <=? _); [|apply K].
      eexists. exists 1%nat. split; [cbn [length]; lia|].
      unfold mret, searches. cbn [take map]. split; [reflexivity | discriminate].
Qed.

Lemma in_take {A} (k : nat) (l : list A) (x : A) : In x (take k l) -> In x l.
Proof.
  revert k. induction l as [|y l IH]; intros [|k]; cbn [take In]; try tauto.
  intros [H|H]; [now left | right; now apply (IH k)].
Qed.

Lemma take_take_le {A} (k n : nat) (l : list A) :
  (k <= length (take n l))%nat -> take k (take n l) = take k l /\ (k <= n)%nat.
Proof.
  intros H. pose proof (length_take_le n l).
  split; [|lia]. rewrite take_take. f_equal. lia.
Qed.

End SearchTrace.

(** X17: the strict cheeseburger retry of [process_entry] never raises,
    even when its fetch does; it makes at most three calls, one of them a
    text search, and leaves the cache alone.  Unless the brand is
    McDonald's, the item a plain cheeseburger and the record above 450 kcal,
    it makes no call and changes nothing. *)
Theorem X17_strict_retry_is_contained (net : nat -> Request -> Response)
    (brand : option string) (entry : Entry) (match_ : option Cand)
    (nutrients : option Macros) (w : World) :
  (exists r l,
      strict_retry net brand entry match_ nutrients w
      = (Ok r, mkWorld (cache w) (calls w ++ l))
      /\ (text_searches l <= 1)%nat /\ (length l <= 3)%nat)
  /\ (strict_retry_fires brand entry nutrients = false ->
      strict_retry net brand entry match_ nutrients w = (Ok (match_, nutrients), w)).
Proof.
  split.
  - destruct (strict_retry_bounded net brand entry match_ nutrients) as [B T].
    destruct (B w) as (l & E & Hs & Hl). destruct (T w) as (r & Er).
    exists r, l. split; [|split; assumption].
    unfold extends_by in E.
    destruct (strict_retry net brand entry match_ nutrients w) as [o w'].
    cbn [fst snd] in *. now subst.
  - unfold strict_retry_fires, strict_retry. cbv zeta.
    destruct nutrients as [n|]; [|reflexivity].
    intros ->. reflexivity.
Qed.

(* ===================================================================== *)
(** ** Further properties: items, batches and the pipeline               *)
(* ===================================================================== *)

Section Dependable.
Variable net : nat -> Request -> Response.
Variable over_budget : nat -> bool.
Variable brand : option string.
Hypothesis Hdep : dependable net.

Lemma fetch_total (item : Cand) (rb : bool) (hint : option string) :
  total (_nutritionix_nutrients_from_item net item rb hint).
Proof.
  intros w. unfold _nutritionix_nutrients_from_item.
  destruct (truthy (c_nix_item_id item)).
  - unfold mbind', call, lift, raise, mret. cbn [fst snd].
    pose proof (Hdep (length (calls w)) (ItemById (or_empty (c_nix_item_id item))))
      as Hb.
    cbn [is_text_search] in Hb.
    destruct (net _ _) as [|status body|status]; [discriminate Hb| |];
      cbn [breaks] in Hb;
      (destruct (status =? 200); cbn [negb andb] in *; [|now eexists]);
      [|discriminate Hb].
    destruct (first_food body); [|discriminate Hb].
    repeat match goal with
           | |- context [if ?b then _ else _] => destruct b
           end; now eexists.
  - cbv zeta. destruct (negb (nonempty (nl_text item hint))); [now eexists|].
    unfold mbind', call, lift, raise, mret. cbn [fst snd].
    pose proof (Hdep (length (calls w)) (NaturalNutrients (nl_text item hint)))
      as Hb.
    cbn [is_text_search] in Hb.
    destruct (net _ _) as [|status body|status]; [discriminate Hb| |];
      cbn [breaks] in Hb;
      (destruct (status =? 200); cbn [negb andb] in *; [|now eexists]);
      [|discriminate Hb].
    destruct (first_food body); [|discriminate Hb].
    repeat match goal with
           | |- context [if ?b then _ else _] => destruct b
           end; now eexists.
Qed.

Lemma searches_not_garbled n q : garbled (net n (InstantSearch q)) = false.
Proof. exact (Hdep n (InstantSearch q)). Qed.

Lemma instant_total (i d c : option string) (rq fb : option (list string))
    (q : string) :
  total (_instant_search_best net brand i d c rq fb q).
Proof.
  intros w.
  destruct (instant_ok_if net brand i d c rq fb q w (searches_not_garbled _ _))
    as (o & E).
  rewrite E. now exists o.
Qed.

Lemma seed_loop_total (i d c : option string) (rq fb : option (list string))
    (seeds : list string) (acc : option Cand * Z) :
  total (seed_loop net over_budget brand i d c rq fb seeds acc).
Proof.
  intros w.
  destruct (seed_loop_trace net over_budget brand i d c rq fb seeds acc w)
    as (o & k & _ & E & Ho).
  rewrite E. cbn [fst]. destruct o as [a|]; [now exists a|].
  now destruct (Ho searches_not_garbled).
Qed.

Lemma search_item_total (i d c : option string) (rq fb : option (list string))
    (nq : option string) :
  total (_nutritionix_search_item net over_budget brand i d c rq fb nq).
Proof.
  unfold _nutritionix_search_item. apply total_bind.
  - destruct (truthy nq); [apply instant_total | apply total_ret].
  - intros [c0|]; [apply total_ret | apply seed_loop_total].
Qed.

Lemma refine_body_total (entry : Entry) (st : Attempt) :
  total (refine_body net brand entry st).
Proof.
  unfold refine_body. cbv zeta.
  apply total_bind; [apply instant_total|]. intros refined.
  apply total_bind.
  - destruct refined; [|apply total_ret].
    apply total_bind; [apply fetch_total | intros; apply total_ret].
  - intros st1. destruct (a_nutrients st1); [apply total_ret|].
    apply total_bind; [apply natural_bounded | intros; apply total_ret].
Qed.

Lemma refine_loop_total (entry : Entry) (fuel : nat) (st : Attempt) :
  total (refine_loop net fuel brand entry st).
Proof.
  revert st. induction fuel as [|fuel IH]; intros st; cbn [refine_loop].
  - apply total_ret.
  - destruct (refine_guard st); [|apply total_ret].
    apply total_bind; [apply refine_body_total | exact IH].
Qed.

Lemma process_entry_total (entry : Entry) :
  total (process_entry net over_budget brand entry).
Proof.
  intros w. unfold process_entry. cbv zeta.
  destruct (cache w !! _); [now eexists|].
  revert w. change (total (
    match_ <- _nutritionix_search_item net over_budget brand (e_item_name entry)
                (e_description entry) (e_category entry)
                (e_required_keywords entry) (e_forbidden_keywords entry)
                (e_nutritionix_query entry) ;;
    nutrients <- match match_ with
                 | Some c =>
                     if cand_nonempty c
                     then _nutritionix_nutrients_from_item net c (truthy brand) brand
                     else mret None
                 | None => mret None
                 end ;;
    nutrients <- match nutrients with
                 | None => if truthy (e_nutritionix_query entry)
                           then _natural_search_best net brand
                                  (or_empty (e_nutritionix_query entry))
                           else mret None
                 | Some _ => mret nutrients
                 end ;;
    st <- refine_loop net 2 brand entry (mkAttempt 0 match_ nutrients) ;;
    mn <- strict_retry net brand entry (a_match st) (a_nutrients st) ;;
    (fun w' =>
       (Ok (mkResult (final_name (e_item_name entry) (fst mn) (snd mn))
                     (e_description entry) (qty_of entry) (fst mn) (snd mn)),
        mkWorld (<[_cache_key_for_item brand (e_item_name entry)
                     (e_description entry)
                   := mkResult (final_name (e_item_name entry) (fst mn) (snd mn))
                        (e_description entry) (qty_of entry) (fst mn) (snd mn)]>
                   (cache w')) (calls w'))))).
  apply total_bind; [apply search_item_total|]. intros mt.
  apply total_bind.
  { destruct mt as [c0|]; [destruct (cand_nonempty c0)|];
      first [apply fetch_total | apply total_ret]. }
  intros n1. apply total_bind.
  { destruct n1; [|destruct (truthy (e_nutritionix_query entry))];
      first [apply natural_bounded | apply total_ret]. }
  intros n2. apply total_bind; [apply refine_loop_total|]. intros st.
  apply total_bind; [apply strict_retry_bounded|]. intros mn w. now eexists.
Qed.

Lemma run_tasks_total (entries : list Entry) (w : World) :
  exists rs, gather (fst (run_tasks net over_budget brand entries w)) = Ok rs.
Proof.
  revert w. induction entries as [|e rest IH]; intros w; cbn [run_tasks].
  - now exists [].
  - destruct (process_entry_total e w) as (r & Er).
    destruct (process_entry net over_budget brand e w) as [o w1].
    cbn [fst] in Er. subst o. destruct (IH w1) as (rs & Ers).
    destruct (run_tasks net over_budget brand rest w1) as [os w2].
    cbn [fst] in *. cbn [gather]. rewrite Ers. now eexists.
Qed.
End Dependable.



Section BatchEffects.
Variable net : nat -> Request -> Response.
Variable over_budget : nat -> bool.
Variable brand : option string.

Lemma process_entry_cache_grows (entry : Entry) (w : World) (k : string) (r : Result) :
  cache w !! k = Some r ->
  cache (snd (process_entry net over_budget brand entry w)) !! k = Some r.
Proof.
  intros Hk. destruct (cache w !! key_of brand entry) as [cached|] eqn:Hc.
  - now rewrite (process_entry_hit net over_budget brand entry w cached Hc).
  - destruct (process_entry_effect net over_budget brand entry w)
      as (l & _ & _ & _ & C).
    destruct (fst (process_entry net over_budget brand entry w)) as [r0|].
    + destruct C as [_ [C|C]]; rewrite C; [exact Hk|].
      rewrite lookup_insert_ne; [exact Hk|]. congruence.
    + now rewrite C.
Qed.

Lemma run_tasks_effect (entries : list Entry) (w : World) :
  let out := run_tasks net over_budget brand entries w in
  (exists l, calls (snd out) = calls w ++ l
             /\ (text_searches l <= 12 * length entries)%nat
             /\ (length l <= 20 * length entries)%nat)
  /\ (forall k r, cache w !! k = Some r -> cache (snd out) !! k = Some r)
  /\ (forall e, In e entries ->
        In Raised (fst out)
        \/ exists r, In (Ok r) (fst out)
                     /\ cache (snd out) !! key_of brand e = Some r).
Proof.
  cbv zeta. revert w. induction entries as [|e rest IH]; intros w; cbn [run_tasks].
  - cbn [fst snd]. split; [exists []; rewrite app_nil_r; cbn; auto|].
    split; [auto | intros e []].
  - pose proof (process_entry_cache_grows e w) as G.
    destruct (process_entry_effect net over_budget brand e w)
      as (l1 & E1 & T1 & L1 & C1).
    destruct (process_entry net over_budget brand e w) as [o w1].
    cbn [fst snd] in *.
    destruct (IH w1) as ((l2 & E2 & T2 & L2) & G2 & K2).
    destruct (run_tasks net over_budget brand rest w1) as [os w2].
    cbn [fst snd] in *. split; [|split].
    + exists (l1 ++ l2). rewrite E2, E1, app_assoc. split; [reflexivity|].
      rewrite text_searches_app, length_app. cbn [length]. lia.
    + intros k r Hk. apply G2, G, Hk.
    + intros e' [<-|Hin].
      * destruct o as [r|]; [|left; now left].
        right. exists r. split; [now left|]. apply G2. apply C1.
      * destruct (K2 e' Hin) as [H|(r & H1 & H2)].
        -- left. now right.
        -- right. exists r. split; [now right | exact H2].
Qed.
End BatchEffects.

(** X19: what a batch does to the world, whether it returns or raises: it
    appends at most 20 calls per item, at most 12 of them text searches,
    and never removes or replaces a cache entry.  When it returns, the cache
    holds under the key of every item one of the returned results. *)
Theorem X19_batch_effects (net : nat -> Request -> Response)
    (over_budget : nat -> bool) (itemized : Itemized) (w : World) :
  let out := fetch_nutritionix_macros net over_budget itemized w in
  let n := length (items itemized) in
  (exists l, calls (snd out) = calls w ++ l
             /\ (text_searches l <= 12 * n)%nat /\ (length l <= 20 * n)%nat)
  /\ (forall k r, cache w !! k = Some r -> cache (snd out) !! k = Some r)
  /\ (forall b, fst out = Ok b ->
        forall e, In e (items itemized) ->
          exists r, In r (results b)
                    /\ cache (snd out) !! key_of (restaurant_name itemized) e = Some r).
Proof.
  cbv zeta. unfold fetch_nutritionix_macros. cbv zeta.
  destruct (run_tasks_effect net over_budget (restaurant_name itemized)
              (items itemized) w) as (Hl & Hg & Hk).
  destruct (run_tasks net over_budget (restaurant_name itemized) (items itemized) w)
    as [fs w1].
  cbn [fst snd] in *.
  destruct (gather fs) as [rs|] eqn:G; cbn [fst snd];
    (split; [exact Hl|]); (split; [exact Hg|]); [|discriminate].
  intros b [= <-] e Hin. cbn [results]. apply gather_ok in G. subst fs.
  destruct (Hk e Hin) as [H|(r & H1 & H2)].
  - apply in_map_iff in H as (x & Hx & _). discriminate Hx.
  - exists r. split; [|exact H2].
    apply in_map_iff in H1 as (x & [= ->] & Hx). exact Hx.
Qed.


(** X21: what [process_entry] reports for an item it had to resolve: the
    item's own description, its quantity with 1 for a missing or zero one
    (so never 0), and the item's own name unless that name is a placeholder
    ("unknown", "unidentified", "unidentified item", or anything with "best
    guess"), in which case a replacement is never empty. *)
Theorem X21_resolved_item_shape (net : nat -> Request -> Response)
    (over_budget : nat -> bool) (brand : option string) (entry : Entry)
    (w w' : World) (r : Result)
    (Hmiss : cache w !! key_of brand entry = None)
    (Hrun : process_entry net over_budget brand entry w = (Ok r, w')) :
  r_description r = e_description entry
  /\ r_quantity r = qty_of entry /\ r_quantity r <> 0
  /\ (placeholder_name (e_item_name entry) = false ->
      r_item_name r = e_item_name entry)
  /\ (r_item_name r = e_item_name entry \/ truthy (r_item_name r) = true).
Proof.
  revert Hrun. unfold process_entry. cbv zeta.
  unfold key_of in Hmiss. rewrite Hmiss. unfold mbind'.
  repeat match goal with
         | |- context [match ?m w with _ => _ end] => destruct (m w) as [[?|] ?]
         | |- context [match ?m ?x with (_, _) => _ end] =>
             destruct (m x) as [[?|] ?]
         end; try discriminate.
  intros [= <- <-]. cbn [r_description r_quantity r_item_name].
  split; [reflexivity|]. split; [reflexivity|]. split.
  { unfold qty_of. destruct (e_quantity entry) as [q|]; [|lia].
    destruct (Z.eqb_spec q 0); lia. }
  unfold final_name, placeholder_name. cbv zeta.
  destruct (mem _ _ || contains _ _).
  - split; [discriminate|].
    destruct (truthy (_ ≫= c_food_name)) eqn:H1; [now right|].
    destruct (truthy (_ ≫= m_food_name)) eqn:H2; [now right | now left].
  - split; [reflexivity | now left].
Qed.

Lemma X21_resolved_item_shape_witness :
  exists r w',
    process_entry unbranded_catalog never_over_budget (Some "BrandX")
      unknown_item world0 = (Ok r, w')
    /\ r_description r = e_description unknown_item
    /\ r_quantity r = 2
    /\ r_item_name r = Some "BrandX fries".
Proof.
  eexists. eexists. split; [vm_compute; reflexivity|].
  destruct (X21_resolved_item_shape unbranded_catalog never_over_budget
              (Some "BrandX") unknown_item world0 _ _ eq_refl eq_refl)
    as (Hd & Hq & _).
  split; [exact Hd|]. split; [exact Hq | reflexivity].
Defined.

(* ===================================================================== *)
(** ** Further properties: the composed query of a named brand           *)
(* ===================================================================== *)

Lemma visible_app (a b : string) : visible (a +:+ b) = visible a || visible b.
Proof. unfold visible. rewrite forall_str_app. now destruct (forall_str _ a). Qed.

Lemma visible_lstrip (x : string) : visible (lstrip x) = visible x.
Proof.
  unfold visible. induction x as [|c x IH]; [reflexivity|].
  cbn [lstrip]. destruct (is_space c) eqn:E; [|reflexivity].
  rewrite IH. cbn [forall_str]. now rewrite E.
Qed.

Lemma visible_rstrip (x : string) : visible (rstrip x) = visible x.
Proof.
  unfold visible. induction x as [|c x IH]; [reflexivity|].
  rewrite rstrip_cons. cbn [forall_str].
  destruct (rstrip x) as [|c' r] eqn:E.
  - cbn [forall_str] in IH. apply (f_equal negb) in IH.
    rewrite !negb_involutive in IH. rewrite <- IH, andb_true_r.
    destruct (is_space c) eqn:Ec; cbn [forall_str]; now rewrite ?Ec.
  - cbn [forall_str] in *. apply (f_equal negb) in IH.
    rewrite !negb_involutive in IH. now rewrite IH.
Qed.

Lemma visible_strip (x : string) : visible (strip x) = visible x.
Proof. unfold strip. now rewrite visible_lstrip, visible_rstrip. Qed.

Lemma visible_nonempty (x : string) : visible x = true -> nonempty x = true.
Proof. destruct x; [discriminate | reflexivity]. Qed.

Lemma space_not_alnum (c : ascii) :
  is_space c = true -> is_lower_alnum (lower_char c) = false.
Proof. destruct c as [[] [] [] [] [] [] [] []]; vm_compute; congruence. Qed.

Lemma blank_norm_raw (s : string) :
  forall_str is_space s = true -> filter_str is_lower_alnum (lower s) = "".
Proof.
  unfold lower. induction s as [|c s IH]; [reflexivity|].
  cbn [forall_str map_str filter_str]. intros [Hc Hs]%andb_prop.
  now rewrite (space_not_alnum c Hc), IH.
Qed.

Lemma specific_visible (brand : option string) :
  _is_generic_brand brand = false -> visible (or_empty brand) = true.
Proof.
  unfold _is_generic_brand, _norm_raw, visible.
  destruct (truthy brand); [|discriminate].
  destruct (forall_str is_space (or_empty brand)) eqn:E; [|reflexivity].
  now rewrite (blank_norm_raw _ E).
Qed.

Section NamedBrand.
Variable net : nat -> Request -> Response.
Variable brand : option string.
Hypothesis Hspecific : _is_generic_brand brand = false.

Lemma with_brand_visible (x : string) : visible (with_brand brand x) = true.
Proof.
  unfold with_brand. rewrite Hspecific, (specific_truthy brand Hspecific).
  cbn [andb negb]. rewrite visible_strip, visible_app.
  now rewrite (specific_visible brand Hspecific).
Qed.

Lemma drink_query_visible (text : string) (ounces size_word : option string) :
  visible (drink_query brand text ounces size_word) = true.
Proof.
  destruct (drink_query_shaped brand text ounces size_word) as [-> | ->].
  - rewrite visible_strip. apply with_brand_visible.
  - apply with_brand_visible.
Qed.

Lemma build_query_visible (entry : Entry) :
  visible (_build_nutritionix_query_for_item brand entry) = true.
Proof.
  unfold _build_nutritionix_query_for_item. cbv zeta.
  repeat first [ apply with_brand_visible
               | apply drink_query_visible
               | match goal with
                 | |- context [if ?b then _ else _] => destruct b
                 end ].
Qed.
End NamedBrand.

Lemma bind_calls_after {A B} (m : M A) (f : A -> M B) (s k : nat)
    (w : World) (a : A) (w1 : World) :
  m w = (Ok a, w1) -> bounded (f a) s k ->
  exists l, calls (snd (mbind' m f w)) = calls w1 ++ l.
Proof.
  intros E Hb. unfold mbind'. rewrite E. destruct (Hb w1) as (l & El & _).
  exists l. unfold extends_by in El. now rewrite El.
Qed.

(** X22: for a brand that names a restaurant the composed query is never
    empty, so every pass of the refinement loop starts with a text search
    of exactly the composed query, never of the itemizer's query or the
    bare name. *)
Theorem X22_named_brand_composed_query (net : nat -> Request -> Response)
    (brand : option string) (entry : Entry) (st : Attempt) (w : World)
    (Hspecific : _is_generic_brand brand = false) :
  let q := _build_nutritionix_query_for_item brand entry in
  nonempty q = true
  /\ exists l, calls (snd (refine_body net brand entry st w))
               = calls w ++ InstantSearch q :: l.
Proof.
  cbv zeta.
  pose proof (visible_nonempty _ (build_query_visible brand Hspecific entry)) as Hq.
  split; [exact Hq|].
  unfold refine_body. cbv zeta. rewrite Hq.
  set (q := _build_nutritionix_query_for_item brand entry).
  destruct (instant_effect net brand (Some (or_empty (e_item_name entry)))
              (e_description entry) (e_category entry)
              (e_required_keywords entry) (e_forbidden_keywords entry) q w)
    as ([refined|] & E).
  2:{ exists []. unfold mbind' at 1. now rewrite E. }
  match goal with
  | |- context [snd (mbind' ?m ?f w)] =>
      destruct (bind_calls_after m f 0 2 w refined _ E) as (l & El)
  end.
  - cbv beta. apply (bounded_bind _ _ 0 1 0 1).
    + destruct refined as [c0|].
      * apply (bounded_bind _ _ 0 1 0 0); [apply fetch_bounded|].
        intros; apply bounded_ret.
      * apply (bounded_weaken _ 0 0); [lia | lia | apply bounded_ret].
    + intros st1. destruct (a_nutrients st1).
      * apply (bounded_weaken _ 0 0); [lia | lia | apply bounded_ret].
      * apply (bounded_bind _ _ 0 1 0 0); [apply natural_bounded|].
        intros; apply bounded_ret.
  - exists l. rewrite El. cbn [calls]. now rewrite <- app_assoc.
Qed.

Lemma X22_named_brand_composed_query_witness :
  _build_nutritionix_query_for_item (Some "BrandX") (order "Fries" 1)
  = "BrandX French fries"
  /\ exists l,
       calls (snd (refine_body brandx_catalog (Some "BrandX") (order "Fries" 1)
                     (mkAttempt 0 None None) world0))
       = calls world0 ++ InstantSearch "BrandX French fries" :: l.
Proof.
  split; [reflexivity|].
  apply (X22_named_brand_composed_query brandx_catalog (Some "BrandX")
           (order "Fries" 1) (mkAttempt 0 None None) world0).
  reflexivity.
Defined.

(* ===================================================================== *)
(** ** Further properties: a batch run again                              *)
(* ===================================================================== *)

Section Rerun.
Variable net : nat -> Request -> Response.
Variable over_budget : nat -> bool.
Variable brand : option string.

Lemma run_tasks_aligned (entries : list Entry) (w : World) :
  Forall2 (fun e o =>
             forall r, o = Ok r ->
               cache (snd (run_tasks net over_budget brand entries w))
               !! key_of brand e = Some r)
          entries (fst (run_tasks net over_budget brand entries w)).
Proof.
  revert w. induction entries as [|e rest IH]; intros w; cbn [run_tasks].
  - constructor.
  - destruct (process_entry_effect net over_budget brand e w) as (l & _ & _ & _ & C).
    destruct (process_entry net over_budget brand e w) as [o w1].
    cbn [fst snd] in C. specialize (IH w1).
    destruct (run_tasks_effect net over_budget brand rest w1) as (_ & G & _).
    destruct (run_tasks net over_budget brand rest w1) as [os w2].
    cbn [fst snd] in *. constructor; [|exact IH].
    intros r ->. apply G, C.
Qed.

Lemma run_tasks_all_cached (entries : list Entry) (rs : list Result) (w : World) :
  Forall2 (fun e r => cache w !! key_of brand e = Some r) entries rs ->
  run_tasks net over_budget brand entries w = (map Ok rs, w).
Proof.
  induction 1 as [|e r entries rs Hk _ IH]; cbn [run_tasks map]; [reflexivity|].
  now rewrite (process_entry_hit net over_budget brand e w r Hk), IH.
Qed.
End Rerun.

Lemma gather_map_ok (rs : list Result) : gather (map Ok rs) = Ok rs.
Proof. induction rs as [|r rs IH]; cbn [map gather]; [|rewrite IH]; reflexivity. Qed.

Lemma Forall2_map_ok {A} (P : A -> Result -> Prop) (l : list A) (rs : list Result) :
  Forall2 (fun a o => forall r, o = Ok r -> P a r) l (map Ok rs) ->
  Forall2 P l rs.
Proof.
  revert l. induction rs as [|r rs IH]; intros l H; cbn [map] in H.
  - apply Forall2_nil_inv_r in H. subst. constructor.
  - apply Forall2_cons_inv_r in H as (a & l' & Ha & Hl & ->).
    constructor; [now apply Ha | now apply IH].
Qed.

Lemma Forall2_in_l {A B} (P : A -> B -> Prop) (l : list A) (l' : list B) (a : A) :
  Forall2 P l l' -> In a l -> exists b, In b l' /\ P a b.
Proof.
  induction 1 as [|x y l l' Hxy _ IH]; intros Hin; [destruct Hin|].
  destruct Hin as [<-|Hin].
  - exists y. split; [now left | exact Hxy].
  - destruct (IH Hin) as (b & Hb & Hp). exists b. split; [now right | exact Hp].
Qed.

(** X23: a batch that returned can be run again for nothing: on the world
    it left, the same batch makes no call and leaves the cache as it is,
    whatever the catalog and the clock now do; it returns one result per
    item, each of them a result of the first run, and for every item the
    result cached under the item's key. *)
Theorem X23_batch_rerun_is_free (net net' : nat -> Request -> Response)
    (over_budget over_budget' : nat -> bool) (itemized : Itemized)
    (w w' : World) (b : Batch)
    (Hrun : fetch_nutritionix_macros net over_budget itemized w = (Ok b, w')) :
  exists b',
    fetch_nutritionix_macros net' over_budget' itemized w' = (Ok b', w')
    /\ b_restaurant_name b' = b_restaurant_name b
    /\ length (results b') = length (items itemized)
    /\ (forall r, In r (results b') -> In r (results b))
    /\ (forall e, In e (items itemized) ->
          exists r, In r (results b')
                    /\ cache w' !! key_of (restaurant_name itemized) e = Some r).
Proof.
  revert Hrun. unfold fetch_nutritionix_macros. cbv zeta.
  pose proof (run_tasks_aligned net over_budget (restaurant_name itemized)
                (items itemized) w) as A.
  destruct (run_tasks net over_budget (restaurant_name itemized) (items itemized) w)
    as [fs w1].
  cbn [fst snd] in A.
  destruct (gather fs) as [rs|] eqn:G; [|discriminate].
  intros [= <- <-]. apply gather_ok in G. subst fs.
  apply Forall2_map_ok in A.
  rewrite (run_tasks_all_cached net' over_budget' (restaurant_name itemized)
             (items itemized) rs w1 A).
  rewrite gather_map_ok. eexists. split; [reflexivity|].
  cbn [b_restaurant_name results]. split; [reflexivity|].
  split; [symmetry; eapply Forall2_length; exact A|]. split; [auto|].
  intros e He. exact (Forall2_in_l _ _ _ _ A He).
Qed.

Lemma X23_batch_rerun_is_free_witness :
  exists b w',
    fetch_nutritionix_macros unbranded_catalog never_over_budget five_items world0
    = (Ok b, w')
    /\ exists b',
         fetch_nutritionix_macros dead_catalog (fun _ => true) five_items w'
         = (Ok b', w')
         /\ length (results b') = 5%nat.
Proof.
  pose (run := fetch_nutritionix_macros unbranded_catalog never_over_budget
                 five_items world0).
  assert (Hrun : run = (Ok (match fst run with
                            | Ok b => b
                            | Raised => mkBatch None []
                            end), snd run))
    by (vm_compute; reflexivity).
  eexists. exists (snd run). split; [exact Hrun|].
  destruct (X23_batch_rerun_is_free unbranded_catalog dead_catalog
              never_over_budget (fun _ => true) five_items world0 _ _ Hrun)
    as (b' & E & _ & L & _).
  exists b'. split; [exact E | exact L].
Defined.
